(** * PLSA by expectation-maximisation: a shallow embedding of [plsa.py]

    The Python module fits a probabilistic latent semantic analysis model
    with numpy.  This development embeds the module function by function
    and proves properties of the embedding.

    Conventions of the embedding:
    - a [float64] is an exact real number ([R]): a statement below that says
      which expression a function computes is to be read with the sums,
      products and quotients the program computes, and no claimed result
      rests on an identity of exact arithmetic that rounding breaks.  Where
      such an identity is the point ([Binary64], at the end of the
      definitions), [normalize] and the body of the E-step are embedded once
      more over IEEE 754 binary64 numbers;
    - a character is one of the 256 code points below U+0100 ([ascii]), a
      string a list of them; text with other characters is outside the
      model;
    - a numpy array is the list of its rows ([matrix]), a 3-d array the list
      of its matrices ([tensor]); an array without rows therefore carries no
      column count;
    - the instance [self] is a record that every method takes and returns;
    - an exception or a call of [exit] ends the computation: [outcome];
    - [print] is not modelled;
    - [np.float] is taken as the alias of [float] it was when the module
      was written. *)

From Stdlib Require Import String Ascii.
From Stdlib Require Import Reals Lra Lia ZArith Bool Arith List.
From Stdlib Require PrimFloat.
Import ListNotations.
Open Scope R_scope.

(** ** Outcomes: normal return, raised exception, interpreter exit *)

Inductive exn : Type :=
| RowsSumToZero  (* Exception("Error while normalizing. Row(s) sum to zero") *)
| IndexError     (* index out of bounds *)
| ValueError     (* shape mismatch, negative dimension, math domain error *)
| TypeError      (* an attribute still None is subscripted *)
| AttributeError. (* an attribute still None is asked for its shape or its sum *)

Inductive outcome (A : Type) : Type :=
| Ok (a : A)
| Raise (e : exn)
| SystemExit (code : Z).

Arguments Ok {A} a.
Arguments Raise {A} e.
Arguments SystemExit {A} code.

Definition bind {A B : Type} (m : outcome A) (k : A -> outcome B) : outcome B :=
  match m with
  | Ok a => k a
  | Raise e => Raise e
  | SystemExit z => SystemExit z
  end.

Notation "x <- m ;; k" := (bind m (fun x => k))
  (at level 61, m at next level, right associativity).

Definition of_option {A : Type} (e : exn) (o : option A) : outcome A :=
  match o with Some a => Ok a | None => Raise e end.

(** [for i in range(n): body] over a state [S]. *)
Fixpoint for_each {S : Type} (l : list nat) (body : nat -> S -> outcome S)
  (s : S) : outcome S :=
  match l with
  | [] => Ok s
  | i :: l' => s' <- body i s ;; for_each l' body s'
  end.

Definition for_range {S : Type} (n : nat) (body : nat -> S -> outcome S)
  (s : S) : outcome S :=
  for_each (seq 0 n) body s.

(** [range(z)] of a Python integer: empty when [z <= 0]. *)
Definition range (z : Z) : list nat := seq 0 (Z.to_nat z).

(** A loop whose body may [break]. *)
Inductive flow (S : Type) : Type :=
| Continue (s : S)
| Break (s : S).

Arguments Continue {S} s.
Arguments Break {S} s.

Fixpoint for_break {S : Type} (l : list nat) (body : nat -> S -> outcome (flow S))
  (s : S) : outcome S :=
  match l with
  | [] => Ok s
  | i :: l' =>
      match body i s with
      | Ok (Continue s') => for_break l' body s'
      | Ok (Break s') => Ok s'
      | Raise e => Raise e
      | SystemExit z => SystemExit z
      end
  end.

(** ** Arrays *)

Abbreviation vector := (list R) (only parsing).
Abbreviation matrix := (list (list R)) (only parsing).
Abbreviation tensor := (list (list (list R))) (only parsing).

Definition tabulate {A : Type} (n : nat) (f : nat -> A) : list A :=
  map f (seq 0 n).

(** [np.ones] / [np.zeros] of a shape given by Python integers: a negative
    extent raises ValueError. *)
Definition full2 (x : R) (r c : Z) : outcome matrix :=
  if ((r <? 0) || (c <? 0))%Z then Raise ValueError
  else Ok (repeat (repeat x (Z.to_nat c)) (Z.to_nat r)).

Definition full3 (x : R) (d k v : Z) : outcome tensor :=
  if ((d <? 0) || (k <? 0) || (v <? 0))%Z then Raise ValueError
  else Ok (repeat (repeat (repeat x (Z.to_nat v)) (Z.to_nat k)) (Z.to_nat d)).

(** [np.random.random_sample((r, c))]: the generator is the stream [rnd] of
    its future draws, consumed in row-major order. *)
Definition random_sample (rnd : nat -> R) (r c : Z) : outcome matrix :=
  if ((r <? 0) || (c <? 0))%Z then Raise ValueError
  else Ok (tabulate (Z.to_nat r) (fun i =>
             tabulate (Z.to_nat c) (fun j => rnd (i * Z.to_nat c + j)%nat))).

Definition advance (rnd : nat -> R) (n : nat) : nat -> R :=
  fun i => rnd (n + i)%nat.

Definition update {A : Type} (l : list A) (i : nat) (x : A) : outcome (list A) :=
  if (i <? length l)%nat
  then Ok (firstn i l ++ x :: skipn (S i) l)
  else Raise IndexError.

Definition item {A : Type} (l : list A) (i : nat) : outcome A :=
  of_option IndexError (nth_error l i).

(** [m[i][j]] and [m[i][j] = x] *)
Definition get2 (m : matrix) (i j : nat) : outcome R :=
  row <- item m i ;; item row j.

Definition set2 (m : matrix) (i j : nat) (x : R) : outcome matrix :=
  row <- item m i ;;
  row' <- update row j x ;;
  update m i row'.

(** [t[d][k][w]] *)
Definition get3 (t : tensor) (d k w : nat) : outcome R :=
  m <- item t d ;; get2 m k w.

(** [m[:, j]] *)
Fixpoint column (m : matrix) (j : nat) : outcome vector :=
  match m with
  | [] => Ok []
  | row :: m' =>
      x <- item row j ;;
      rest <- column m' j ;;
      Ok (x :: rest)
  end.

(** [m[:, j] = v] for [v] of the same length as the column *)
Fixpoint set_column (m : matrix) (j : nat) (v : vector) : outcome matrix :=
  match m, v with
  | [], [] => Ok []
  | row :: m', x :: v' =>
      row' <- update row j x ;;
      rest <- set_column m' j v' ;;
      Ok (row' :: rest)
  | _, _ => Raise ValueError
  end.

(** [t[i, :, j] = v]: a one-element [v] is broadcast along the axis. *)
Definition set_fiber (t : tensor) (i j : nat) (v : vector) : outcome tensor :=
  m <- item t i ;;
  m' <- (if (length v =? length m)%nat then set_column m j v
         else if (length v =? 1)%nat then set_column m j (repeat (hd 0 v) (length m))
         else Raise ValueError) ;;
  update t i m'.

(** [a * b] on 1-d arrays, with numpy's broadcasting of a length-1 operand *)
Fixpoint zip_mul (a b : vector) : vector :=
  match a, b with
  | x :: a', y :: b' => x * y :: zip_mul a' b'
  | _, _ => []
  end.

Definition broadcast_mul (a b : vector) : outcome vector :=
  if (length a =? length b)%nat then Ok (zip_mul a b)
  else if (length a =? 1)%nat then Ok (map (fun y => hd 0 a * y) b)
  else if (length b =? 1)%nat then Ok (map (fun x => x * hd 0 b) a)
  else Raise ValueError.

(** the builtin [sum(v)], and the loop [s = 0; for p in v: s += p] *)
Definition py_sum (v : vector) : R := fold_left Rplus v 0.

(** [v.sum()] along an axis *)
Definition row_sum (v : vector) : R := fold_right Rplus 0 v.

Definition is_zero (x : R) : bool := if Req_dec_T x 0 then true else false.

Definition count_nonzero (v : vector) : nat :=
  length (filter (fun x => negb (is_zero x)) v).

(** [m / s[:, np.newaxis]] *)
Fixpoint div_rows (m : matrix) (s : vector) : matrix :=
  match m, s with
  | row :: m', x :: s' => map (fun y => y / x) row :: div_rows m' s'
  | _, _ => []
  end.

(** ** [normalize]

    The argument is an array; a caller that passes an attribute still [None]
    fails in [input_matrix.sum] with AttributeError, which the callers below
    write out where they read the attribute. *)

Definition normalize (input_matrix : matrix) : outcome matrix :=
  let row_sums := map row_sum input_matrix in
  if (count_nonzero row_sums =? length row_sums)%nat
  then Ok (div_rows input_matrix row_sums)
  else Raise RowsSumToZero.

(** ** The class [Corpus] *)

Record Corpus : Type := mkCorpus {
  documents : list (list string);
  vocabulary : list string;
  likelihoods : list R;
  documents_path : string;
  term_doc_matrix : option matrix;
  document_topic_prob : option matrix;   (* P(z | d) *)
  topic_word_prob : option matrix;       (* P(w | z) *)
  topic_prob : option tensor;            (* P(z | d, w) *)
  number_of_documents : nat;
  vocabulary_size : nat
}.

(** [Corpus.__init__] *)
Definition init (documents_path : string) : Corpus :=
  mkCorpus [] [] [] documents_path None None None None 0 0.

Definition set_documents (self : Corpus) (x : list (list string)) : Corpus :=
  mkCorpus x (vocabulary self) (likelihoods self) (documents_path self)
    (term_doc_matrix self) (document_topic_prob self) (topic_word_prob self)
    (topic_prob self) (number_of_documents self) (vocabulary_size self).

Definition set_vocabulary (self : Corpus) (x : list string) : Corpus :=
  mkCorpus (documents self) x (likelihoods self) (documents_path self)
    (term_doc_matrix self) (document_topic_prob self) (topic_word_prob self)
    (topic_prob self) (number_of_documents self) (vocabulary_size self).

Definition set_likelihoods (self : Corpus) (x : list R) : Corpus :=
  mkCorpus (documents self) (vocabulary self) x (documents_path self)
    (term_doc_matrix self) (document_topic_prob self) (topic_word_prob self)
    (topic_prob self) (number_of_documents self) (vocabulary_size self).

Definition set_term_doc_matrix (self : Corpus) (x : matrix) : Corpus :=
  mkCorpus (documents self) (vocabulary self) (likelihoods self) (documents_path self)
    (Some x) (document_topic_prob self) (topic_word_prob self)
    (topic_prob self) (number_of_documents self) (vocabulary_size self).

Definition set_document_topic_prob (self : Corpus) (x : matrix) : Corpus :=
  mkCorpus (documents self) (vocabulary self) (likelihoods self) (documents_path self)
    (term_doc_matrix self) (Some x) (topic_word_prob self)
    (topic_prob self) (number_of_documents self) (vocabulary_size self).

Definition set_topic_word_prob (self : Corpus) (x : matrix) : Corpus :=
  mkCorpus (documents self) (vocabulary self) (likelihoods self) (documents_path self)
    (term_doc_matrix self) (document_topic_prob self) (Some x)
    (topic_prob self) (number_of_documents self) (vocabulary_size self).

Definition set_topic_prob (self : Corpus) (x : tensor) : Corpus :=
  mkCorpus (documents self) (vocabulary self) (likelihoods self) (documents_path self)
    (term_doc_matrix self) (document_topic_prob self) (topic_word_prob self)
    (Some x) (number_of_documents self) (vocabulary_size self).

Definition set_number_of_documents (self : Corpus) (x : nat) : Corpus :=
  mkCorpus (documents self) (vocabulary self) (likelihoods self) (documents_path self)
    (term_doc_matrix self) (document_topic_prob self) (topic_word_prob self)
    (topic_prob self) x (vocabulary_size self).

Definition set_vocabulary_size (self : Corpus) (x : nat) : Corpus :=
  mkCorpus (documents self) (vocabulary self) (likelihoods self) (documents_path self)
    (term_doc_matrix self) (document_topic_prob self) (topic_word_prob self)
    (topic_prob self) (number_of_documents self) x.

(** Subscripting an attribute that holds an array, or [None]. *)
Definition array {A : Type} (o : option A) : outcome A := of_option TypeError o.

(** ** Loading the corpus *)

(** The characters at which [str.split()] splits, among the 256 code points
    a character of the embedding can be: U+0009 to U+000D, U+001C to U+0020,
    U+0085 and U+00A0. *)
Definition is_space (c : ascii) : bool :=
  let n := nat_of_ascii c in
  ((9 <=? n) && (n <=? 13) || (28 <=? n) && (n <=? 32)
   || (n =? 133) || (n =? 160))%nat.

Definition flush (cur : string) (rest : list string) : list string :=
  match cur with
  | EmptyString => rest
  | _ => cur :: rest
  end.

(** [doc.split()]: maximal runs of non-whitespace characters. *)
Fixpoint split_from (cur : string) (doc : string) : list string :=
  match doc with
  | EmptyString => flush cur []
  | String c doc' =>
      if is_space c then flush cur (split_from EmptyString doc')
      else split_from (cur ++ String c EmptyString) doc'
  end.

Definition split (doc : string) : list string := split_from EmptyString doc.

(** [build_corpus]; [lines] is what [f.readlines()] returns for the file at
    [documents_path]. *)
Definition build_corpus (lines : list string) (self : Corpus) : Corpus :=
  let self := set_documents self (map split lines) in
  set_number_of_documents self (length (documents self)).

(** [build_vocabulary]: [list(set(...))] enumerates the distinct words in an
    order the language does not fix, so the method is a relation between the
    state before and the state after. *)
Definition build_vocabulary (self self' : Corpus) : Prop :=
  exists voc : list string,
    NoDup voc /\
    (forall w, In w voc <-> In w (concat (documents self))) /\
    self' = set_vocabulary_size (set_vocabulary self voc) (length voc).

(** ** [build_term_doc_matrix] *)

Definition build_term_doc_matrix (self : Corpus) : outcome Corpus :=
  let num := number_of_documents self in
  let size := vocabulary_size self in
  matrix0 <- full2 1 (Z.of_nat num) (Z.of_nat size) ;;
  matrix1 <- for_range num (fun i m =>
    for_range size (fun j m =>
      doc <- item (documents self) i ;;
      term <- item (vocabulary self) j ;;
      set2 m i j (INR (count_occ string_dec doc term))) m) matrix0 ;;
  Ok (set_term_doc_matrix self matrix1).

(** ** Initialisation of the probability tables *)

Definition initialize_randomly (rnd : nat -> R) (self : Corpus)
  (number_of_topics : Z) : outcome Corpus :=
  let D := Z.of_nat (number_of_documents self) in
  sample <- random_sample rnd D number_of_topics ;;
  let self := set_document_topic_prob self sample in
  t <- of_option AttributeError (document_topic_prob self) ;;
  t' <- normalize t ;;
  let self := set_document_topic_prob self t' in
  let rnd := advance rnd (Z.to_nat D * Z.to_nat number_of_topics) in
  sample <- random_sample rnd number_of_topics (Z.of_nat (length (vocabulary self))) ;;
  let self := set_topic_word_prob self sample in
  p <- of_option AttributeError (topic_word_prob self) ;;
  p' <- normalize p ;;
  Ok (set_topic_word_prob self p').

Definition initialize_uniformly (self : Corpus) (number_of_topics : Z)
  : outcome Corpus :=
  ones <- full2 1 (Z.of_nat (number_of_documents self)) number_of_topics ;;
  let self := set_document_topic_prob self ones in
  t <- of_option AttributeError (document_topic_prob self) ;;
  t' <- normalize t ;;
  let self := set_document_topic_prob self t' in
  ones <- full2 1 number_of_topics (Z.of_nat (length (vocabulary self))) ;;
  let self := set_topic_word_prob self ones in
  p <- of_option AttributeError (topic_word_prob self) ;;
  p' <- normalize p ;;
  Ok (set_topic_word_prob self p').

Definition initialize (rnd : nat -> R) (self : Corpus) (number_of_topics : Z)
  (random : bool) : outcome Corpus :=
  if random then initialize_randomly rnd self number_of_topics
  else initialize_uniformly self number_of_topics.

(** ** The E-step *)

(** The body of the two loops, for document [i] and term [j]. *)
Definition expectation_cell (i j : nat) (self : Corpus) : outcome Corpus :=
  theta <- array (document_topic_prob self) ;;
  a <- item theta i ;;
  phi <- array (topic_word_prob self) ;;
  b <- column phi j ;;
  prob <- broadcast_mul a b ;;
  if is_zero (py_sum prob) then SystemExit 0
  else
    let probSum := py_sum prob in
    let prob := map (fun p => p / probSum) prob in
    z <- array (topic_prob self) ;;
    z' <- set_fiber z i j prob ;;
    Ok (set_topic_prob self z').

Definition expectation_step (self : Corpus) : outcome Corpus :=
  let number := number_of_documents self in
  let size := vocabulary_size self in
  phi <- of_option AttributeError (topic_word_prob self) ;;
  ones <- full3 1 (Z.of_nat number) (Z.of_nat (length phi)) (Z.of_nat size) ;;
  let self := set_topic_prob self ones in
  for_range number (fun i self =>
    for_range size (fun j self => expectation_cell i j self) self) self.

(** ** The M-step *)

Definition maximization_step (self : Corpus) (number_of_topics : Z)
  : outcome Corpus :=
  self <- for_range (vocabulary_size self) (fun w self =>
            for_each (range number_of_topics) (fun t self =>
              counter <- for_range (number_of_documents self) (fun d counter =>
                           c <- array (term_doc_matrix self) ;;
                           term_doc_V <- get2 c d w ;;
                           z <- array (topic_prob self) ;;
                           topic_prob_V <- get3 z d t w ;;
                           Ok (counter + term_doc_V * topic_prob_V)) 0 ;;
              phi <- array (topic_word_prob self) ;;
              phi' <- set2 phi t w counter ;;
              Ok (set_topic_word_prob self phi')) self) self ;;
  phi <- of_option AttributeError (topic_word_prob self) ;;
  phi' <- normalize phi ;;
  let self := set_topic_word_prob self phi' in
  (* update P(z | d) *)
  self <- for_each (range number_of_topics) (fun t self =>
            for_range (number_of_documents self) (fun d self =>
              counter <- for_range (vocabulary_size self) (fun w counter =>
                           c <- array (term_doc_matrix self) ;;
                           term_doc_V <- get2 c d w ;;
                           z <- array (topic_prob self) ;;
                           topic_prob_V <- get3 z d t w ;;
                           Ok (counter + term_doc_V * topic_prob_V)) 0 ;;
              theta <- array (document_topic_prob self) ;;
              theta' <- set2 theta d t counter ;;
              Ok (set_document_topic_prob self theta')) self) self ;;
  theta <- of_option AttributeError (document_topic_prob self) ;;
  theta' <- normalize theta ;;
  Ok (set_document_topic_prob self theta').

(** ** The log-likelihood *)

(** [math.log(x, base)]: ValueError outside the domain. *)
Definition math_log (x base : R) : outcome R :=
  if Rlt_dec 0 x then Ok (ln x / ln base) else Raise ValueError.

Definition mixture (self : Corpus) (number_of_topics : Z) (i j : nat) : outcome R :=
  for_each (range number_of_topics) (fun k counter =>
    theta <- array (document_topic_prob self) ;;
    a <- get2 theta i k ;;
    phi <- array (topic_word_prob self) ;;
    b <- get2 phi k j ;;
    Ok (counter + a * b)) 0.

Definition calculate_likelihood (self : Corpus) (number_of_topics : Z)
  : outcome Corpus :=
  currLog <- for_range (number_of_documents self) (fun i currLog =>
               for_range (vocabulary_size self) (fun j currLog =>
                 counter <- mixture self number_of_topics i j ;;
                 c <- array (term_doc_matrix self) ;;
                 n <- get2 c i j ;;
                 l <- math_log counter 2 ;;
                 Ok (currLog + n * l)) currLog) 0 ;;
  Ok (set_likelihoods self (likelihoods self ++ [currLog])).

(** ** [plsa] *)

Definition converged (self : Corpus) (iteration : nat) (epsilon : R)
  : outcome bool :=
  if (1 <=? iteration)%nat then
    a <- item (likelihoods self) iteration ;;
    b <- item (likelihoods self) (iteration - 1) ;;
    Ok (if Rlt_dec (Rabs (a - b)) epsilon then true else false)
  else Ok false.

Definition iteration_body (number_of_topics : Z) (epsilon : R)
  (iteration : nat) (self : Corpus) : outcome (flow Corpus) :=
  self <- expectation_step self ;;
  self <- maximization_step self number_of_topics ;;
  self <- calculate_likelihood self number_of_topics ;;
  stop <- converged self iteration epsilon ;;
  Ok (if stop then Break self else Continue self).

(** The loop [for iteration in range(max_iter)] of [plsa]. *)
Definition em_loop (number_of_topics max_iter : Z) (epsilon : R) (self : Corpus)
  : outcome Corpus :=
  for_break (range max_iter) (iteration_body number_of_topics epsilon) self.

Definition plsa (rnd : nat -> R) (self : Corpus) (number_of_topics max_iter : Z)
  (epsilon : R) : outcome Corpus :=
  (* build term-doc matrix *)
  self <- build_term_doc_matrix self ;;
  (* P(z | d, w) *)
  zeros <- full3 0 (Z.of_nat (number_of_documents self)) number_of_topics
             (Z.of_nat (vocabulary_size self)) ;;
  let self := set_topic_prob self zeros in
  (* P(z | d) P(w | z) *)
  self <- initialize rnd self number_of_topics true ;;
  (* Run the EM algorithm *)
  em_loop number_of_topics max_iter epsilon self.

(** ** Vocabulary of the statements *)

(** Total readers, for positions known to be in range. *)
Definition entry (m : matrix) (i j : nat) : R := nth j (nth i m []) 0.

Definition entry3 (t : tensor) (d k w : nat) : R := entry (nth d t []) k w.

Definition shape2 (r c : nat) (m : matrix) : Prop :=
  length m = r /\ Forall (fun row => length row = c) m.

Definition shape3 (d k v : nat) (t : tensor) : Prop :=
  length t = d /\ Forall (shape2 k v) t.

Definition tabulate2 (r c : nat) (f : nat -> nat -> R) : matrix :=
  tabulate r (fun i => tabulate c (f i)).

Definition tabulate3 (d k v : nat) (f : nat -> nat -> nat -> R) : tensor :=
  tabulate d (fun a => tabulate2 k v (f a)).

(** [f 0 + f 1 + ... + f (n-1)], accumulated from 0 as the loops do. *)
Definition big_sum (n : nat) (f : nat -> R) : R :=
  fold_left Rplus (map f (seq 0 n)) 0.


(** The matrix the contract of row normalisation describes: every element
    divided by the sum of its row. *)
Definition normalized (m : matrix) : matrix :=
  map (fun row => map (fun x => x / row_sum row) row) m.

(** The unnormalised topic mass [s] of document [d] and term [w], and the
    posterior the E-step is to store. *)
Definition topic_mass (theta phi : matrix) (d w : nat) : R :=
  big_sum (length phi) (fun k => entry theta d k * entry phi k w).

Definition posterior (theta phi : matrix) (d k w : nat) : R :=
  entry theta d k * entry phi k w / topic_mass theta phi d w.

(** The instance holds the tables [theta] (D x K) and [phi] (K x V), where
    D and V are the instance's document and vocabulary counts and K is the
    number of rows of [phi]. *)
Definition tables (self : Corpus) (theta phi : matrix) : Prop :=
  document_topic_prob self = Some theta /\
  topic_word_prob self = Some phi /\
  shape2 (number_of_documents self) (length phi) theta /\
  shape2 (length phi) (vocabulary_size self) phi.

(** The instance holds the count matrix [c] (D x V), the tables [theta]
    (D x K) and [phi] (K x V) and the posterior [z] (D x K x V). *)
Definition fitted (self : Corpus) (K : nat) (c theta phi : matrix) (z : tensor)
  : Prop :=
  term_doc_matrix self = Some c /\
  document_topic_prob self = Some theta /\
  topic_word_prob self = Some phi /\
  topic_prob self = Some z /\
  shape2 (number_of_documents self) (vocabulary_size self) c /\
  shape2 (number_of_documents self) K theta /\
  shape2 K (vocabulary_size self) phi /\
  shape3 (number_of_documents self) K (vocabulary_size self) z.

(** The M-step in the words of its description.  Step A: the expected
    counts of every (topic, term) pair, summed over the documents, then
    row-normalised.  Step B: the expected counts of every (document, topic)
    pair, summed over the terms, then row-normalised.  The result is the
    pair (new phi, new theta). *)
Definition expected_topic_word (c : matrix) (z : tensor) (D : nat) (k w : nat) : R :=
  big_sum D (fun d => entry c d w * entry3 z d k w).

Definition expected_document_topic (c : matrix) (z : tensor) (V : nat) (d k : nat) : R :=
  big_sum V (fun w => entry c d w * entry3 z d k w).

(** Row normalisation in the words of its contract: a matrix one of whose
    rows sums to zero is refused, of any other matrix every element is divided
    by the sum of its row. *)
Definition row_normalization (m : matrix) : outcome matrix :=
  if existsb (fun row => is_zero (row_sum row)) m then Raise RowsSumToZero
  else Ok (normalized m).

Definition m_step (c : matrix) (z : tensor) (D K V : nat) : outcome (matrix * matrix) :=
  phi <- row_normalization (tabulate2 K V (expected_topic_word c z D)) ;;
  theta <- row_normalization (tabulate2 D K (expected_document_topic c z V)) ;;
  Ok (phi, theta).

(** The statement that ends the two inner loops of either half of the
    M-step: the value computed for row [r] and column [c] is stored in the
    table that [field] reads and [setfield] replaces. *)
Definition store_cell (field : Corpus -> option matrix)
  (setfield : Corpus -> matrix -> Corpus)
  (compute : Corpus -> nat -> nat -> outcome R) (c r : nat) (s : Corpus)
  : outcome Corpus :=
  counter <- compute s r c ;;
  m <- array (field s) ;;
  m' <- set2 m r c counter ;;
  Ok (setfield s m').

(** The corpus log-likelihood in the words of its description: the sum
    over all (document, term) pairs of the count times the base-2
    logarithm of the mixture probability. *)
Definition log2 (x : R) : R := ln x / ln 2.

Definition log_likelihood (c theta phi : matrix) (D V : nat) : R :=
  big_sum D (fun d =>
    big_sum V (fun w => entry c d w * log2 (topic_mass theta phi d w))).

(** The counts the term-document matrix is to hold. *)
Definition occurrences (self : Corpus) (d w : nat) : nat :=
  count_occ string_dec (nth d (documents self) []) (nth w (vocabulary self) EmptyString).

Definition counts (self : Corpus) : matrix :=
  tabulate2 (number_of_documents self) (vocabulary_size self)
    (fun d w => INR (occurrences self d w)).

(** The stored sizes agree with the stored lists, as they do once
    [build_corpus] and [build_vocabulary] have run. *)
Definition loaded (self : Corpus) : Prop :=
  number_of_documents self = length (documents self) /\
  vocabulary_size self = length (vocabulary self).

(** What the EM loop leaves alone: the corpus, its sizes and its counts. *)
Definition same_corpus (s s' : Corpus) : Prop :=
  documents s' = documents s /\
  vocabulary s' = vocabulary s /\
  documents_path s' = documents_path s /\
  term_doc_matrix s' = term_doc_matrix s /\
  number_of_documents s' = number_of_documents s /\
  vocabulary_size s' = vocabulary_size s.

(** The fields a step may not touch, as one relation per step. *)
Definition e_frame (s s' : Corpus) : Prop :=
  same_corpus s s' /\ likelihoods s' = likelihoods s /\
  document_topic_prob s' = document_topic_prob s /\
  topic_word_prob s' = topic_word_prob s.

Definition m_frame (s s' : Corpus) : Prop :=
  same_corpus s s' /\ likelihoods s' = likelihoods s /\
  topic_prob s' = topic_prob s.

Definition l_frame (s s' : Corpus) : Prop :=
  same_corpus s s' /\
  document_topic_prob s' = document_topic_prob s /\
  topic_word_prob s' = topic_word_prob s /\
  topic_prob s' = topic_prob s.

(** The draws of the two calls of [random_sample] in [initialize_randomly]. *)
Definition sample_theta (rnd : nat -> R) (D K : nat) : matrix :=
  tabulate2 D K (fun i j => rnd (i * K + j)%nat).

Definition sample_phi (rnd : nat -> R) (D K V : nat) : matrix :=
  tabulate2 K V (fun i j => rnd (D * K + (i * V + j))%nat).

(** The state [plsa] hands to its loop when the initial tables are [theta]
    and [phi]. *)
Definition started (self : Corpus) (K : nat) (theta phi : matrix) : Corpus :=
  set_topic_word_prob
    (set_document_topic_prob
       (set_topic_prob (set_term_doc_matrix self (counts self))
          (repeat (repeat (repeat 0 (vocabulary_size self)) K) (number_of_documents self)))
       theta)
    phi.

(** The state a loop body hands on, whether or not it breaks. *)
Definition state_of {S : Type} (f : flow S) : S :=
  match f with Continue s => s | Break s => s end.

(** ** Example corpora *)

Open Scope string_scope.

(** "the cat sat" / "the dog sat" with the vocabulary in the order
    the, cat, sat, dog. *)
Definition cats : Corpus :=
  mkCorpus [["the"; "cat"; "sat"]; ["the"; "dog"; "sat"]]
    ["the"; "cat"; "sat"; "dog"] [] "data/test.txt" None None None None 2 4.

(** One document, one term. *)
Definition single : Corpus :=
  mkCorpus [["a"]] ["a"] [] "data/test.txt" None None None None 1 1.

(** One document with two occurrences of "a" and one of "b". *)
Definition skewed : Corpus :=
  mkCorpus [["a"; "a"; "b"]] ["a"; "b"] [] "data/test.txt" None None None None 1 2.

(** One document with the terms "a" and "b". *)
Definition pair : Corpus :=
  mkCorpus [["a"; "b"]] ["a"; "b"] [] "data/test.txt" None None None None 1 2.

Close Scope string_scope.

(** A generator whose draws are all 1/2, and one whose third draw is 0. *)
Definition half : nat -> R := fun _ => 1 / 2.

Definition third_zero : nat -> R := fun n => if (n =? 2)%nat then 0 else 1 / 2.

(** A state in mid-fit: one document, two topics, two terms. *)
Definition midfit : Corpus :=
  mkCorpus [["a"; "a"; "b"]%string] ["a"; "b"]%string [] "data/test.txt"%string
    (Some [[2; 1]])
    (Some [[1 / 2; 1 / 2]])
    (Some [[1 / 2; 1 / 2]; [1 / 4; 3 / 4]])
    (Some [[[1; 1]; [1; 1]]])
    1 2.

(** ** Tables that do not tell the topics apart *)

Definition col_total (c : matrix) (D w : nat) : R := big_sum D (fun d => entry c d w).

Definition row_total (c : matrix) (V d : nat) : R := big_sum V (fun w => entry c d w).

Definition grand_total (c : matrix) (D V : nat) : R :=
  big_sum V (fun w => col_total c D w).

(** Every entry 1/k: what uniform initialisation gives a table with [k]
    columns. *)
Definition uniform (r k : nat) : matrix := tabulate2 r k (fun _ _ => 1 / INR k).

(** Every topic row is the relative frequency of the terms in the corpus. *)
Definition unigram (c : matrix) (D K V : nat) : matrix :=
  tabulate2 K V (fun _ w => col_total c D w / grand_total c D V).

Definition even_posterior (D K V : nat) : tensor :=
  tabulate3 D K V (fun _ _ _ => 1 / INR K).

(** The state reached after an iteration from such tables, with the
    likelihood trace [trace]. *)
Definition settled (self : Corpus) (c : matrix) (K : nat) (trace : list R) : Corpus :=
  let D := number_of_documents self in
  let V := vocabulary_size self in
  set_likelihoods
    (set_document_topic_prob
       (set_topic_word_prob (set_topic_prob self (even_posterior D K V))
          (unigram c D K V))
       (uniform D K))
    trace.

(** Counts of a corpus without empty documents in which every vocabulary
    term occurs. *)
Definition proper_counts (self : Corpus) (c : matrix) : Prop :=
  let D := number_of_documents self in
  let V := vocabulary_size self in
  term_doc_matrix self = Some c /\
  shape2 D V c /\
  (forall d w, (d < D)%nat -> (w < V)%nat -> 0 <= entry c d w) /\
  (forall d, (d < D)%nat -> 0 < row_total c V d) /\
  (forall w, (w < V)%nat -> 0 < col_total c D w).

(** theta is uniform and all rows of phi are the row [r], none of whose
    entries is 0. *)
Definition topic_uniform (self : Corpus) (K : nat) (r : nat -> R) : Prop :=
  document_topic_prob self = Some (uniform (number_of_documents self) K) /\
  topic_word_prob self = Some (tabulate2 K (vocabulary_size self) (fun _ w => r w)) /\
  forall w, (w < vocabulary_size self)%nat -> r w <> 0.

(** The log-likelihood of those tables. *)
Definition settled_likelihood (c : matrix) (D K V : nat) : R :=
  log_likelihood c (uniform D K) (unigram c D K V) D V.

(** The number of iterations the loop runs from such tables when no step
    fails: none on an empty budget, one on a budget of one, otherwise two if
    [epsilon] is positive and the whole budget if it is not. *)
Definition iterations_run (max_iter : Z) (epsilon : R) : nat :=
  match Z.to_nat max_iter with
  | O => 0
  | S n => S (if Rlt_dec 0 epsilon then Nat.min n 1 else n)
  end.

(** The corpus [skewed] with its counts and uniform tables in place. *)
Definition skewed_uniform : Corpus :=
  mkCorpus [["a"; "a"; "b"]%string] ["a"; "b"]%string [] "data/test.txt"%string
    (Some [[2; 1]]) (Some (uniform 1 1)) (Some (uniform 1 2)) None 1 2.

(** A state whose phi gives the term "b" no mass in its only topic. *)
Definition degenerate : Corpus :=
  mkCorpus [["a"; "b"]%string] ["a"; "b"]%string [] "data/test.txt"%string
    (Some [[1; 1]]) (Some [[1]]) (Some [[1; 0]]) None 1 2.

(** A corpus whose second document is empty (a blank line of the file). *)
Definition with_blank : Corpus :=
  mkCorpus [["a"]%string; []] ["a"]%string [] "data/test.txt"%string
    None None None None 2 1.

(** The innermost loop of either half of the M-step, over the first [n]
    indices; [cell i] names the document, topic and term read at index [i]. *)
Definition accumulate (self : Corpus) (n : nat)
  (cell : nat -> nat * nat * nat) : outcome R :=
  for_range n (fun i counter =>
    c <- array (term_doc_matrix self) ;;
    term_doc_V <- get2 c (fst (fst (cell i))) (snd (cell i)) ;;
    z <- array (topic_prob self) ;;
    topic_prob_V <- get3 z (fst (fst (cell i))) (snd (fst (cell i))) (snd (cell i)) ;;
    Ok (counter + term_doc_V * topic_prob_V)) 0.

(** ** Vocabulary of the statements that do not rest on exact arithmetic *)

(** A running total over all (document, term) pairs, the documents in order
    and the terms of each document in order, started at 0: the way
    [calculate_likelihood] adds up its terms. *)
Definition running_total (D V : nat) (f : nat -> nat -> R) : R :=
  fold_left (fun total d =>
    fold_left (fun total w => total + f d w) (seq 0 V) total) (seq 0 D) 0.

(** Every entry lies between 0 and 1. *)
Definition probabilities (m : matrix) : Prop :=
  Forall (Forall (fun x => 0 <= x <= 1)) m.


(** An instance whose stored sizes exceed its (empty) lists, so that the
    matrix cannot be built. *)
Definition unbuildable : Corpus :=
  mkCorpus [] [] [] "data/test.txt"%string None None None None 1 1.

(** ** Vocabulary of the further results *)

(** A file line written from tokens: the tokens separated by single
    spaces. *)
Fixpoint join (tokens : list string) : string :=
  match tokens with
  | [] => EmptyString
  | [t] => t
  | t :: rest => t ++ String " " (join rest)
  end.

Definition newline : string := String "010" EmptyString.

(** A token as [str.split()] returns them: not empty, no whitespace in it. *)
Definition clean (t : string) : Prop :=
  t <> EmptyString /\ forall c, In c (list_ascii_of_string t) -> is_space c = false.

Definition nonnegative (m : matrix) : Prop :=
  Forall (Forall (fun x => 0 <= x)) m.

(** [main], for the lines [lines] of data/test.txt: the final outcome, given
    the state [build_vocabulary] leaves and the draws of the generator. *)
Definition main (lines : list string) (rnd : nat -> R) (result : outcome Corpus)
  : Prop :=
  let documents_path := "data/test.txt"%string in
  let corpus := init documents_path in
  let corpus := build_corpus lines corpus in
  exists corpus', build_vocabulary corpus corpus' /\
    let number_of_topics := 2%Z in
    let max_iterations := 50%Z in
    let epsilon := 1 / 1000 in
    result = plsa rnd corpus' number_of_topics max_iterations epsilon.

(** A state whose vocabulary has a term, "b", that the only document does
    not use and to which phi gives no mass. *)
Definition unseen_term : Corpus :=
  mkCorpus [["a"]%string] ["a"; "b"]%string [] "data/test.txt"%string
    (Some [[1; 0]]) (Some [[1]]) (Some [[1; 0]]) None 1 2.

(** The state of a fit between two iterations: well-shaped, over the counts
    [c]; when [P] holds (the draws had no negative value) every entry of
    either table lies between 0 and 1. *)
Definition in_fit (P : Prop) (c : matrix) (K : nat) (s : Corpus) : Prop :=
  exists theta phi z,
    fitted s K c theta phi z /\
    (P -> probabilities theta /\ probabilities phi).

(** The state [skewed_uniform] with a trace left by an earlier fit. *)
Definition skewed_refit : Corpus := set_likelihoods skewed_uniform [7; 7].

(** ** The arithmetic of the program: IEEE 754 binary64

    [normalize] and the body of the E-step's loops once more, over the
    binary64 numbers of the kernel ([PrimFloat]: round to nearest, ties to
    even, as numpy and Python compute). *)

Module Binary64.
Import PrimFloat.
Local Open Scope float_scope.

(** [r[j] += v[j]] for the eight accumulators of a block *)
Definition add_each (r v : list float) : list float :=
  map (fun p => fst p + snd p) (combine r v).

Fixpoint accumulate8 (blocks : nat) (r v : list float) : list float * list float :=
  match blocks with
  | O => (r, v)
  | S blocks' => accumulate8 blocks' (add_each r (firstn 8 v)) (skipn 8 v)
  end.

(** A row of 8 to 128 elements: element i goes to accumulator i mod 8 as
    long as whole blocks of 8 remain, the accumulators are added up in pairs,
    and the fewer than 8 elements left over are added on. *)
Definition block_sum (v : list float) : float :=
  let '(r, rest) :=
    accumulate8 (length v / 8 - 1)%nat (firstn 8 v) (skipn 8 v) in
  let r := fun i : nat => nth i r 0 in
  fold_left add rest
    (((r 0%nat + r 1%nat) + (r 2%nat + r 3%nat))
     + ((r 4%nat + r 5%nat) + (r 6%nat + r 7%nat))).

(** [v.sum()] along a contiguous axis: numpy's pairwise summation.  Fewer
    than 8 elements are added from left to right; a row of more than 128
    elements is cut in two, the first part the largest multiple of 8 that is
    at most half its length.  The sign of a zero sum is not modelled: the
    callers only test a sum against 0 and divide by one that is not 0. *)
Fixpoint pairwise_sum (fuel : nat) (v : list float) : float :=
  let n := length v in
  if (n <? 8)%nat then fold_left add v 0
  else if (n <=? 128)%nat then block_sum v
  else
    match fuel with
    | O => block_sum v
    | S fuel' =>
        let n2 := (n / 2)%nat in
        let n2 := (n2 - n2 mod 8)%nat in
        pairwise_sum fuel' (firstn n2 v) + pairwise_sum fuel' (skipn n2 v)
    end.

Definition np_sum (v : list float) : float := pairwise_sum (length v) v.

(** the builtin [sum(v)], and the loop [s = 0; for p in v: s += p] *)
Definition py_sum (v : list float) : float := fold_left add v 0.

(** [x == 0]: true of both zeros, false of NaN *)
Definition is_zero (x : float) : bool := eqb x 0.

Definition count_nonzero (v : list float) : nat :=
  length (filter (fun x => negb (is_zero x)) v).

Fixpoint div_rows (m : list (list float)) (s : list float) : list (list float) :=
  match m, s with
  | row :: m', x :: s' => map (fun y => y / x) row :: div_rows m' s'
  | _, _ => []
  end.

Definition normalize (input_matrix : list (list float)) : outcome (list (list float)) :=
  let row_sums := map np_sum input_matrix in
  if (count_nonzero row_sums =? length row_sums)%nat
  then Ok (div_rows input_matrix row_sums)
  else Raise RowsSumToZero.

Fixpoint column (m : list (list float)) (j : nat) : outcome (list float) :=
  match m with
  | [] => Ok []
  | row :: m' =>
      x <- item row j ;;
      rest <- column m' j ;;
      Ok (x :: rest)
  end.

Fixpoint zip_mul (a b : list float) : list float :=
  match a, b with
  | x :: a', y :: b' => x * y :: zip_mul a' b'
  | _, _ => []
  end.

Definition broadcast_mul (a b : list float) : outcome (list float) :=
  if (length a =? length b)%nat then Ok (zip_mul a b)
  else if (length a =? 1)%nat then Ok (map (fun y => hd 0 a * y) b)
  else if (length b =? 1)%nat then Ok (map (fun x => x * hd 0 b) a)
  else Raise ValueError.

(** The body of the E-step's loops for document [i] and term [j], on the
    tables [theta] and [phi]: the vector it stores as [topic_prob[i, :, j]]. *)
Definition expectation_cell (theta phi : list (list float)) (i j : nat)
  : outcome (list float) :=
  a <- item theta i ;;
  b <- column phi j ;;
  prob <- broadcast_mul a b ;;
  if is_zero (py_sum prob) then SystemExit 0
  else
    let probSum := py_sum prob in
    Ok (map (fun p => p / probSum) prob).

(** [np.ones((r, c))] *)
Definition ones (r c : nat) : list (list float) := repeat (repeat 1 c) r.



End Binary64.
(** ** Basic facts: outcomes and loops *)

Lemma bind_ok {A B : Type} (m : outcome A) (k : A -> outcome B) (a : A) :
  m = Ok a -> bind m k = k a.
Proof. intros ->. reflexivity. Qed.

Lemma bind_inv_ok {A B : Type} (m : outcome A) (k : A -> outcome B) (b : B) :
  bind m k = Ok b -> exists a, m = Ok a /\ k a = Ok b.
Proof. destruct m; simpl; intros H; try discriminate. eauto. Qed.

Lemma for_each_app {S : Type} (l1 l2 : list nat) (body : nat -> S -> outcome S) (s : S) :
  for_each (l1 ++ l2) body s = (s' <- for_each l1 body s ;; for_each l2 body s').
Proof.
  revert s. induction l1 as [|i l1 IH]; intros s; simpl; [reflexivity|].
  destruct (body i s); simpl; auto.
Qed.

Lemma for_range_S {S : Type} (n : nat) (body : nat -> S -> outcome S) (s : S) :
  for_range (Datatypes.S n) body s = (s' <- for_range n body s ;; body n s').
Proof.
  unfold for_range. rewrite seq_S, for_each_app. simpl.
  destruct (for_each (seq 0 n) body s); simpl; auto.
  destruct (body n a); reflexivity.
Qed.

(** Invariant rule for a loop that cannot fail. *)
Lemma for_range_inv {S : Type} (Inv : nat -> S -> Prop) (n : nat)
  (body : nat -> S -> outcome S) (s : S) :
  Inv 0%nat s ->
  (forall i s, (i < n)%nat -> Inv i s -> exists s', body i s = Ok s' /\ Inv (Datatypes.S i) s') ->
  exists s', for_range n body s = Ok s' /\ Inv n s'.
Proof.
  intros H0 Hstep. induction n as [|n IH].
  - exists s. split; [reflexivity | assumption].
  - destruct IH as (s1 & E1 & I1). { intros i t Hi. apply Hstep. lia. }
    destruct (Hstep n s1 (Nat.lt_succ_diag_r n) I1) as (s2 & E2 & I2).
    exists s2. split; [|assumption].
    rewrite for_range_S, E1. simpl. exact E2.
Qed.

(** The same loop over [range z]. *)
Lemma for_each_range {S : Type} (z : Z) (body : nat -> S -> outcome S) (s : S) :
  for_each (range z) body s = for_range (Z.to_nat z) body s.
Proof. reflexivity. Qed.

(** ** Basic facts: lists as arrays *)

Lemma item_ok {A : Type} (l : list A) (i : nat) (d : A) :
  (i < length l)%nat -> item l i = Ok (nth i l d).
Proof.
  intros H. unfold item. rewrite (nth_error_nth' l d H). reflexivity.
Qed.

Lemma item_out {A : Type} (l : list A) (i : nat) :
  (length l <= i)%nat -> item l i = Raise IndexError.
Proof.
  intros H. unfold item. apply nth_error_None in H. rewrite H. reflexivity.
Qed.

Lemma update_ok {A : Type} (l : list A) (i : nat) (x : A) :
  (i < length l)%nat -> update l i x = Ok (firstn i l ++ x :: skipn (S i) l).
Proof.
  intros H. unfold update. apply Nat.ltb_lt in H. rewrite H. reflexivity.
Qed.

Lemma length_replace {A : Type} (l : list A) (i : nat) (x : A) :
  (i < length l)%nat -> length (firstn i l ++ x :: skipn (S i) l) = length l.
Proof.
  intros H. rewrite length_app, length_firstn.
  change (length (x :: skipn (S i) l)) with (S (length (skipn (S i) l))).
  rewrite length_skipn. lia.
Qed.

Lemma nth_replace {A : Type} (l : list A) (i j : nat) (x d : A) :
  (i < length l)%nat ->
  nth j (firstn i l ++ x :: skipn (S i) l) d = if (j =? i)%nat then x else nth j l d.
Proof.
  intros H. destruct (Nat.eqb_spec j i) as [->|Hne].
  - rewrite app_nth2; rewrite length_firstn; [|lia].
    replace (i - Nat.min i (length l))%nat with 0%nat by lia. reflexivity.
  - destruct (Nat.lt_ge_cases j i) as [Hlt|Hge].
    + rewrite app_nth1 by (rewrite length_firstn; lia).
      rewrite nth_firstn. apply Nat.ltb_lt in Hlt. rewrite Hlt. reflexivity.
    + rewrite app_nth2; rewrite length_firstn; [|lia].
      replace (Nat.min i (length l)) with i by lia.
      destruct (j - i)%nat as [|k] eqn:E; [lia|].
      change (nth (S k) (x :: skipn (S i) l) d) with (nth k (skipn (S i) l) d).
      rewrite nth_skipn. f_equal. lia.
Qed.

Lemma list_ext {A : Type} (d : A) (l1 l2 : list A) :
  length l1 = length l2 ->
  (forall i, (i < length l1)%nat -> nth i l1 d = nth i l2 d) ->
  l1 = l2.
Proof.
  revert l2. induction l1 as [|x l1 IH]; intros [|y l2] Hl Hn; simpl in *; try discriminate.
  - reflexivity.
  - f_equal.
    + apply (Hn 0%nat). lia.
    + apply IH; [lia|]. intros i Hi. apply (Hn (S i)). lia.
Qed.

Lemma length_tabulate {A : Type} (n : nat) (f : nat -> A) :
  length (tabulate n f) = n.
Proof. unfold tabulate. rewrite length_map, length_seq. reflexivity. Qed.

Lemma nth_tabulate {A : Type} (n : nat) (f : nat -> A) (i : nat) (d : A) :
  (i < n)%nat -> nth i (tabulate n f) d = f i.
Proof.
  intros H. unfold tabulate.
  rewrite (nth_indep _ d (f 0%nat)) by (rewrite length_map, length_seq; exact H).
  rewrite (map_nth f (seq 0 n) 0%nat i), seq_nth by exact H. reflexivity.
Qed.

Lemma tabulate_ext {A : Type} (n : nat) (f g : nat -> A) :
  (forall i, (i < n)%nat -> f i = g i) -> tabulate n f = tabulate n g.
Proof.
  intros H. unfold tabulate. apply map_ext_in. intros i Hi.
  apply in_seq in Hi. apply H. lia.
Qed.

Lemma tabulate_const {A : Type} (n : nat) (x : A) :
  tabulate n (fun _ => x) = repeat x n.
Proof.
  unfold tabulate. generalize 0%nat. induction n as [|n IH]; intros a; simpl; [reflexivity|].
  f_equal. apply IH.
Qed.

(** A loop whose body, at each index, either continues under the invariant
    or ends the computation with the fixed outcome [r]; [good i] tells
    which. *)
Lemma for_range_cases {S : Type} (Inv : nat -> S -> Prop) (good : nat -> Prop)
  (r : outcome S) (n : nat) (body : nat -> S -> outcome S) (s : S) :
  Inv 0%nat s ->
  (forall i s, (i < n)%nat -> Inv i s ->
     (good i /\ exists s', body i s = Ok s' /\ Inv (Datatypes.S i) s') \/
     (~ good i /\ body i s = r)) ->
  (forall s', r <> Ok s') ->
  ((forall i, (i < n)%nat -> good i) /\
   exists s', for_range n body s = Ok s' /\ Inv n s') \/
  ((exists i, (i < n)%nat /\ ~ good i) /\ for_range n body s = r).
Proof.
  intros H0 Hstep Hr. induction n as [|n IH].
  - left. split; [intros i Hi; lia|]. exists s. split; [reflexivity | exact H0].
  - destruct IH as [(Hg & s1 & E1 & I1) | ((i & Hi & Hb) & E)].
    { intros i t Hi. apply Hstep. lia. }
    + destruct (Hstep n s1 (Nat.lt_succ_diag_r n) I1) as [(Hgn & s2 & E2 & I2) | (Hbn & E2)].
      * left. split.
        -- intros i Hi. destruct (Nat.eq_dec i n) as [->|]; [exact Hgn | apply Hg; lia].
        -- exists s2. split; [|exact I2]. rewrite for_range_S, E1. exact E2.
      * right. split; [exists n; split; [lia | exact Hbn]|].
        rewrite for_range_S, E1. exact E2.
    + right. split; [exists i; split; [lia | exact Hb]|].
      rewrite for_range_S, E. destruct r; simpl; try reflexivity.
      exfalso. exact (Hr a eq_refl).
Qed.

(** A decidable property that fails somewhere below [n] fails at a
    definite index. *)
Lemma bounded_search (P : nat -> Prop) (dec : forall j, {P j} + {~ P j}) (n : nat) :
  ~ (forall j, (j < n)%nat -> P j) -> exists j, (j < n)%nat /\ ~ P j.
Proof.
  induction n as [|n IH]; intros Hb.
  - exfalso. apply Hb. intros j Hj. lia.
  - destruct (dec n) as [Hp|Hn].
    + destruct IH as (j & Hj & Hn).
      * intros H. apply Hb. intros j Hj.
        destruct (Nat.eq_dec j n) as [->|]; [exact Hp | apply H; lia].
      * exists j. split; [lia | exact Hn].
    + exists n. split; [lia | exact Hn].
Qed.

(** ** Sums *)

Arguments row_sum : simpl never.
Arguments py_sum : simpl never.
Arguments big_sum : simpl never.

Lemma fold_left_Rplus (v : vector) (a : R) :
  fold_left Rplus v a = a + row_sum v.
Proof.
  revert a. unfold row_sum. induction v as [|x v IH]; intros a; simpl.
  - lra.
  - rewrite IH. lra.
Qed.

Lemma row_sum_cons (x : R) (v : vector) : row_sum (x :: v) = x + row_sum v.
Proof. reflexivity. Qed.

Lemma row_sum_nonneg (v : vector) :
  Forall (fun x => 0 <= x) v -> 0 <= row_sum v.
Proof.
  induction 1 as [|x v Hx _ IH].
  - change (row_sum []) with 0. lra.
  - rewrite row_sum_cons. lra.
Qed.

Lemma row_sum_pos (v : vector) :
  Forall (fun x => 0 <= x) v -> Exists (fun x => 0 < x) v -> 0 < row_sum v.
Proof.
  intros Hall Hex. induction Hex as [x v Hx | x v _ IH].
  - inversion Hall; subst. rewrite row_sum_cons.
    pose proof (row_sum_nonneg v H2). lra.
  - inversion Hall; subst. rewrite row_sum_cons. specialize (IH H2). lra.
Qed.

Lemma row_sum_zero (v : vector) :
  Forall (fun x => x = 0) v -> row_sum v = 0.
Proof.
  induction 1 as [|x v Hx _ IH].
  - reflexivity.
  - rewrite row_sum_cons, Hx, IH. lra.
Qed.

Lemma big_sum_row_sum (n : nat) (f : nat -> R) :
  big_sum n f = row_sum (tabulate n f).
Proof. unfold big_sum. rewrite fold_left_Rplus. unfold tabulate. lra. Qed.

Lemma big_sum_ext (n : nat) (f g : nat -> R) :
  (forall i, (i < n)%nat -> f i = g i) -> big_sum n f = big_sum n g.
Proof.
  intros H. rewrite !big_sum_row_sum. f_equal. apply tabulate_ext, H.
Qed.

Lemma big_sum_S (n : nat) (f : nat -> R) :
  big_sum (S n) f = big_sum n f + f n.
Proof.
  unfold big_sum. rewrite seq_S, map_app, fold_left_app. reflexivity.
Qed.

(** ** [normalize] *)

Lemma is_zero_true (x : R) : is_zero x = true <-> x = 0.
Proof. unfold is_zero. destruct (Req_dec_T x 0); split; intros; congruence. Qed.

Lemma is_zero_false (x : R) : is_zero x = false <-> x <> 0.
Proof. unfold is_zero. destruct (Req_dec_T x 0); split; intros; congruence. Qed.

Lemma count_nonzero_le (v : vector) : (count_nonzero v <= length v)%nat.
Proof. unfold count_nonzero. apply filter_length_le. Qed.

Lemma count_nonzero_cons (x : R) (v : vector) :
  count_nonzero (x :: v) = ((if is_zero x then 0 else 1) + count_nonzero v)%nat.
Proof. unfold count_nonzero. simpl. destruct (is_zero x); reflexivity. Qed.

Lemma count_nonzero_full (v : vector) :
  Forall (fun x => x <> 0) v -> count_nonzero v = length v.
Proof.
  induction 1 as [|x v Hx _ IH]; [reflexivity|].
  rewrite count_nonzero_cons, IH. apply is_zero_false in Hx. rewrite Hx. reflexivity.
Qed.

Lemma count_nonzero_short (v : vector) :
  Exists (fun x => x = 0) v -> (count_nonzero v < length v)%nat.
Proof.
  induction 1 as [x v Hx | x v _ IH]; rewrite count_nonzero_cons; simpl.
  - apply is_zero_true in Hx. rewrite Hx. pose proof (count_nonzero_le v). lia.
  - destruct (is_zero x); lia.
Qed.

Lemma div_rows_normalized (m : matrix) :
  div_rows m (map row_sum m) = normalized m.
Proof.
  induction m as [|row m IH]; simpl; [reflexivity|]. rewrite IH. reflexivity.
Qed.

Lemma normalize_ok (m : matrix) :
  Forall (fun row => row_sum row <> 0) m -> normalize m = Ok (normalized m).
Proof.
  intros H. unfold normalize.
  rewrite count_nonzero_full, Nat.eqb_refl, div_rows_normalized; [reflexivity|].
  apply Forall_map. exact H.
Qed.

Lemma normalize_raise (m : matrix) :
  Exists (fun row => row_sum row = 0) m -> normalize m = Raise RowsSumToZero.
Proof.
  intros H. unfold normalize.
  assert (Hs : (count_nonzero (map row_sum m) < length (map row_sum m))%nat).
  { apply count_nonzero_short. apply Exists_map. exact H. }
  apply Nat.lt_neq, Nat.eqb_neq in Hs. rewrite Hs. reflexivity.
Qed.

(** [normalize] returns or raises, and which of the two is decided by the
    row sums alone. *)
Lemma normalize_cases (m : matrix) :
  (Forall (fun row => row_sum row <> 0) m /\ normalize m = Ok (normalized m)) \/
  (Exists (fun row => row_sum row = 0) m /\ normalize m = Raise RowsSumToZero).
Proof.
  destruct (Forall_Exists_dec (fun row => row_sum row <> 0)
              (fun row => match Req_dec_T (row_sum row) 0 with
                          | left e => right (fun n => n e)
                          | right n => left n
                          end) m) as [Hall | Hex].
  - left. split; [exact Hall | apply normalize_ok, Hall].
  - right. assert (Hex' : Exists (fun row => row_sum row = 0) m).
    { apply Exists_exists in Hex. destruct Hex as (row & Hin & Hn).
      apply Exists_exists. exists row. split; [exact Hin|].
      destruct (Req_dec_T (row_sum row) 0); [assumption | contradiction]. }
    split; [exact Hex' | apply normalize_raise, Hex'].
Qed.

Lemma row_normalization_normalize (m : matrix) : row_normalization m = normalize m.
Proof.
  unfold row_normalization.
  destruct (normalize_cases m) as [[H E] | [H E]]; rewrite E.
  - replace (existsb (fun row => is_zero (row_sum row)) m) with false; [reflexivity|].
    symmetry. apply not_true_is_false. intros Hx.
    apply existsb_exists in Hx. destruct Hx as (row & Hin & Hz).
    rewrite Forall_forall in H. apply (H row Hin). apply is_zero_true, Hz.
  - replace (existsb (fun row => is_zero (row_sum row)) m) with true; [reflexivity|].
    symmetry. apply existsb_exists. apply Exists_exists in H.
    destruct H as (row & Hin & Hz). exists row. split; [exact Hin|].
    apply is_zero_true, Hz.
Qed.

Lemma length_normalized (m : matrix) : length (normalized m) = length m.
Proof. unfold normalized. apply length_map. Qed.

Lemma nth_normalized (m : matrix) (i : nat) :
  nth i (normalized m) [] = map (fun x => x / row_sum (nth i m [])) (nth i m []).
Proof.
  revert i. induction m as [|row m IH]; intros [|i]; simpl; try reflexivity.
  apply IH.
Qed.

Lemma entry_normalized (m : matrix) (i j : nat) :
  entry (normalized m) i j = entry m i j / row_sum (nth i m []).
Proof.
  unfold entry. rewrite nth_normalized.
  set (s := row_sum (nth i m [])).
  assert (E : 0 = 0 / s) by (unfold Rdiv; lra).
  rewrite E at 1. exact (map_nth (fun x => x / s) (nth i m []) 0 j).
Qed.

Lemma shape2_normalized (r c : nat) (m : matrix) :
  shape2 r c m -> shape2 r c (normalized m).
Proof.
  intros [Hl Hr]. split.
  - rewrite length_normalized. exact Hl.
  - unfold normalized. apply Forall_map. revert Hr. apply Forall_impl.
    intros row H. rewrite length_map. exact H.
Qed.

Lemma normalize_inv (m m' : matrix) :
  normalize m = Ok m' ->
  Forall (fun row => row_sum row <> 0) m /\ m' = normalized m.
Proof.
  intros H. destruct (normalize_cases m) as [[Hall E] | [_ E]]; rewrite E in H.
  - injection H as <-. split; [exact Hall | reflexivity].
  - discriminate.
Qed.



(** ** Shapes and positions *)

Lemma shape2_row (r c : nat) (m : matrix) (i : nat) :
  shape2 r c m -> (i < r)%nat -> length (nth i m []) = c.
Proof.
  intros [Hl Hr] Hi. rewrite Forall_forall in Hr. apply Hr, nth_In. lia.
Qed.

Lemma shape3_slice (d k v : nat) (t : tensor) (i : nat) :
  shape3 d k v t -> (i < d)%nat -> shape2 k v (nth i t []).
Proof.
  intros [Hl Hr] Hi. rewrite Forall_forall in Hr. apply Hr, nth_In. lia.
Qed.

Lemma shape2_repeat (r c : nat) (x : R) : shape2 r c (repeat (repeat x c) r).
Proof.
  split; [apply repeat_length|].
  apply Forall_forall. intros row Hin. apply repeat_spec in Hin. subst.
  apply repeat_length.
Qed.

Lemma shape3_repeat (d k v : nat) (x : R) :
  shape3 d k v (repeat (repeat (repeat x v) k) d).
Proof.
  split; [apply repeat_length|].
  apply Forall_forall. intros m Hin. apply repeat_spec in Hin. subst.
  apply shape2_repeat.
Qed.

Lemma shape2_tabulate2 (r c : nat) (f : nat -> nat -> R) :
  shape2 r c (tabulate2 r c f).
Proof.
  split; [apply length_tabulate|].
  apply Forall_forall. intros row Hin. unfold tabulate2, tabulate in Hin.
  apply in_map_iff in Hin. destruct Hin as (i & <- & _). apply length_tabulate.
Qed.

Lemma shape3_tabulate3 (d k v : nat) (f : nat -> nat -> nat -> R) :
  shape3 d k v (tabulate3 d k v f).
Proof.
  split; [apply length_tabulate|].
  apply Forall_forall. intros m Hin. unfold tabulate3, tabulate in Hin.
  apply in_map_iff in Hin. destruct Hin as (i & <- & _). apply shape2_tabulate2.
Qed.

Lemma entry_tabulate2 (r c : nat) (f : nat -> nat -> R) (i j : nat) :
  (i < r)%nat -> (j < c)%nat -> entry (tabulate2 r c f) i j = f i j.
Proof.
  intros Hi Hj. unfold entry, tabulate2.
  rewrite nth_tabulate by exact Hi. apply nth_tabulate, Hj.
Qed.

Lemma entry3_tabulate3 (d k v : nat) (f : nat -> nat -> nat -> R) (a b c : nat) :
  (a < d)%nat -> (b < k)%nat -> (c < v)%nat -> entry3 (tabulate3 d k v f) a b c = f a b c.
Proof.
  intros Ha Hb Hc. unfold entry3, tabulate3.
  rewrite nth_tabulate by exact Ha. apply entry_tabulate2; assumption.
Qed.

Lemma entry_repeat (r c : nat) (x : R) (i j : nat) :
  (i < r)%nat -> (j < c)%nat -> entry (repeat (repeat x c) r) i j = x.
Proof.
  intros Hi Hj. unfold entry.
  rewrite <- !tabulate_const. rewrite nth_tabulate by exact Hi.
  apply nth_tabulate, Hj.
Qed.

(** Two arrays of one shape with the same entries are the same array. *)
Lemma matrix_ext (r c : nat) (m1 m2 : matrix) :
  shape2 r c m1 -> shape2 r c m2 ->
  (forall i j, (i < r)%nat -> (j < c)%nat -> entry m1 i j = entry m2 i j) ->
  m1 = m2.
Proof.
  intros S1 S2 H. apply (list_ext []).
  - destruct S1 as [E1 _], S2 as [E2 _]. exact (eq_trans E1 (eq_sym E2)).
  - intros i Hi. assert (Hr : (i < r)%nat) by (destruct S1; lia).
    apply (list_ext 0).
    + rewrite (shape2_row r c m1), (shape2_row r c m2); auto.
    + intros j Hj. rewrite (shape2_row r c m1) in Hj by auto. apply H; assumption.
Qed.

Lemma tensor_ext (d k v : nat) (t1 t2 : tensor) :
  shape3 d k v t1 -> shape3 d k v t2 ->
  (forall a b c, (a < d)%nat -> (b < k)%nat -> (c < v)%nat ->
     entry3 t1 a b c = entry3 t2 a b c) ->
  t1 = t2.
Proof.
  intros S1 S2 H. apply (list_ext []).
  - destruct S1 as [E1 _], S2 as [E2 _]. exact (eq_trans E1 (eq_sym E2)).
  - intros a Ha. assert (Hd : (a < d)%nat) by (destruct S1; lia).
    apply (matrix_ext k v).
    + apply (shape3_slice d); assumption.
    + apply (shape3_slice d); assumption.
    + intros b c Hb Hc. apply (H a b c); assumption.
Qed.

Lemma repeat_as_tabulate2 (r c : nat) (x : R) :
  repeat (repeat x c) r = tabulate2 r c (fun _ _ => x).
Proof.
  unfold tabulate2. rewrite <- tabulate_const. apply tabulate_ext.
  intros i _. symmetry. apply tabulate_const.
Qed.

(** ** Reading and writing in range *)

Lemma get2_ok (r c : nat) (m : matrix) (i j : nat) :
  shape2 r c m -> (i < r)%nat -> (j < c)%nat -> get2 m i j = Ok (entry m i j).
Proof.
  intros S Hi Hj. unfold get2.
  rewrite (item_ok m i []) by (destruct S; lia). simpl.
  apply item_ok. rewrite (shape2_row r c m) by assumption. exact Hj.
Qed.

Lemma get3_ok (d k v : nat) (t : tensor) (a b c : nat) :
  shape3 d k v t -> (a < d)%nat -> (b < k)%nat -> (c < v)%nat ->
  get3 t a b c = Ok (entry3 t a b c).
Proof.
  intros S Ha Hb Hc. unfold get3.
  rewrite (item_ok t a []) by (destruct S; lia). simpl.
  apply (get2_ok k v); try assumption. apply (shape3_slice d); assumption.
Qed.

Lemma Forall_replace {A : Type} (P : A -> Prop) (l : list A) (i : nat) (x : A) :
  Forall P l -> P x -> Forall P (firstn i l ++ x :: skipn (S i) l).
Proof.
  intros Hl Hx. apply Forall_app. split.
  - rewrite <- (firstn_skipn i l) in Hl. apply Forall_app in Hl. apply Hl.
  - constructor; [exact Hx|].
    rewrite <- (firstn_skipn (S i) l) in Hl. apply Forall_app in Hl. apply Hl.
Qed.

Lemma set2_ok (r c : nat) (m : matrix) (i j : nat) (x : R) :
  shape2 r c m -> (i < r)%nat -> (j < c)%nat ->
  exists m', set2 m i j x = Ok m' /\ shape2 r c m' /\
    forall a b, entry m' a b = if ((a =? i) && (b =? j))%nat then x else entry m a b.
Proof.
  intros S Hi Hj. pose proof (shape2_row r c m i S Hi) as Hrow.
  destruct S as [Hl Hr]. unfold set2.
  rewrite (item_ok m i []) by lia. cbn [bind].
  rewrite update_ok by lia. cbn [bind]. rewrite update_ok by lia.
  eexists. split; [reflexivity|]. split.
  - split.
    + rewrite length_replace; lia.
    + apply Forall_replace; [exact Hr|]. rewrite length_replace; lia.
  - intros a b. unfold entry. rewrite nth_replace by lia.
    destruct (Nat.eqb_spec a i) as [->|Ha]; cbn [andb]; [|reflexivity].
    rewrite nth_replace by lia. reflexivity.
Qed.

Lemma column_ok (r c : nat) (m : matrix) (j : nat) :
  shape2 r c m -> (j < c)%nat -> column m j = Ok (map (fun row => nth j row 0) m).
Proof.
  intros [_ Hr] Hj. induction Hr as [|row m Hrow _ IH]; simpl; [reflexivity|].
  rewrite (item_ok row j 0) by lia. simpl. rewrite IH. reflexivity.
Qed.

Lemma set_column_ok (r c : nat) (m : matrix) (j : nat) (v : vector) :
  shape2 r c m -> (j < c)%nat -> length v = r ->
  exists m', set_column m j v = Ok m' /\ shape2 r c m' /\
    forall a b, (a < r)%nat ->
      entry m' a b = if (b =? j)%nat then nth a v 0 else entry m a b.
Proof.
  intros [Hl Hr] Hj. revert r v Hl.
  induction Hr as [|row m Hrow _ IH]; intros r [|x v] Hl Hv; simpl in *; subst r; try discriminate.
  - exists []. split; [reflexivity|]. split; [split; [reflexivity | constructor]|].
    intros a b Ha. lia.
  - destruct (IH (length m) v eq_refl) as (m' & E & [Sl Sr] & Hent); [lia|].
    rewrite update_ok by lia. cbn [bind]. rewrite E. cbn [bind].
    eexists. split; [reflexivity|]. split.
    + split; [cbn [length]; lia|]. constructor; [rewrite length_replace; lia | exact Sr].
    + intros [|a] b Ha.
      * unfold entry. cbn [nth]. apply nth_replace. lia.
      * apply (Hent a b). lia.
Qed.

(** ** The E-step *)

Lemma tabulate_S {A : Type} (n : nat) (f : nat -> A) :
  tabulate (S n) f = f 0%nat :: tabulate n (fun i => f (S i)).
Proof.
  unfold tabulate. simpl. f_equal. rewrite <- seq_shift, map_map. reflexivity.
Qed.

Lemma zip_mul_tabulate (n : nat) (a b : vector) :
  length a = n -> length b = n ->
  zip_mul a b = tabulate n (fun k => nth k a 0 * nth k b 0).
Proof.
  revert a b. induction n as [|n IH]; intros [|x a] [|y b] Ha Hb; simpl in *; try discriminate.
  - reflexivity.
  - rewrite tabulate_S. simpl. f_equal. apply IH; lia.
Qed.

Lemma nth_column (m : matrix) (j k : nat) :
  nth k (map (fun row => nth j row 0) m) 0 = entry m k j.
Proof.
  unfold entry. revert k. induction m as [|row m IH]; intros [|k]; simpl; auto.
  - destruct j; reflexivity.
  - destruct j; reflexivity.
Qed.

Lemma full3_ok (x : R) (d k v : nat) :
  full3 x (Z.of_nat d) (Z.of_nat k) (Z.of_nat v) = Ok (repeat (repeat (repeat x v) k) d).
Proof.
  unfold full3.
  assert (H : forall n, (Z.of_nat n <? 0)%Z = false) by (intros n; apply Z.ltb_ge; lia).
  rewrite !H, !Nat2Z.id. reflexivity.
Qed.

Lemma full2_ok (x : R) (r c : nat) :
  full2 x (Z.of_nat r) (Z.of_nat c) = Ok (repeat (repeat x c) r).
Proof.
  unfold full2.
  assert (H : forall n, (Z.of_nat n <? 0)%Z = false) by (intros n; apply Z.ltb_ge; lia).
  rewrite !H, !Nat2Z.id. reflexivity.
Qed.

Lemma set_fiber_ok (d k v : nat) (t : tensor) (i j : nat) (vec : vector) :
  shape3 d k v t -> (i < d)%nat -> (j < v)%nat -> length vec = k ->
  exists t', set_fiber t i j vec = Ok t' /\ shape3 d k v t' /\
    forall a b c, (b < k)%nat ->
      entry3 t' a b c =
      if ((a =? i) && (c =? j))%nat then nth b vec 0 else entry3 t a b c.
Proof.
  intros S Hi Hj Hv. pose proof (shape3_slice d k v t i S Hi) as Sm.
  destruct S as [Hl Hr]. unfold set_fiber.
  rewrite (item_ok t i []) by lia. cbn [bind].
  replace (length vec =? length (nth i t []))%nat with true
    by (symmetry; apply Nat.eqb_eq; destruct Sm; lia).
  destruct (set_column_ok k v (nth i t []) j vec Sm Hj Hv) as (m' & E & Sm' & Hent).
  rewrite E. cbn [bind]. rewrite update_ok by lia.
  eexists. split; [reflexivity|]. split.
  - split; [rewrite length_replace; lia|]. apply Forall_replace; assumption.
  - intros a b c Hb. unfold entry3. rewrite nth_replace by lia.
    destruct (Nat.eqb_spec a i) as [->|Ha]; cbn [andb]; [|reflexivity].
    apply Hent, Hb.
Qed.

Lemma topic_mass_dec (theta phi : matrix) (d w : nat) :
  {topic_mass theta phi d w = 0} + {topic_mass theta phi d w <> 0}.
Proof. apply Req_dec_T. Qed.

(** One cell of the E-step on a well-shaped state. *)
Lemma expectation_cell_spec (self : Corpus) (theta phi : matrix) (z : tensor)
  (i j : nat) :
  tables self theta phi ->
  topic_prob self = Some z ->
  shape3 (number_of_documents self) (length phi) (vocabulary_size self) z ->
  (i < number_of_documents self)%nat -> (j < vocabulary_size self)%nat ->
  (topic_mass theta phi i j <> 0 /\
   exists z', expectation_cell i j self = Ok (set_topic_prob self z') /\
     shape3 (number_of_documents self) (length phi) (vocabulary_size self) z' /\
     forall a b c, (b < length phi)%nat ->
       entry3 z' a b c =
       if ((a =? i) && (c =? j))%nat then posterior theta phi i b j else entry3 z a b c) \/
  (topic_mass theta phi i j = 0 /\ expectation_cell i j self = SystemExit 0).
Proof.
  intros (Et & Ep & St & Sp) Ez Sz Hi Hj. unfold expectation_cell.
  rewrite Et, Ep, Ez. cbn [array of_option bind].
  rewrite (item_ok theta i []) by (destruct St; lia). cbn [bind].
  rewrite (column_ok _ _ phi j Sp Hj). cbn [bind].
  unfold broadcast_mul.
  assert (La : length (nth i theta []) = length phi) by (apply (shape2_row _ _ _ _ St Hi)).
  rewrite length_map, La, Nat.eqb_refl. cbn [bind].
  rewrite (zip_mul_tabulate (length phi)) by (rewrite ?length_map; auto).
  assert (Eprob : tabulate (length phi)
            (fun k => nth k (nth i theta []) 0 * nth k (map (fun row => nth j row 0) phi) 0)
          = tabulate (length phi) (fun k => entry theta i k * entry phi k j)).
  { apply tabulate_ext. intros k _. rewrite nth_column. reflexivity. }
  rewrite Eprob.
  change (py_sum (tabulate (length phi) (fun k => entry theta i k * entry phi k j)))
    with (topic_mass theta phi i j).
  destruct (topic_mass_dec theta phi i j) as [E0 | Hne].
  - right. split; [exact E0|]. apply is_zero_true in E0. rewrite E0. reflexivity.
  - left. split; [exact Hne|]. apply is_zero_false in Hne. rewrite Hne.
    destruct (set_fiber_ok _ _ _ z i j
                (map (fun p => p / topic_mass theta phi i j)
                   (tabulate (length phi) (fun k => entry theta i k * entry phi k j)))
                Sz Hi Hj) as (z' & E & Sz' & Hent).
    { rewrite length_map. apply length_tabulate. }
    rewrite E. cbn [bind]. exists z'. split; [reflexivity|]. split; [exact Sz'|].
    intros a b c Hb. rewrite (Hent a b c Hb).
    destruct ((a =? i) && (c =? j))%nat; [|reflexivity].
    set (s := topic_mass theta phi i j).
    assert (E0 : 0 = 0 / s) by (unfold Rdiv; lra).
    rewrite E0 at 1.
    rewrite (map_nth (fun p => p / s)), nth_tabulate by exact Hb. reflexivity.
Qed.

Lemma tables_set_topic_prob (self : Corpus) (theta phi : matrix) (z : tensor) :
  tables self theta phi -> tables (set_topic_prob self z) theta phi.
Proof. intros H. exact H. Qed.

(** The loop over the terms of document [i]. *)
Lemma expectation_row_spec (self : Corpus) (theta phi : matrix) (z : tensor) (i : nat) :
  let D := number_of_documents self in
  let K := length phi in
  let V := vocabulary_size self in
  tables self theta phi ->
  shape3 D K V z ->
  (i < D)%nat ->
  ((forall j, (j < V)%nat -> topic_mass theta phi i j <> 0) /\
   exists z', for_range V (fun j s => expectation_cell i j s) (set_topic_prob self z)
              = Ok (set_topic_prob self z') /\
     shape3 D K V z' /\
     forall a b c, (b < K)%nat -> (c < V)%nat ->
       entry3 z' a b c = if (a =? i)%nat then posterior theta phi i b c else entry3 z a b c) \/
  ((exists j, (j < V)%nat /\ topic_mass theta phi i j = 0) /\
   for_range V (fun j s => expectation_cell i j s) (set_topic_prob self z) = SystemExit 0).
Proof.
  intros D K V T Sz Hi.
  destruct (for_range_cases
    (fun j s => exists z', s = set_topic_prob self z' /\ shape3 D K V z' /\
       forall a b c, (b < K)%nat -> (c < V)%nat ->
         entry3 z' a b c =
         if ((a =? i) && (c <? j))%nat then posterior theta phi i b c else entry3 z a b c)
    (fun j => topic_mass theta phi i j <> 0)
    (SystemExit 0) V (fun j s => expectation_cell i j s) (set_topic_prob self z))
    as [(Hg & s' & E & z' & -> & Sz' & Hent) | ((j & Hj & Hb) & E)].
  - exists z. split; [reflexivity|]. split; [exact Sz|].
    intros a b c _ _. rewrite andb_false_r. reflexivity.
  - intros j s Hj (z1 & -> & Sz1 & Hent).
    destruct (expectation_cell_spec (set_topic_prob self z1) theta phi z1 i j
                (tables_set_topic_prob _ _ _ z1 T) eq_refl Sz1 Hi Hj)
      as [(Hne & z2 & E & Sz2 & Hent2) | (E0 & E)].
    + left. split; [exact Hne|]. eexists. split; [exact E|].
      exists z2. split; [reflexivity|]. split; [exact Sz2|].
      intros a b c Hb Hc. rewrite (Hent2 a b c Hb), (Hent a b c Hb Hc).
      destruct (Nat.eqb_spec a i) as [->|Ha]; cbn [andb]; [|reflexivity].
      destruct (Nat.eqb_spec c j) as [->|Hcj].
      * replace (j <? S j)%nat with true by (symmetry; apply Nat.ltb_lt; lia). reflexivity.
      * destruct (Nat.ltb_spec c j) as [Hlt|Hge].
        -- replace (c <? S j)%nat with true by (symmetry; apply Nat.ltb_lt; lia). reflexivity.
        -- replace (c <? S j)%nat with false by (symmetry; apply Nat.ltb_ge; lia). reflexivity.
    + right. split; [intros H; exact (H E0) | exact E].
  - intros s' H. discriminate.
  - left. split; [exact Hg|]. exists z'. split; [exact E|]. split; [exact Sz'|].
    intros a b c Hb Hc. rewrite (Hent a b c Hb Hc).
    replace (c <? V)%nat with true by (symmetry; apply Nat.ltb_lt; exact Hc).
    rewrite andb_true_r. reflexivity.
  - right. split; [|exact E]. exists j. split; [exact Hj|].
    destruct (topic_mass_dec theta phi i j); [assumption | contradiction].
Qed.

(** The E-step on a state that holds well-shaped tables: it either stores
    the posterior of every cell, or leaves through [exit(0)]; the second
    happens exactly when some cell has no topic mass. *)
Lemma expectation_step_spec (self : Corpus) (theta phi : matrix) :
  let D := number_of_documents self in
  let K := length phi in
  let V := vocabulary_size self in
  tables self theta phi ->
  ((forall d w, (d < D)%nat -> (w < V)%nat -> topic_mass theta phi d w <> 0) /\
   expectation_step self = Ok (set_topic_prob self (tabulate3 D K V (posterior theta phi)))) \/
  ((exists d w, (d < D)%nat /\ (w < V)%nat /\ topic_mass theta phi d w = 0) /\
   expectation_step self = SystemExit 0).
Proof.
  intros D K V T. unfold expectation_step.
  pose proof T as (Et & Ep & St & Sp). rewrite Ep. cbn [of_option bind].
  rewrite full3_ok. cbn [bind].
  fold D. fold K. fold V.
  set (ones := repeat (repeat (repeat 1 V) K) D).
  change (number_of_documents (set_topic_prob self ones)) with D.
  change (vocabulary_size (set_topic_prob self ones)) with V.
  destruct (for_range_cases
    (fun i s => exists z', s = set_topic_prob self z' /\ shape3 D K V z' /\
       forall a b c, (a < i)%nat -> (b < K)%nat -> (c < V)%nat ->
         entry3 z' a b c = posterior theta phi a b c)
    (fun i => forall j, (j < V)%nat -> topic_mass theta phi i j <> 0)
    (SystemExit 0) D
    (fun i s => for_range V (fun j s => expectation_cell i j s) s)
    (set_topic_prob self ones))
    as [(Hg & s' & E & z' & -> & Sz' & Hent) | ((i & Hi & Hb) & E)].
  - exists ones. split; [reflexivity|]. split; [apply shape3_repeat|].
    intros a b c Ha. lia.
  - intros i s Hi (z1 & -> & Sz1 & Hent).
    destruct (expectation_row_spec self theta phi z1 i T Sz1 Hi)
      as [(Hne & z2 & E & Sz2 & Hent2) | ((j & Hj & E0) & E)].
    + left. split; [exact Hne|]. eexists. split; [exact E|].
      exists z2. split; [reflexivity|]. split; [exact Sz2|].
      intros a b c Ha Hb Hc. rewrite (Hent2 a b c Hb Hc).
      destruct (Nat.eqb_spec a i) as [->|Hai]; [reflexivity|].
      apply Hent; try assumption. lia.
    + right. split; [|exact E]. intros H. exact (H j Hj E0).
  - intros s' H. discriminate.
  - left. split; [intros d w Hd Hw; apply Hg; assumption|].
    rewrite E. do 2 f_equal.
    apply (tensor_ext D K V); [exact Sz' | apply shape3_tabulate3|].
    intros a b c Ha Hb Hc. rewrite entry3_tabulate3 by assumption.
    apply Hent; assumption.
  - right. split; [|exact E].
    destruct (bounded_search (fun j => topic_mass theta phi i j <> 0)
                (fun j => match topic_mass_dec theta phi i j with
                          | left e => right (fun n => n e)
                          | right n => left n
                          end) V Hb) as (j & Hj & Hn).
    exists i, j. repeat split; try assumption.
    destruct (topic_mass_dec theta phi i j); [assumption | contradiction].
Qed.

(** ** The M-step *)

Lemma accumulate_ok (self : Corpus) (c : matrix) (z : tensor) (K n : nat)
  (cell : nat -> nat * nat * nat) (f : nat -> R) :
  term_doc_matrix self = Some c ->
  topic_prob self = Some z ->
  shape2 (number_of_documents self) (vocabulary_size self) c ->
  shape3 (number_of_documents self) K (vocabulary_size self) z ->
  (forall i, (i < n)%nat ->
     let '(d, t, w) := cell i in
     (d < number_of_documents self)%nat /\ (t < K)%nat /\
     (w < vocabulary_size self)%nat /\ f i = entry c d w * entry3 z d t w) ->
  accumulate self n cell = Ok (big_sum n f).
Proof.
  intros Ec Ez Sc Sz Hcell. unfold accumulate.
  destruct (for_range_inv (fun i counter => counter = big_sum i f) n
    (fun i counter =>
       c0 <- array (term_doc_matrix self) ;;
       term_doc_V <- get2 c0 (fst (fst (cell i))) (snd (cell i)) ;;
       z0 <- array (topic_prob self) ;;
       topic_prob_V <- get3 z0 (fst (fst (cell i))) (snd (fst (cell i))) (snd (cell i)) ;;
       Ok (counter + term_doc_V * topic_prob_V)) 0) as (s' & E & ->).
  - reflexivity.
  - intros i s Hi ->. specialize (Hcell i Hi).
    destruct (cell i) as [[d t] w]. destruct Hcell as (Hd & Ht & Hw & Hf).
    cbn [fst snd]. rewrite Ec, Ez. cbn [array of_option bind].
    rewrite (get2_ok _ _ c d w Sc Hd Hw). cbn [bind].
    rewrite (get3_ok _ _ _ z d t w Sz Hd Ht Hw). cbn [bind].
    eexists. split; [reflexivity|]. rewrite big_sum_S, Hf. reflexivity.
  - exact E.
Qed.

(** Filling a table column by column, as both halves of the M-step do. *)
Section Fill.

Variable field : Corpus -> option (list (list R)).
Variable setfield : Corpus -> list (list R) -> Corpus.
Variable self : Corpus.
Variables rows cols : nat.
Variable val : nat -> nat -> R.
Variable nrows : Corpus -> nat.
Variable compute : Corpus -> nat -> nat -> outcome R.

Hypothesis field_set : forall m, field (setfield self m) = Some m.
Hypothesis set_set : forall m m', setfield (setfield self m) m' = setfield self m'.
Hypothesis nrows_set : forall m, nrows (setfield self m) = rows.
Hypothesis compute_set : forall m r c, (r < rows)%nat -> (c < cols)%nat ->
  compute (setfield self m) r c = Ok (val r c).

Local Abbreviation fill_cell := (store_cell field setfield compute).

Lemma fill_column (m0 : list (list R)) (c : nat) :
  shape2 rows cols m0 -> (c < cols)%nat ->
  exists m1, for_range rows (fill_cell c) (setfield self m0) = Ok (setfield self m1) /\
    shape2 rows cols m1 /\
    forall a b, entry m1 a b =
      if ((a <? rows) && (b =? c))%nat then val a c else entry m0 a b.
Proof.
  intros S0 Hc.
  destruct (for_range_inv
    (fun r s => exists m1, s = setfield self m1 /\ shape2 rows cols m1 /\
       forall a b, entry m1 a b =
         if ((a <? r) && (b =? c))%nat then val a c else entry m0 a b)
    rows (fill_cell c) (setfield self m0)) as (s' & E & m1 & -> & S1 & H1).
  - exists m0. split; [reflexivity|]. split; [exact S0|]. intros a b. reflexivity.
  - intros r s Hr (m1 & -> & S1 & H1). unfold fill_cell.
    rewrite (compute_set m1 r c Hr Hc). cbn [bind].
    rewrite field_set. cbn [array of_option bind].
    destruct (set2_ok rows cols m1 r c (val r c) S1 Hr Hc) as (m2 & E2 & S2 & H2).
    rewrite E2. cbn [bind]. rewrite set_set.
    eexists. split; [reflexivity|]. exists m2. split; [reflexivity|]. split; [exact S2|].
    intros a b. rewrite H2, H1.
    destruct (Nat.eqb_spec b c) as [->|Hb]; rewrite ?andb_false_r; [|reflexivity].
    rewrite !andb_true_r.
    destruct (Nat.eqb_spec a r) as [->|Ha].
    + replace (r <? S r)%nat with true by (symmetry; apply Nat.ltb_lt; lia). reflexivity.
    + destruct (Nat.ltb_spec a r).
      * replace (a <? S r)%nat with true by (symmetry; apply Nat.ltb_lt; lia). reflexivity.
      * replace (a <? S r)%nat with false by (symmetry; apply Nat.ltb_ge; lia). reflexivity.
  - exists m1. auto.
Qed.

Lemma fill_ok (m0 : list (list R)) :
  shape2 rows cols m0 ->
  for_range cols (fun c s => for_range (nrows s) (fill_cell c) s) (setfield self m0)
  = Ok (setfield self (tabulate2 rows cols val)).
Proof.
  intros S0.
  destruct (for_range_inv
    (fun c s => exists m1, s = setfield self m1 /\ shape2 rows cols m1 /\
       forall a b, (a < rows)%nat -> (b < c)%nat -> entry m1 a b = val a b)
    cols (fun c s => for_range (nrows s) (fill_cell c) s) (setfield self m0))
    as (s' & E & m1 & -> & S1 & H1).
  - exists m0. split; [reflexivity|]. split; [exact S0|]. intros a b _ Hb. lia.
  - intros c s Hc (m1 & -> & S1 & H1). rewrite nrows_set.
    destruct (fill_column m1 c S1 Hc) as (m2 & E2 & S2 & H2).
    eexists. split; [exact E2|]. exists m2. split; [reflexivity|]. split; [exact S2|].
    intros a b Ha Hb. rewrite H2.
    replace (a <? rows)%nat with true by (symmetry; apply Nat.ltb_lt; exact Ha).
    cbn [andb]. destruct (Nat.eqb_spec b c) as [->|Hbc]; [reflexivity|].
    apply H1; [exact Ha | lia].
  - rewrite E. do 2 f_equal. apply (matrix_ext rows cols); [exact S1 | apply shape2_tabulate2|].
    intros i j Hi Hj. rewrite entry_tabulate2 by assumption. apply H1; assumption.
Qed.

End Fill.

Lemma set_topic_word_prob_same (self : Corpus) (phi : matrix) :
  topic_word_prob self = Some phi -> set_topic_word_prob self phi = self.
Proof. destruct self; simpl; intros ->; reflexivity. Qed.

Lemma set_document_topic_prob_same (self : Corpus) (theta : matrix) :
  document_topic_prob self = Some theta -> set_document_topic_prob self theta = self.
Proof. destruct self; simpl; intros ->; reflexivity. Qed.

Lemma topic_word_prob_set (self : Corpus) (m : matrix) :
  topic_word_prob (set_topic_word_prob self m) = Some m.
Proof. reflexivity. Qed.

Lemma document_topic_prob_set (self : Corpus) (m : matrix) :
  document_topic_prob (set_document_topic_prob self m) = Some m.
Proof. reflexivity. Qed.

(** The M-step computes what its description says, in that order. *)
Lemma maximization_step_spec (self : Corpus) (K : nat) (c theta phi : matrix)
  (z : tensor) :
  fitted self K c theta phi z ->
  maximization_step self (Z.of_nat K) =
  (r <- m_step c z (number_of_documents self) K (vocabulary_size self) ;;
   Ok (set_document_topic_prob (set_topic_word_prob self (fst r)) (snd r))).
Proof.
  intros (Ec & Et & Ep & Ez & Sc & St & Sp & Sz).
  set (D := number_of_documents self) in *. set (V := vocabulary_size self) in *.
  unfold maximization_step, m_step. rewrite !row_normalization_normalize. fold D. fold V.
  unfold range. rewrite Nat2Z.id.
  (* Step A *)
  rewrite <- (set_topic_word_prob_same self phi Ep) at 1.
  assert (HA := fill_ok topic_word_prob set_topic_word_prob self K V
    (expected_topic_word c z D) (fun _ => K)
    (fun s t w => accumulate s (number_of_documents s) (fun d => (d, t, w)))
    (fun m => eq_refl) (fun m m' => eq_refl) (fun m => eq_refl)).
  specialize (HA (fun m t w Ht Hw =>
    accumulate_ok (set_topic_word_prob self m) c z K D (fun d => (d, t, w))
      (fun d => entry c d w * entry3 z d t w) Ec Ez Sc Sz
      (fun d Hd => conj Hd (conj Ht (conj Hw eq_refl)))) phi Sp).
  unfold store_cell, accumulate in HA. cbn [fst snd] in HA.
  unfold for_range in HA |- *. rewrite HA. clear HA.
  cbn [bind]. rewrite topic_word_prob_set. cbn [array of_option bind].
  destruct (normalize (tabulate2 K V (expected_topic_word c z D))) as [phi'| |];
    cbn [bind]; try reflexivity.
  (* Step B *)
  set (self1 := set_topic_word_prob self phi').
  assert (Et1 : document_topic_prob self1 = Some theta) by exact Et.
  change (set_topic_word_prob
            (set_topic_word_prob self (tabulate2 K V (expected_topic_word c z D))) phi')
    with self1.
  rewrite <- (set_document_topic_prob_same self1 theta Et1) at 1.
  assert (HB := fill_ok document_topic_prob set_document_topic_prob self1 D K
    (expected_document_topic c z V) number_of_documents
    (fun s d t => accumulate s (vocabulary_size s) (fun w => (d, t, w)))
    (fun m => eq_refl) (fun m m' => eq_refl) (fun m => eq_refl)).
  specialize (HB (fun m d t Hd Ht =>
    accumulate_ok (set_document_topic_prob self1 m) c z K V (fun w => (d, t, w))
      (fun w => entry c d w * entry3 z d t w) Ec Ez Sc Sz
      (fun w Hw => conj Hd (conj Ht (conj Hw eq_refl)))) theta St).
  unfold store_cell, accumulate in HB. cbn [fst snd] in HB.
  unfold for_range in HB. rewrite HB. clear HB.
  cbn [bind]. rewrite document_topic_prob_set. cbn [array of_option bind].
  destruct (normalize (tabulate2 D K (expected_document_topic c z V))) as [theta'| |];
    cbn [bind]; reflexivity.
Qed.

(** ** The log-likelihood *)

Lemma mixture_ok (self : Corpus) (theta phi : matrix) (i j : nat) :
  tables self theta phi ->
  (i < number_of_documents self)%nat -> (j < vocabulary_size self)%nat ->
  mixture self (Z.of_nat (length phi)) i j = Ok (topic_mass theta phi i j).
Proof.
  intros (Et & Ep & St & Sp) Hi Hj. unfold mixture, range. rewrite Nat2Z.id.
  fold (@for_range R (length phi)).
  destruct (for_range_inv
    (fun k counter => counter = big_sum k (fun k => entry theta i k * entry phi k j))
    (length phi)
    (fun k counter =>
       theta0 <- array (document_topic_prob self) ;;
       a <- get2 theta0 i k ;;
       phi0 <- array (topic_word_prob self) ;;
       b <- get2 phi0 k j ;;
       Ok (counter + a * b)) 0) as (s' & E & ->).
  - reflexivity.
  - intros k s Hk ->. rewrite Et, Ep. cbn [array of_option bind].
    rewrite (get2_ok _ _ theta i k St Hi Hk). cbn [bind].
    rewrite (get2_ok _ _ phi k j Sp Hk Hj). cbn [bind].
    eexists. split; [reflexivity|]. rewrite big_sum_S. reflexivity.
  - exact E.
Qed.

Lemma math_log_ok (x : R) : 0 < x -> math_log x 2 = Ok (log2 x).
Proof. intros H. unfold math_log. destruct (Rlt_dec 0 x); [reflexivity | contradiction]. Qed.

Lemma math_log_raise (x : R) : ~ 0 < x -> math_log x 2 = Raise ValueError.
Proof. intros H. unfold math_log. destruct (Rlt_dec 0 x); [contradiction | reflexivity]. Qed.

Lemma big_sum_0 (f : nat -> R) : big_sum 0 f = 0.
Proof. reflexivity. Qed.

(** The inner loop of the likelihood, for document [i], from the running
    total [acc]. *)
Lemma likelihood_row_spec (self : Corpus) (c theta phi : matrix) (i : nat) (acc : R) :
  let V := vocabulary_size self in
  let body := fun j currLog =>
                counter <- mixture self (Z.of_nat (length phi)) i j ;;
                c0 <- array (term_doc_matrix self) ;;
                n <- get2 c0 i j ;;
                l <- math_log counter 2 ;;
                Ok (currLog + n * l) in
  tables self theta phi ->
  term_doc_matrix self = Some c ->
  shape2 (number_of_documents self) V c ->
  (i < number_of_documents self)%nat ->
  ((forall j, (j < V)%nat -> 0 < topic_mass theta phi i j) /\
   for_range V body acc =
     Ok (acc + big_sum V (fun w => entry c i w * log2 (topic_mass theta phi i w)))) \/
  ((exists j, (j < V)%nat /\ ~ 0 < topic_mass theta phi i j) /\
   for_range V body acc = Raise ValueError).
Proof.
  intros V body T Ec Sc Hi.
  destruct (for_range_cases
    (fun j s => s = acc + big_sum j (fun w => entry c i w * log2 (topic_mass theta phi i w)))
    (fun j => 0 < topic_mass theta phi i j)
    (Raise ValueError) V body acc) as [(Hg & s' & E & ->) | (Hex & E)].
  - rewrite big_sum_0. lra.
  - intros j s Hj ->. unfold body.
    rewrite (mixture_ok self theta phi i j T Hi Hj). cbn [bind].
    rewrite Ec. cbn [array of_option bind].
    rewrite (get2_ok _ _ c i j Sc Hi Hj). cbn [bind].
    destruct (Rlt_dec 0 (topic_mass theta phi i j)) as [Hpos|Hneg].
    + left. split; [exact Hpos|]. rewrite (math_log_ok _ Hpos). cbn [bind].
      eexists. split; [reflexivity|]. rewrite big_sum_S. lra.
    + right. split; [exact Hneg|]. rewrite (math_log_raise _ Hneg). reflexivity.
  - intros s' H. discriminate.
  - left. split; [exact Hg | exact E].
  - right. split; [exact Hex | exact E].
Qed.

(** [calculate_likelihood] on a state with well-shaped tables: it appends
    the log-likelihood to the trace, or raises ValueError; the second happens
    exactly when some mixture probability is not positive. *)
Lemma calculate_likelihood_spec (self : Corpus) (c theta phi : matrix) :
  let D := number_of_documents self in
  let V := vocabulary_size self in
  tables self theta phi ->
  term_doc_matrix self = Some c ->
  shape2 D V c ->
  ((forall d w, (d < D)%nat -> (w < V)%nat -> 0 < topic_mass theta phi d w) /\
   calculate_likelihood self (Z.of_nat (length phi)) =
     Ok (set_likelihoods self (likelihoods self ++ [log_likelihood c theta phi D V]))) \/
  ((exists d w, (d < D)%nat /\ (w < V)%nat /\ ~ 0 < topic_mass theta phi d w) /\
   calculate_likelihood self (Z.of_nat (length phi)) = Raise ValueError).
Proof.
  intros D V T Ec Sc. unfold calculate_likelihood. fold D. fold V.
  destruct (for_range_cases
    (fun i s => s = big_sum i (fun d =>
        big_sum V (fun w => entry c d w * log2 (topic_mass theta phi d w))))
    (fun i => forall j, (j < V)%nat -> 0 < topic_mass theta phi i j)
    (Raise ValueError) D
    (fun i currLog =>
       for_range V (fun j currLog =>
         counter <- mixture self (Z.of_nat (length phi)) i j ;;
         c0 <- array (term_doc_matrix self) ;;
         n <- get2 c0 i j ;;
         l <- math_log counter 2 ;;
         Ok (currLog + n * l)) currLog) 0) as [(Hg & s' & E & ->) | ((i & Hi & Hb) & E)].
  - reflexivity.
  - intros i s Hi ->.
    destruct (likelihood_row_spec self c theta phi i
                (big_sum i (fun d => big_sum V (fun w =>
                   entry c d w * log2 (topic_mass theta phi d w)))) T Ec Sc Hi)
      as [(Hpos & E) | ((j & Hj & Hneg) & E)].
    + left. split; [exact Hpos|]. eexists. split; [exact E|]. rewrite big_sum_S. reflexivity.
    + right. split; [|exact E]. intros H. exact (Hneg (H j Hj)).
  - intros s' H. discriminate.
  - left. split; [intros d w Hd Hw; apply Hg; assumption|].
    rewrite E. reflexivity.
  - right. split; [|rewrite E; reflexivity].
    destruct (bounded_search (fun j => 0 < topic_mass theta phi i j)
                (fun j => Rlt_dec 0 (topic_mass theta phi i j)) V Hb) as (j & Hj & Hn).
    exists i, j. auto.
Qed.

(** ** The term-document matrix *)

Lemma build_row (self : Corpus) (m : matrix) (i : nat) :
  let D := number_of_documents self in
  let V := vocabulary_size self in
  loaded self -> shape2 D V m -> (i < D)%nat ->
  exists m', for_range V (fun j m =>
               doc <- item (documents self) i ;;
               term <- item (vocabulary self) j ;;
               set2 m i j (INR (count_occ string_dec doc term))) m = Ok m' /\
    shape2 D V m' /\
    forall a b, (b < V)%nat ->
      entry m' a b = if (a =? i)%nat then INR (occurrences self i b) else entry m a b.
Proof.
  intros D V [Ld Lv] Sm Hi.
  destruct (for_range_inv
    (fun j m1 => shape2 D V m1 /\
       forall a b, entry m1 a b =
         if ((a =? i) && (b <? j))%nat then INR (occurrences self i b) else entry m a b)
    V (fun j m =>
         doc <- item (documents self) i ;;
         term <- item (vocabulary self) j ;;
         set2 m i j (INR (count_occ string_dec doc term))) m) as (m' & E & S' & H').
  - split; [exact Sm|]. intros a b. rewrite andb_false_r. reflexivity.
  - intros j m1 Hj (S1 & H1).
    rewrite (item_ok (documents self) i []) by (fold D in Ld; lia). cbn [bind].
    rewrite (item_ok (vocabulary self) j EmptyString) by (fold V in Lv; lia). cbn [bind].
    destruct (set2_ok D V m1 i j
                (INR (count_occ string_dec (nth i (documents self) [])
                        (nth j (vocabulary self) EmptyString))) S1 Hi Hj)
      as (m2 & E2 & S2 & H2).
    exists m2. split; [exact E2|]. split; [exact S2|].
    intros a b. rewrite H2, H1.
    destruct (Nat.eqb_spec a i) as [->|Ha]; cbn [andb]; [|reflexivity].
    destruct (Nat.eqb_spec b j) as [->|Hb].
    + replace (j <? S j)%nat with true by (symmetry; apply Nat.ltb_lt; lia). reflexivity.
    + destruct (Nat.ltb_spec b j).
      * replace (b <? S j)%nat with true by (symmetry; apply Nat.ltb_lt; lia). reflexivity.
      * replace (b <? S j)%nat with false by (symmetry; apply Nat.ltb_ge; lia). reflexivity.
  - exists m'. split; [exact E|]. split; [exact S'|].
    intros a b Hb. rewrite H'.
    replace (b <? V)%nat with true by (symmetry; apply Nat.ltb_lt; exact Hb).
    rewrite andb_true_r. reflexivity.
Qed.

Lemma build_term_doc_matrix_ok (self : Corpus) :
  loaded self ->
  build_term_doc_matrix self = Ok (set_term_doc_matrix self (counts self)).
Proof.
  intros L. unfold build_term_doc_matrix. rewrite full2_ok. cbn [bind].
  set (D := number_of_documents self). set (V := vocabulary_size self).
  destruct (for_range_inv
    (fun i m1 => shape2 D V m1 /\
       forall a b, (a < i)%nat -> (b < V)%nat -> entry m1 a b = INR (occurrences self a b))
    D (fun i m =>
         for_range V (fun j m =>
           doc <- item (documents self) i ;;
           term <- item (vocabulary self) j ;;
           set2 m i j (INR (count_occ string_dec doc term))) m)
    (repeat (repeat 1 V) D)) as (m' & E & S' & H').
  - split; [apply shape2_repeat|]. intros a b Ha. lia.
  - intros i m1 Hi (S1 & H1).
    destruct (build_row self m1 i L S1 Hi) as (m2 & E2 & S2 & H2).
    exists m2. split; [exact E2|]. split; [exact S2|].
    intros a b Ha Hb. rewrite (H2 a b Hb).
    destruct (Nat.eqb_spec a i) as [->|Hai]; [reflexivity|].
    apply H1; [lia | exact Hb].
  - rewrite E. cbn [bind]. do 2 f_equal.
    apply (matrix_ext D V); [exact S' | apply shape2_tabulate2|].
    intros i j Hi Hj. unfold counts. fold D. fold V.
    rewrite entry_tabulate2 by assumption. apply H'; assumption.
Qed.

(** The matrix of the corpus [cats]. *)
Lemma cats_counts : counts cats = [[1; 1; 1; 0]; [1; 0; 1; 1]].
Proof. reflexivity. Qed.

(** After [build_vocabulary] every term of every document has a column. *)
Lemma build_vocabulary_covers (self self' : Corpus) (d : nat) (term : string) :
  build_vocabulary self self' ->
  In term (nth d (documents self) []) ->
  documents self' = documents self /\
  vocabulary_size self' = length (vocabulary self') /\
  exists w, (w < vocabulary_size self')%nat /\
            nth w (vocabulary self') EmptyString = term.
Proof.
  intros (voc & _ & Hvoc & ->) Hin. split; [reflexivity|]. split; [reflexivity|].
  assert (Hd : In (nth d (documents self) []) (documents self)).
  { destruct (Nat.lt_ge_cases d (length (documents self))) as [Hlt|Hge].
    - apply nth_In, Hlt.
    - rewrite nth_overflow in Hin by exact Hge. contradiction. }
  assert (Hc : In term (concat (documents self))).
  { apply in_concat. exists (nth d (documents self) []). split; assumption. }
  apply Hvoc in Hc. destruct (In_nth voc term EmptyString Hc) as (w & Hw & E).
  exists w. split; [exact Hw | exact E].
Qed.

(** ** What each step leaves unchanged *)

Ltac bind_inv H :=
  lazymatch type of H with
  | bind _ _ = Ok _ =>
      let a := fresh "a" in
      let E := fresh "E" in
      apply bind_inv_ok in H; destruct H as (a & E & H); cbv beta in H; bind_inv H
  | (let '(_, _) := ?p in _) = Ok _ => destruct p; bind_inv H
  | (if ?b then _ else _) = Ok _ =>
      destruct b; [try discriminate H; bind_inv H | try discriminate H; bind_inv H]
  | Ok _ = Ok _ => injection H as H
  | _ => idtac
  end.

Lemma for_each_preserves {S : Type} (P : S -> S -> Prop) (l : list nat)
  (body : nat -> S -> outcome S) :
  (forall s, P s s) ->
  (forall s1 s2 s3, P s1 s2 -> P s2 s3 -> P s1 s3) ->
  (forall i s s', body i s = Ok s' -> P s s') ->
  forall s s', for_each l body s = Ok s' -> P s s'.
Proof.
  intros Hrefl Htrans Hbody. induction l as [|i l IH]; intros s s' H; simpl in H.
  - injection H as <-. apply Hrefl.
  - apply bind_inv_ok in H. destruct H as (s1 & E1 & H).
    apply (Htrans s s1 s'); [apply (Hbody i), E1 | apply IH, H].
Qed.

Lemma for_range_preserves {S : Type} (P : S -> S -> Prop) (n : nat)
  (body : nat -> S -> outcome S) :
  (forall s, P s s) ->
  (forall s1 s2 s3, P s1 s2 -> P s2 s3 -> P s1 s3) ->
  (forall i s s', body i s = Ok s' -> P s s') ->
  forall s s', for_range n body s = Ok s' -> P s s'.
Proof. apply for_each_preserves. Qed.

Lemma for_break_preserves {S : Type} (P : S -> S -> Prop) (l : list nat)
  (body : nat -> S -> outcome (flow S)) :
  (forall s, P s s) ->
  (forall s1 s2 s3, P s1 s2 -> P s2 s3 -> P s1 s3) ->
  (forall i s s', body i s = Ok (Continue s') \/ body i s = Ok (Break s') -> P s s') ->
  forall s s', for_break l body s = Ok s' -> P s s'.
Proof.
  intros Hrefl Htrans Hbody. induction l as [|i l IH]; intros s s' H; simpl in H.
  - injection H as <-. apply Hrefl.
  - destruct (body i s) as [[s1|s1]| |] eqn:E; try discriminate.
    + apply (Htrans s s1 s'); [apply (Hbody i); left; exact E | apply IH, H].
    + injection H as <-. apply (Hbody i). right. exact E.
Qed.

Lemma same_corpus_refl (s : Corpus) : same_corpus s s.
Proof. repeat split. Qed.

Lemma same_corpus_trans (s1 s2 s3 : Corpus) :
  same_corpus s1 s2 -> same_corpus s2 s3 -> same_corpus s1 s3.
Proof.
  intros (A1 & A2 & A3 & A4 & A5 & A6) (B1 & B2 & B3 & B4 & B5 & B6).
  repeat split; congruence.
Qed.

Lemma e_frame_refl (s : Corpus) : e_frame s s.
Proof. repeat split. Qed.

Lemma e_frame_trans (s1 s2 s3 : Corpus) : e_frame s1 s2 -> e_frame s2 s3 -> e_frame s1 s3.
Proof.
  intros (A & A1 & A2 & A3) (B & B1 & B2 & B3).
  split; [exact (same_corpus_trans _ _ _ A B)|]. repeat split; congruence.
Qed.

Lemma m_frame_refl (s : Corpus) : m_frame s s.
Proof. repeat split. Qed.

Lemma m_frame_trans (s1 s2 s3 : Corpus) : m_frame s1 s2 -> m_frame s2 s3 -> m_frame s1 s3.
Proof.
  intros (A & A1 & A2) (B & B1 & B2).
  split; [exact (same_corpus_trans _ _ _ A B)|]. repeat split; congruence.
Qed.

Lemma expectation_step_frame (s s' : Corpus) :
  expectation_step s = Ok s' -> e_frame s s'.
Proof.
  unfold expectation_step. intros H. bind_inv H.
  apply (e_frame_trans s (set_topic_prob s a0) s'); [repeat split|].
  revert H. apply for_range_preserves; [apply e_frame_refl | apply e_frame_trans|].
  intros i s1 s2. apply for_range_preserves; [apply e_frame_refl | apply e_frame_trans|].
  intros j s3 s4 H. unfold expectation_cell in H. bind_inv H. subst s4. repeat split.
Qed.

Lemma maximization_step_frame (s s' : Corpus) (K : Z) :
  maximization_step s K = Ok s' -> m_frame s s'.
Proof.
  unfold maximization_step. intros H. bind_inv H. subst s'.
  assert (HA : m_frame s a).
  { revert E. apply for_range_preserves; [apply m_frame_refl | apply m_frame_trans|].
    intros w s1 s2. apply for_each_preserves; [apply m_frame_refl | apply m_frame_trans|].
    intros t s3 s4 H. bind_inv H. subst s4. repeat split. }
  assert (HB : m_frame (set_topic_word_prob a a1) a2).
  { revert E2. apply for_each_preserves; [apply m_frame_refl | apply m_frame_trans|].
    intros t s1 s2. apply for_range_preserves; [apply m_frame_refl | apply m_frame_trans|].
    intros d s3 s4 H. bind_inv H. subst s4. repeat split. }
  apply (m_frame_trans s a _ HA).
  apply (m_frame_trans a (set_topic_word_prob a a1) _); [repeat split|].
  apply (m_frame_trans _ a2 _ HB). repeat split.
Qed.

Lemma calculate_likelihood_frame (s s' : Corpus) (K : Z) :
  calculate_likelihood s K = Ok s' ->
  l_frame s s' /\ exists x, likelihoods s' = likelihoods s ++ [x].
Proof.
  unfold calculate_likelihood. intros H. bind_inv H. subst s'.
  split; [repeat split | exists a; reflexivity].
Qed.

(** ** Initialisation and the frame of [plsa] *)

Lemma random_sample_ok (rnd : nat -> R) (r c : nat) :
  random_sample rnd (Z.of_nat r) (Z.of_nat c) =
  Ok (tabulate2 r c (fun i j => rnd (i * c + j)%nat)).
Proof.
  unfold random_sample.
  assert (H : forall n, (Z.of_nat n <? 0)%Z = false) by (intros n; apply Z.ltb_ge; lia).
  rewrite !H, !Nat2Z.id. reflexivity.
Qed.

Lemma initialize_randomly_spec (rnd : nat -> R) (self : Corpus) (K : nat) :
  vocabulary_size self = length (vocabulary self) ->
  initialize_randomly rnd self (Z.of_nat K) =
  (theta <- normalize (sample_theta rnd (number_of_documents self) K) ;;
   phi <- normalize (sample_phi rnd (number_of_documents self) K (vocabulary_size self)) ;;
   Ok (set_topic_word_prob (set_document_topic_prob self theta) phi)).
Proof.
  intros Lv. unfold initialize_randomly. rewrite random_sample_ok. cbn [bind].
  rewrite document_topic_prob_set. cbn [array of_option bind].
  fold (sample_theta rnd (number_of_documents self) K).
  destruct (normalize (sample_theta rnd (number_of_documents self) K)) as [theta| |];
    cbn [bind]; try reflexivity.
  change (vocabulary (set_document_topic_prob (set_document_topic_prob self
            (sample_theta rnd (number_of_documents self) K)) theta))
    with (vocabulary self).
  rewrite <- Lv, random_sample_ok. cbn [bind].
  rewrite topic_word_prob_set. cbn [array of_option bind].
  rewrite !Nat2Z.id. unfold advance. fold (sample_phi rnd (number_of_documents self) K (vocabulary_size self)).
  destruct (normalize (sample_phi rnd (number_of_documents self) K (vocabulary_size self)));
    reflexivity.
Qed.

Lemma initialize_uniformly_spec (self : Corpus) (K : nat) :
  vocabulary_size self = length (vocabulary self) ->
  initialize_uniformly self (Z.of_nat K) =
  (theta <- normalize (repeat (repeat 1 K) (number_of_documents self)) ;;
   phi <- normalize (repeat (repeat 1 (vocabulary_size self)) K) ;;
   Ok (set_topic_word_prob (set_document_topic_prob self theta) phi)).
Proof.
  intros Lv. unfold initialize_uniformly. rewrite full2_ok. cbn [bind].
  rewrite document_topic_prob_set. cbn [array of_option bind].
  destruct (normalize (repeat (repeat 1 K) (number_of_documents self))) as [theta| |];
    cbn [bind]; try reflexivity.
  change (vocabulary (set_document_topic_prob (set_document_topic_prob self
            (repeat (repeat 1 K) (number_of_documents self))) theta))
    with (vocabulary self).
  rewrite <- Lv, full2_ok. cbn [bind].
  rewrite topic_word_prob_set. cbn [array of_option bind].
  destruct (normalize (repeat (repeat 1 (vocabulary_size self)) K)); reflexivity.
Qed.

(** [plsa] up to its loop, for a loaded corpus and a topic count that is
    not negative. *)
Lemma plsa_spec (rnd : nat -> R) (self : Corpus) (K : nat) (max_iter : Z) (epsilon : R) :
  loaded self ->
  plsa rnd self (Z.of_nat K) max_iter epsilon =
  (theta <- normalize (sample_theta rnd (number_of_documents self) K) ;;
   phi <- normalize (sample_phi rnd (number_of_documents self) K (vocabulary_size self)) ;;
   em_loop (Z.of_nat K) max_iter epsilon (started self K theta phi)).
Proof.
  intros L. unfold plsa. rewrite (build_term_doc_matrix_ok self L). cbn [bind].
  change (number_of_documents (set_term_doc_matrix self (counts self)))
    with (number_of_documents self).
  change (vocabulary_size (set_term_doc_matrix self (counts self)))
    with (vocabulary_size self).
  rewrite full3_ok. cbn [bind]. unfold initialize.
  rewrite initialize_randomly_spec by (destruct L as [_ Lv]; exact Lv).
  destruct (normalize (sample_theta rnd _ K)) as [theta| |]; cbn [bind]; try reflexivity.
  destruct (normalize (sample_phi rnd _ K _)) as [phi| |]; cbn [bind]; reflexivity.
Qed.

(** A negative topic count is met by [np.zeros], after the matrix is built. *)
Lemma plsa_negative_topics (rnd : nat -> R) (self : Corpus) (K max_iter : Z) (epsilon : R) :
  loaded self -> (K < 0)%Z ->
  plsa rnd self K max_iter epsilon = Raise ValueError.
Proof.
  intros L HK. unfold plsa. rewrite (build_term_doc_matrix_ok self L). cbn [bind].
  unfold full3. apply Z.ltb_lt in HK. rewrite HK, orb_true_r. reflexivity.
Qed.

Lemma fitted_started (self : Corpus) (K : nat) (theta phi : matrix) :
  shape2 (number_of_documents self) K theta ->
  shape2 K (vocabulary_size self) phi ->
  fitted (started self K theta phi) K (counts self) theta phi
    (repeat (repeat (repeat 0 (vocabulary_size self)) K) (number_of_documents self)).
Proof.
  intros St Sp. repeat split; try (apply St); try (apply Sp).
  - apply length_tabulate.
  - apply shape2_tabulate2.
  - apply repeat_length.
  - apply shape3_repeat.
Qed.

(** ** Consequences used by the main results *)

Lemma fitted_tables (self : Corpus) (K : nat) (c theta phi : matrix) (z : tensor) :
  fitted self K c theta phi z -> tables self theta phi /\ length phi = K.
Proof.
  intros (Ec & Et & Ep & Ez & Sc & St & Sp & Sz).
  assert (L : length phi = K) by apply Sp.
  split; [|exact L]. unfold tables. rewrite L.
  repeat split; try assumption; try apply St; apply Sp.
Qed.

Lemma expectation_step_ok (self : Corpus) (theta phi : matrix) :
  tables self theta phi ->
  (forall d w, (d < number_of_documents self)%nat -> (w < vocabulary_size self)%nat ->
     topic_mass theta phi d w <> 0) ->
  expectation_step self =
  Ok (set_topic_prob self
        (tabulate3 (number_of_documents self) (length phi) (vocabulary_size self)
           (posterior theta phi))).
Proof.
  intros T H. destruct (expectation_step_spec self theta phi T) as [[_ E] | [(d & w & Hd & Hw & E0) _]].
  - exact E.
  - exfalso. exact (H d w Hd Hw E0).
Qed.

Lemma expectation_step_exit (self : Corpus) (theta phi : matrix) :
  tables self theta phi ->
  (exists d w, (d < number_of_documents self)%nat /\ (w < vocabulary_size self)%nat /\
     topic_mass theta phi d w = 0) ->
  expectation_step self = SystemExit 0.
Proof.
  intros T (d & w & Hd & Hw & E0).
  destruct (expectation_step_spec self theta phi T) as [[H _] | [_ E]].
  - exfalso. exact (H d w Hd Hw E0).
  - exact E.
Qed.

Lemma big_sum_scale (n : nat) (f : nat -> R) (s : R) :
  big_sum n (fun i => f i * s) = big_sum n f * s.
Proof.
  induction n as [|n IH].
  - rewrite !big_sum_0. lra.
  - rewrite !big_sum_S, IH. lra.
Qed.

Lemma big_sum_const (n : nat) (x : R) : big_sum n (fun _ => x) = INR n * x.
Proof.
  induction n as [|n IH].
  - rewrite big_sum_0. simpl. lra.
  - rewrite big_sum_S, IH, S_INR. lra.
Qed.

Lemma big_sum_nonneg (n : nat) (f : nat -> R) :
  (forall i, (i < n)%nat -> 0 <= f i) -> 0 <= big_sum n f.
Proof.
  induction n as [|n IH]; intros H.
  - rewrite big_sum_0. lra.
  - rewrite big_sum_S. specialize (H n (Nat.lt_succ_diag_r n)) as Hn.
    assert (0 <= big_sum n f) by (apply IH; intros i Hi; apply H; lia). lra.
Qed.

Lemma big_sum_pos (n : nat) (f : nat -> R) (i0 : nat) :
  (forall i, (i < n)%nat -> 0 <= f i) -> (i0 < n)%nat -> 0 < f i0 -> 0 < big_sum n f.
Proof.
  induction n as [|n IH]; intros H Hi Hp; [lia|].
  rewrite big_sum_S. pose proof (H n (Nat.lt_succ_diag_r n)) as Hn.
  assert (Hs : 0 <= big_sum n f) by (apply big_sum_nonneg; intros i Hi'; apply H; lia).
  destruct (Nat.eq_dec i0 n) as [->|Hne]; [lra|].
  assert (0 < big_sum n f) by (apply IH; [intros i Hi'; apply H; lia | lia | exact Hp]).
  lra.
Qed.

Lemma big_sum_zero (n : nat) (f : nat -> R) :
  (forall i, (i < n)%nat -> f i = 0) -> big_sum n f = 0.
Proof.
  induction n as [|n IH]; intros H.
  - apply big_sum_0.
  - rewrite big_sum_S, IH, (H n) by (try lia; intros i Hi; apply H; lia). lra.
Qed.


(** ** The loop of [plsa] *)

Lemma iteration_body_frame (K : Z) (epsilon : R) (i : nat) (s : Corpus)
  (r : flow Corpus) :
  iteration_body K epsilon i s = Ok r ->
  same_corpus s (state_of r) /\ exists x, likelihoods (state_of r) = likelihoods s ++ [x].
Proof.
  unfold iteration_body. intros H. bind_inv H.
  apply expectation_step_frame in E. apply maximization_step_frame in E0.
  apply calculate_likelihood_frame in E1.
  destruct E as (A & A1 & _), E0 as (B & B1 & _), E1 as ((C & _) & x & C1).
  assert (Hs : state_of r = a1) by (subst r; destruct a2; reflexivity).
  rewrite Hs. split.
  - apply (same_corpus_trans s a _ A), (same_corpus_trans a a0 _ B), C.
  - exists x. rewrite C1, B1, A1. reflexivity.
Qed.

Lemma for_break_trace (K : Z) (epsilon : R) (l : list nat) (s s' : Corpus) :
  for_break l (iteration_body K epsilon) s = Ok s' ->
  same_corpus s s' /\
  exists xs, likelihoods s' = likelihoods s ++ xs /\ (length xs <= length l)%nat.
Proof.
  revert s. induction l as [|i l IH]; intros s H; simpl in H.
  - injection H as <-. split; [apply same_corpus_refl|].
    exists []. rewrite app_nil_r. split; [reflexivity | simpl; lia].
  - destruct (iteration_body K epsilon i s) as [r| |] eqn:E; try discriminate.
    destruct (iteration_body_frame K epsilon i s r E) as (A & x & Hx).
    destruct r as [s1|s1]; simpl in A, Hx.
    + destruct (IH s1 H) as (B & xs & Hxs & Hl). split.
      * apply (same_corpus_trans s s1 s' A B).
      * exists (x :: xs). rewrite Hxs, Hx, <- app_assoc. split; [reflexivity | simpl; lia].
    + injection H as <-. split; [exact A|].
      exists [x]. split; [exact Hx | simpl; lia].
Qed.

Lemma em_loop_trace (K max_iter : Z) (epsilon : R) (s s' : Corpus) :
  em_loop K max_iter epsilon s = Ok s' ->
  same_corpus s s' /\
  exists xs, likelihoods s' = likelihoods s ++ xs /\ (length xs <= Z.to_nat max_iter)%nat.
Proof.
  unfold em_loop. intros H. apply for_break_trace in H.
  unfold range in H. rewrite length_seq in H. exact H.
Qed.

(** An exit in the E-step ends the whole loop. *)
Lemma em_loop_exit (K max_iter : Z) (epsilon : R) (s : Corpus) :
  (1 <= max_iter)%Z ->
  expectation_step s = SystemExit 0 ->
  em_loop K max_iter epsilon s = SystemExit 0.
Proof.
  intros Hm E. unfold em_loop, range.
  destruct (Z.to_nat max_iter) as [|n] eqn:En; [lia|].
  simpl. unfold iteration_body. rewrite E. reflexivity.
Qed.

(** No iteration runs on an iteration budget that is not positive. *)
Lemma em_loop_no_budget (K max_iter : Z) (epsilon : R) (s : Corpus) :
  (max_iter <= 0)%Z -> em_loop K max_iter epsilon s = Ok s.
Proof.
  intros Hm. unfold em_loop, range.
  replace (Z.to_nat max_iter) with 0%nat by lia. reflexivity.
Qed.

(** An exception of the M-step ends the whole loop. *)
Lemma em_loop_raise (K max_iter : Z) (epsilon : R) (s s1 : Corpus) (e : exn) :
  (1 <= max_iter)%Z ->
  expectation_step s = Ok s1 ->
  maximization_step s1 K = Raise e ->
  em_loop K max_iter epsilon s = Raise e.
Proof.
  intros Hm E1 E2. unfold em_loop, range.
  destruct (Z.to_nat max_iter) as [|n] eqn:En; [lia|].
  simpl. unfold iteration_body. rewrite E1. cbn [bind]. rewrite E2. reflexivity.
Qed.

(** ** Tables that do not tell the topics apart are reproduced *)

Lemma tabulate2_ext (r c : nat) (f g : nat -> nat -> R) :
  (forall i j, (i < r)%nat -> (j < c)%nat -> f i j = g i j) ->
  tabulate2 r c f = tabulate2 r c g.
Proof.
  intros H. unfold tabulate2. apply tabulate_ext. intros i Hi.
  apply tabulate_ext. intros j Hj. apply H; assumption.
Qed.

Lemma tabulate3_ext (d k v : nat) (f g : nat -> nat -> nat -> R) :
  (forall a b c, (a < d)%nat -> (b < k)%nat -> (c < v)%nat -> f a b c = g a b c) ->
  tabulate3 d k v f = tabulate3 d k v g.
Proof.
  intros H. unfold tabulate3. apply tabulate_ext. intros a Ha.
  apply tabulate2_ext. intros b c Hb Hc. apply H; assumption.
Qed.

Lemma Forall_tabulate {A : Type} (P : A -> Prop) (n : nat) (f : nat -> A) :
  (forall i, (i < n)%nat -> P (f i)) -> Forall P (tabulate n f).
Proof.
  intros H. apply Forall_forall. intros x Hin. unfold tabulate in Hin.
  apply in_map_iff in Hin. destruct Hin as (i & <- & Hi).
  apply in_seq in Hi. apply H. lia.
Qed.

Lemma Exists_tabulate {A : Type} (P : A -> Prop) (n : nat) (f : nat -> A) (i : nat) :
  (i < n)%nat -> P (f i) -> Exists P (tabulate n f).
Proof.
  intros Hi Hp. apply Exists_exists. exists (f i). split; [|exact Hp].
  unfold tabulate. apply in_map, in_seq. lia.
Qed.

Lemma row_sum_tabulate (n : nat) (f : nat -> R) : row_sum (tabulate n f) = big_sum n f.
Proof. symmetry. apply big_sum_row_sum. Qed.

Lemma normalized_tabulate2 (r c : nat) (f : nat -> nat -> R) :
  normalized (tabulate2 r c f) = tabulate2 r c (fun i j => f i j / big_sum c (f i)).
Proof.
  apply (matrix_ext r c).
  - apply shape2_normalized, shape2_tabulate2.
  - apply shape2_tabulate2.
  - intros i j Hi Hj. rewrite entry_normalized, !entry_tabulate2 by assumption.
    unfold tabulate2. rewrite nth_tabulate by exact Hi. rewrite row_sum_tabulate.
    reflexivity.
Qed.

Lemma normalize_tabulate2_ok (r c : nat) (f : nat -> nat -> R) :
  (forall i, (i < r)%nat -> big_sum c (f i) <> 0) ->
  normalize (tabulate2 r c f) = Ok (tabulate2 r c (fun i j => f i j / big_sum c (f i))).
Proof.
  intros H. rewrite normalize_ok, normalized_tabulate2; [reflexivity|].
  unfold tabulate2. apply Forall_tabulate. intros i Hi.
  rewrite row_sum_tabulate. apply H, Hi.
Qed.

Lemma normalize_tabulate2_raise (r c : nat) (f : nat -> nat -> R) (i : nat) :
  (i < r)%nat -> big_sum c (f i) = 0 ->
  normalize (tabulate2 r c f) = Raise RowsSumToZero.
Proof.
  intros Hi H. apply normalize_raise. unfold tabulate2.
  apply (Exists_tabulate _ r _ i Hi). rewrite row_sum_tabulate. exact H.
Qed.

Lemma INR_pos_neq (n : nat) : (1 <= n)%nat -> INR n <> 0.
Proof. intros H. apply not_0_INR. lia. Qed.

Lemma topic_uniform_tables (self : Corpus) (K : nat) (r : nat -> R) :
  topic_uniform self K r ->
  tables self (uniform (number_of_documents self) K)
    (tabulate2 K (vocabulary_size self) (fun _ w => r w)) /\
  length (tabulate2 K (vocabulary_size self) (fun _ w => r w)) = K.
Proof.
  intros (Et & Ep & _).
  assert (L : length (tabulate2 K (vocabulary_size self) (fun _ w => r w)) = K)
    by apply length_tabulate.
  split; [|exact L]. unfold tables. rewrite L.
  repeat split; try assumption; try apply shape2_tabulate2; apply length_tabulate.
Qed.

Lemma topic_uniform_mass (D K V : nat) (r : nat -> R) (d w : nat) :
  (1 <= K)%nat -> (d < D)%nat -> (w < V)%nat ->
  topic_mass (uniform D K) (tabulate2 K V (fun _ w => r w)) d w = r w.
Proof.
  intros HK Hd Hw. unfold topic_mass.
  replace (length (tabulate2 K V (fun _ w0 => r w0))) with K
    by (symmetry; apply length_tabulate).
  rewrite (big_sum_ext K _ (fun _ => 1 / INR K * r w)).
  - rewrite big_sum_const. field. apply INR_pos_neq, HK.
  - intros k Hk. unfold uniform. rewrite !entry_tabulate2 by assumption. reflexivity.
Qed.

Lemma topic_uniform_posterior (D K V : nat) (r : nat -> R) (d k w : nat) :
  (1 <= K)%nat -> (d < D)%nat -> (k < K)%nat -> (w < V)%nat -> r w <> 0 ->
  posterior (uniform D K) (tabulate2 K V (fun _ w => r w)) d k w = 1 / INR K.
Proof.
  intros HK Hd Hk Hw Hr. unfold posterior.
  rewrite (topic_uniform_mass D K V r d w HK Hd Hw).
  unfold uniform. rewrite !entry_tabulate2 by assumption.
  field. split; [apply INR_pos_neq, HK | exact Hr].
Qed.

(** The E-step from such tables stores the posterior 1/K everywhere. *)
Lemma expectation_step_topic_uniform (self : Corpus) (K : nat) (r : nat -> R) :
  (1 <= K)%nat -> topic_uniform self K r ->
  expectation_step self =
  Ok (set_topic_prob self
        (even_posterior (number_of_documents self) K (vocabulary_size self))).
Proof.
  intros HK TU. destruct (topic_uniform_tables self K r TU) as (T & L).
  destruct TU as (_ & _ & Hr).
  rewrite (expectation_step_ok self _ _ T).
  - rewrite L. do 2 f_equal. apply tabulate3_ext. intros d k w Hd Hk Hw.
    apply (topic_uniform_posterior _ K _ r); auto.
  - intros d w Hd Hw. rewrite (topic_uniform_mass _ K _ r d w HK Hd Hw). apply Hr, Hw.
Qed.

Lemma grand_total_pos (c : matrix) (D V : nat) :
  (1 <= V)%nat -> (forall w, (w < V)%nat -> 0 < col_total c D w) ->
  0 < grand_total c D V.
Proof.
  intros HV H. unfold grand_total. apply (big_sum_pos V _ 0%nat).
  - intros w Hw. apply Rlt_le, H, Hw.
  - lia.
  - apply H. lia.
Qed.

Lemma expected_topic_word_even (c : matrix) (D K V : nat) (k w : nat) :
  (k < K)%nat -> (w < V)%nat ->
  expected_topic_word c (even_posterior D K V) D k w = col_total c D w * (1 / INR K).
Proof.
  intros Hk Hw. unfold expected_topic_word, col_total. rewrite <- big_sum_scale.
  apply big_sum_ext. intros d Hd. unfold even_posterior.
  rewrite entry3_tabulate3 by assumption. reflexivity.
Qed.

Lemma expected_document_topic_even (c : matrix) (D K V : nat) (d k : nat) :
  (d < D)%nat -> (k < K)%nat ->
  expected_document_topic c (even_posterior D K V) V d k = row_total c V d * (1 / INR K).
Proof.
  intros Hd Hk. unfold expected_document_topic, row_total. rewrite <- big_sum_scale.
  apply big_sum_ext. intros w Hw. unfold even_posterior.
  rewrite entry3_tabulate3 by assumption. reflexivity.
Qed.

(** The M-step on the posterior 1/K: theta is uniform again and every row
    of phi is the relative frequency of the terms. *)
Lemma m_step_even (c : matrix) (D K V : nat) :
  (1 <= K)%nat -> (1 <= V)%nat ->
  (forall d, (d < D)%nat -> 0 < row_total c V d) ->
  (forall w, (w < V)%nat -> 0 < col_total c D w) ->
  m_step c (even_posterior D K V) D K V = Ok (unigram c D K V, uniform D K).
Proof.
  intros HK HV Hrow Hcol. unfold m_step. rewrite !row_normalization_normalize.
  pose proof (INR_pos_neq K HK) as HKn.
  pose proof (grand_total_pos c D V HV Hcol) as HG.
  assert (SA : forall k, (k < K)%nat ->
            big_sum V (expected_topic_word c (even_posterior D K V) D k)
            = grand_total c D V * (1 / INR K)).
  { intros k Hk. unfold grand_total. rewrite <- big_sum_scale.
    apply big_sum_ext. intros w Hw. apply expected_topic_word_even; assumption. }
  assert (SB : forall d, (d < D)%nat ->
            big_sum K (expected_document_topic c (even_posterior D K V) V d)
            = row_total c V d).
  { intros d Hd.
    rewrite (big_sum_ext K _ (fun _ => row_total c V d * (1 / INR K))).
    - rewrite big_sum_const. field. exact HKn.
    - intros k Hk. apply expected_document_topic_even; assumption. }
  rewrite normalize_tabulate2_ok.
  2:{ intros k Hk. rewrite (SA k Hk). intros H0.
      assert (grand_total c D V = 0).
      { apply (Rmult_eq_reg_r (1 / INR K)); [lra|].
        unfold Rdiv. rewrite Rmult_1_l. apply Rinv_neq_0_compat, HKn. }
      lra. }
  cbn [bind]. rewrite normalize_tabulate2_ok.
  2:{ intros d Hd. rewrite (SB d Hd). apply Rgt_not_eq, Rlt_gt, Hrow, Hd. }
  cbn [bind]. f_equal. f_equal.
  - apply tabulate2_ext. intros k w Hk Hw.
    rewrite (SA k Hk), expected_topic_word_even by assumption.
    field. repeat split; solve [exact HKn | lra].
  - apply tabulate2_ext. intros d k Hd Hk.
    rewrite (SB d Hd), expected_document_topic_even by assumption.
    field. repeat split; solve [exact HKn | apply Rgt_not_eq, Rlt_gt, Hrow, Hd].
Qed.

Lemma unigram_pos (c : matrix) (D V : nat) (w : nat) :
  (1 <= V)%nat -> (forall w, (w < V)%nat -> 0 < col_total c D w) -> (w < V)%nat ->
  0 < col_total c D w / grand_total c D V.
Proof.
  intros HV Hcol Hw. apply Rdiv_lt_0_compat; [apply Hcol, Hw|].
  apply grand_total_pos; assumption.
Qed.

(** One iteration from such tables, up to the convergence test. *)
Lemma iteration_topic_uniform (self : Corpus) (c : matrix) (K : nat) (r : nat -> R) :
  let D := number_of_documents self in
  let V := vocabulary_size self in
  (1 <= K)%nat -> (1 <= V)%nat ->
  proper_counts self c -> topic_uniform self K r ->
  exists s1,
    expectation_step self = Ok s1 /\
    topic_prob s1 = Some (even_posterior D K V) /\
    exists s2,
      maximization_step s1 (Z.of_nat K) = Ok s2 /\
      document_topic_prob s2 = Some (uniform D K) /\
      topic_word_prob s2 = Some (unigram c D K V) /\
      calculate_likelihood s2 (Z.of_nat K) =
      Ok (settled self c K
            (likelihoods self ++
             [log_likelihood c (uniform D K) (unigram c D K V) D V])).
Proof.
  intros D V HK HV (Ec & Sc & Hnn & Hrow & Hcol) TU.
  fold D in Sc, Hnn, Hrow, Hcol. fold V in Sc, Hnn, Hrow, Hcol.
  eexists. split; [apply (expectation_step_topic_uniform self K r HK TU)|].
  split; [reflexivity|]. fold D. fold V.
  set (s1 := set_topic_prob self (even_posterior D K V)).
  assert (F : fitted s1 K c (uniform D K) (tabulate2 K V (fun _ w => r w))
                (even_posterior D K V)).
  { destruct TU as (Et & Ep & _).
    repeat split; try assumption; try apply Sc;
      try apply shape2_tabulate2; try apply shape3_tabulate3; apply length_tabulate. }
  eexists. split.
  { rewrite (maximization_step_spec s1 K c _ _ _ F).
    change (number_of_documents s1) with D. change (vocabulary_size s1) with V.
    rewrite (m_step_even c D K V HK HV Hrow Hcol). reflexivity. }
  split; [reflexivity|]. split; [reflexivity|]. cbn [fst snd].
  set (s2 := set_document_topic_prob (set_topic_word_prob s1 (unigram c D K V)) (uniform D K)).
  assert (L : length (unigram c D K V) = K) by apply length_tabulate.
  assert (T : tables s2 (uniform D K) (unigram c D K V)).
  { unfold tables. rewrite L.
    repeat split; try apply shape2_tabulate2; apply length_tabulate. }
  destruct (calculate_likelihood_spec s2 c _ _ T Ec Sc) as [[_ E] | [(d & w & Hd & Hw & Hn) _]].
  - rewrite L in E. exact E.
  - exfalso. apply Hn. unfold unigram.
    rewrite (topic_uniform_mass D K V (fun w => col_total c D w / grand_total c D V) d w HK Hd Hw).
    apply unigram_pos; assumption.
Qed.

(** ** The convergence test *)

Lemma converged_first (s : Corpus) (epsilon : R) : converged s 0 epsilon = Ok false.
Proof. reflexivity. Qed.

Lemma converged_at (s : Corpus) (i : nat) (epsilon a b : R) :
  (1 <= i)%nat ->
  nth_error (likelihoods s) i = Some a ->
  nth_error (likelihoods s) (i - 1) = Some b ->
  converged s i epsilon = Ok (if Rlt_dec (Rabs (a - b)) epsilon then true else false).
Proof.
  intros Hi Ea Eb. unfold converged.
  replace (1 <=? i)%nat with true by (symmetry; apply Nat.leb_le; exact Hi).
  unfold item. rewrite Ea, Eb. reflexivity.
Qed.

(** With a tolerance that is not positive the test never succeeds. *)
Lemma converged_never (s : Corpus) (i : nat) (epsilon : R) (b : bool) :
  epsilon <= 0 -> converged s i epsilon = Ok b -> b = false.
Proof.
  intros He H. unfold converged in H. destruct (1 <=? i)%nat.
  - bind_inv H. subst b.
    destruct (Rlt_dec (Rabs (a - a0)) epsilon) as [Hlt|]; [|reflexivity].
    pose proof (Rabs_pos (a - a0)). lra.
  - injection H as <-. reflexivity.
Qed.

Lemma nth_error_repeat {A : Type} (x : A) (n i : nat) :
  (i < n)%nat -> nth_error (repeat x n) i = Some x.
Proof.
  intros H. rewrite (nth_error_nth' _ x) by (rewrite repeat_length; exact H).
  rewrite nth_repeat. reflexivity.
Qed.

Lemma repeat_snoc {A : Type} (x : A) (n : nat) : repeat x n ++ [x] = repeat x (S n).
Proof.
  induction n as [|n IH]; simpl; [reflexivity|]. rewrite IH. reflexivity.
Qed.

Lemma converged_constant (s : Corpus) (i : nat) (epsilon x : R) :
  likelihoods s = repeat x (S i) ->
  converged s i epsilon =
  Ok (if (1 <=? i)%nat then (if Rlt_dec 0 epsilon then true else false) else false).
Proof.
  intros L. destruct i as [|i]; [reflexivity|].
  rewrite (converged_at s (S i) epsilon x x); try (rewrite L; apply nth_error_repeat; lia); [|lia].
  replace (x - x) with 0 by lra. rewrite Rabs_R0. reflexivity.
Qed.

(** ** The loop from tables that do not tell the topics apart *)

Lemma settled_proper (self : Corpus) (c : matrix) (K : nat) (trace : list R) :
  proper_counts self c -> proper_counts (settled self c K trace) c.
Proof. intros H. exact H. Qed.

Lemma settled_topic_uniform (self : Corpus) (c : matrix) (K : nat) (trace : list R) :
  (1 <= vocabulary_size self)%nat ->
  proper_counts self c ->
  topic_uniform (settled self c K trace) K
    (fun w => col_total c (number_of_documents self) w /
              grand_total c (number_of_documents self) (vocabulary_size self)).
Proof.
  intros HV (_ & _ & _ & _ & Hcol). split; [reflexivity|]. split; [reflexivity|].
  intros w Hw. apply Rgt_not_eq, Rlt_gt, unigram_pos; assumption.
Qed.

(** One whole iteration, at index [i], when the trace holds [i] copies of
    one value. *)
Lemma iteration_body_topic_uniform (self : Corpus) (c : matrix) (K : nat)
  (r : nat -> R) (epsilon : R) (i : nat) :
  let D := number_of_documents self in
  let V := vocabulary_size self in
  (1 <= K)%nat -> (1 <= V)%nat ->
  proper_counts self c -> topic_uniform self K r ->
  likelihoods self = repeat (settled_likelihood c D K V) i ->
  iteration_body (Z.of_nat K) epsilon i self =
  Ok ((if (1 <=? i)%nat then (if Rlt_dec 0 epsilon then Break else Continue) else Continue)
        (settled self c K (repeat (settled_likelihood c D K V) (S i)))).
Proof.
  intros D V HK HV PC TU L.
  destruct (iteration_topic_uniform self c K r HK HV PC TU)
    as (s1 & E1 & _ & s2 & E2 & _ & _ & E3).
  unfold iteration_body. rewrite E1. cbn [bind]. rewrite E2. cbn [bind].
  rewrite E3. cbn [bind]. fold D. fold V. rewrite L.
  fold (settled_likelihood c D K V). rewrite repeat_snoc.
  rewrite (converged_constant _ i epsilon (settled_likelihood c D K V)) by reflexivity.
  cbn [bind]. destruct (1 <=? i)%nat; [|reflexivity].
  destruct (Rlt_dec 0 epsilon); reflexivity.
Qed.

Lemma loop_settled (self : Corpus) (c : matrix) (K : nat) (epsilon : R) (n a : nat) :
  let D := number_of_documents self in
  let V := vocabulary_size self in
  (1 <= K)%nat -> (1 <= V)%nat -> (1 <= a)%nat ->
  proper_counts self c ->
  for_break (seq a n) (iteration_body (Z.of_nat K) epsilon)
    (settled self c K (repeat (settled_likelihood c D K V) a)) =
  Ok (settled self c K
        (repeat (settled_likelihood c D K V)
           (a + (if Rlt_dec 0 epsilon then Nat.min n 1 else n)))).
Proof.
  intros D V HK HV Ha PC. revert a Ha. induction n as [|n IH]; intros a Ha.
  - simpl. destruct (Rlt_dec 0 epsilon); rewrite Nat.add_0_r; reflexivity.
  - cbn [seq for_break].
    rewrite (iteration_body_topic_uniform (settled self c K _) c K _ epsilon a HK HV
               (settled_proper self c K _ PC) (settled_topic_uniform self c K _ HV PC)
               eq_refl).
    replace (1 <=? a)%nat with true by (symmetry; apply Nat.leb_le; exact Ha).
    set (s0 := settled self c K (repeat (settled_likelihood c D K V) a)).
    assert (Es : settled s0 c K
                   (repeat (settled_likelihood c (number_of_documents s0) K
                              (vocabulary_size s0)) (S a))
                 = settled self c K (repeat (settled_likelihood c D K V) (S a)))
      by reflexivity.
    rewrite Es. clear Es. subst s0.
    destruct (Rlt_dec 0 epsilon) as [Hp|Hn]; cbv beta iota.
    + replace (a + Nat.min (S n) 1)%nat with (S a) by lia. reflexivity.
    + rewrite (IH (S a)) by lia.
      destruct (Rlt_dec 0 epsilon); [contradiction|].
      replace (S a + n)%nat with (a + S n)%nat by lia. reflexivity.
Qed.

(** The whole loop from such tables and an empty trace. *)
Lemma em_loop_topic_uniform (self : Corpus) (c : matrix) (K : nat) (r : nat -> R)
  (max_iter : Z) (epsilon : R) :
  let D := number_of_documents self in
  let V := vocabulary_size self in
  (1 <= K)%nat -> (1 <= V)%nat ->
  proper_counts self c -> topic_uniform self K r ->
  likelihoods self = [] ->
  em_loop (Z.of_nat K) max_iter epsilon self =
  Ok (match iterations_run max_iter epsilon with
      | O => self
      | S n => settled self c K (repeat (settled_likelihood c D K V) (S n))
      end).
Proof.
  intros D V HK HV PC TU L. unfold em_loop, range, iterations_run.
  destruct (Z.to_nat max_iter) as [|n]; [reflexivity|].
  cbn [seq for_break].
  rewrite (iteration_body_topic_uniform self c K r epsilon 0 HK HV PC TU L).
  cbn [Nat.leb]. cbv beta iota.
  rewrite (loop_settled self c K epsilon n 1 HK HV (le_n 1) PC).
  reflexivity.
Qed.

(** ** Uniform initialisation, and draws that are all equal *)

Lemma normalize_constant (x : R) (r k : nat) :
  (1 <= k)%nat -> x <> 0 ->
  normalize (tabulate2 r k (fun _ _ => x)) = Ok (uniform r k).
Proof.
  intros Hk Hx. pose proof (INR_pos_neq k Hk) as Hn.
  rewrite normalize_tabulate2_ok.
  - f_equal. apply tabulate2_ext. intros i j _ _. rewrite big_sum_const.
    field. split; assumption.
  - intros i _. rewrite big_sum_const. apply Rmult_integral_contrapositive_currified; assumption.
Qed.

Lemma normalize_ones (r k : nat) :
  (1 <= k)%nat -> normalize (repeat (repeat 1 k) r) = Ok (uniform r k).
Proof.
  intros Hk. rewrite repeat_as_tabulate2. apply normalize_constant; [exact Hk | lra].
Qed.

Lemma initialize_uniformly_ok (self : Corpus) (K : nat) :
  vocabulary_size self = length (vocabulary self) ->
  (1 <= K)%nat -> (1 <= vocabulary_size self)%nat ->
  initialize_uniformly self (Z.of_nat K) =
  Ok (set_topic_word_prob
        (set_document_topic_prob self (uniform (number_of_documents self) K))
        (uniform K (vocabulary_size self))).
Proof.
  intros Lv HK HV. rewrite (initialize_uniformly_spec self K Lv).
  rewrite (normalize_ones _ K HK). cbn [bind].
  rewrite (normalize_ones _ _ HV). reflexivity.
Qed.

Lemma uniform_topic_uniform (self : Corpus) (K : nat) :
  (1 <= vocabulary_size self)%nat ->
  document_topic_prob self = Some (uniform (number_of_documents self) K) ->
  topic_word_prob self = Some (uniform K (vocabulary_size self)) ->
  topic_uniform self K (fun _ => 1 / INR (vocabulary_size self)).
Proof.
  intros HV Et Ep. split; [exact Et|]. split; [exact Ep|].
  intros w _. pose proof (INR_pos_neq _ HV) as Hn.
  unfold Rdiv. rewrite Rmult_1_l. apply Rinv_neq_0_compat, Hn.
Qed.

Lemma plsa_half (self : Corpus) (K : nat) (max_iter : Z) (epsilon : R) :
  loaded self -> (1 <= K)%nat -> (1 <= vocabulary_size self)%nat ->
  plsa half self (Z.of_nat K) max_iter epsilon =
  em_loop (Z.of_nat K) max_iter epsilon
    (started self K (uniform (number_of_documents self) K)
       (uniform K (vocabulary_size self))).
Proof.
  intros L HK HV. rewrite (plsa_spec half self K max_iter epsilon L).
  assert (Hh : 1 / 2 <> 0) by lra.
  unfold sample_theta, sample_phi, half.
  rewrite (normalize_constant (1 / 2) _ K HK Hh). cbn [bind].
  rewrite (normalize_constant (1 / 2) _ _ HV Hh). reflexivity.
Qed.

Lemma counts_nonneg (self : Corpus) (d w : nat) :
  (d < number_of_documents self)%nat -> (w < vocabulary_size self)%nat ->
  0 <= entry (counts self) d w.
Proof.
  intros Hd Hw. unfold counts. rewrite entry_tabulate2 by assumption. apply pos_INR.
Qed.

Lemma started_proper (self : Corpus) (K : nat) (theta phi : matrix) :
  (forall d, (d < number_of_documents self)%nat ->
     0 < row_total (counts self) (vocabulary_size self) d) ->
  (forall w, (w < vocabulary_size self)%nat ->
     0 < col_total (counts self) (number_of_documents self) w) ->
  proper_counts (started self K theta phi) (counts self).
Proof.
  intros Hrow Hcol. split; [reflexivity|]. split; [apply shape2_tabulate2|].
  split; [apply counts_nonneg|]. split; assumption.
Qed.

Lemma iteration_body_inv (K : Z) (epsilon : R) (i : nat) (s : Corpus) (r : flow Corpus) :
  iteration_body K epsilon i s = Ok r ->
  exists b, converged (state_of r) i epsilon = Ok b /\
            r = if b then Break (state_of r) else Continue (state_of r).
Proof.
  unfold iteration_body. intros H. bind_inv H. exists a2. subst r.
  destruct a2; simpl; split; auto.
Qed.

(** ** The three steps of an iteration *)

Lemma m_step_inv (c : matrix) (z : tensor) (D K V : nat) (phi' theta' : matrix) :
  m_step c z D K V = Ok (phi', theta') ->
  phi' = normalized (tabulate2 K V (expected_topic_word c z D)) /\
  theta' = normalized (tabulate2 D K (expected_document_topic c z V)) /\
  shape2 K V phi' /\ shape2 D K theta'.
Proof.
  unfold m_step. rewrite !row_normalization_normalize. intros H.
  destruct (normalize (tabulate2 K V (expected_topic_word c z D))) as [p| |] eqn:Ep;
    try discriminate.
  cbn [bind] in H.
  destruct (normalize (tabulate2 D K (expected_document_topic c z V))) as [t| |] eqn:Et;
    try discriminate.
  cbn [bind] in H. injection H as <- <-.
  destruct (normalize_inv _ _ Ep) as (_ & ->).
  destruct (normalize_inv _ _ Et) as (_ & ->).
  split; [reflexivity|]. split; [reflexivity|].
  split; apply shape2_normalized, shape2_tabulate2.
Qed.

Lemma m_step_never_exits (c : matrix) (z : tensor) (D K V : nat) (code : Z) :
  m_step c z D K V <> SystemExit code.
Proof.
  unfold m_step, row_normalization.
  destruct (existsb _ (tabulate2 K V _)); cbn [bind]; [discriminate|].
  destruct (existsb _ (tabulate2 D K _)); cbn [bind]; discriminate.
Qed.

Lemma fitted_m_step (self : Corpus) (K : nat) (c theta phi phi' theta' : matrix)
  (z : tensor) :
  fitted self K c theta phi z ->
  m_step c z (number_of_documents self) K (vocabulary_size self) = Ok (phi', theta') ->
  fitted (set_document_topic_prob (set_topic_word_prob self phi') theta') K c
    theta' phi' z.
Proof.
  intros (Ec & Et & Ep & Ez & Sc & St & Sp & Sz) H.
  destruct (m_step_inv _ _ _ _ _ _ _ H) as (_ & _ & Sp' & St').
  repeat split; try assumption; try apply Sc; try apply St'; try apply Sp'; apply Sz.
Qed.

Lemma fold_left_add (g : nat -> R) (l : list nat) (acc : R) :
  fold_left (fun total w => total + g w) l acc = fold_left Rplus (map g l) acc.
Proof.
  revert acc. induction l as [|w l IH]; intros acc; [reflexivity|].
  cbn [fold_left map]. apply IH.
Qed.

Lemma fold_left_add_map (V : nat) (g : nat -> R) (acc : R) :
  fold_left (fun total w => total + g w) (seq 0 V) acc = acc + big_sum V g.
Proof.
  unfold big_sum. rewrite (fold_left_Rplus (map g (seq 0 V)) 0), Rplus_0_l.
  rewrite <- fold_left_Rplus. apply fold_left_add.
Qed.

(** In exact arithmetic the running total is the sum of the row sums. *)
Lemma running_total_big_sum (D V : nat) (f : nat -> nat -> R) :
  running_total D V f = big_sum D (fun d => big_sum V (f d)).
Proof.
  unfold running_total.
  assert (H : forall l acc,
            fold_left (fun total d =>
              fold_left (fun total w => total + f d w) (seq 0 V) total) l acc
            = fold_left (fun total d => total + big_sum V (f d)) l acc).
  { induction l as [|d l IH]; intros acc; [reflexivity|].
    cbn [fold_left]. rewrite fold_left_add_map. apply IH. }
  rewrite H, fold_left_add_map. apply Rplus_0_l.
Qed.

(** An iteration that returns has run the E-step on the tables it found, the
    M-step on the posterior of that E-step, and the likelihood computation on
    the tables of that M-step. *)
Lemma iteration_body_steps (K : nat) (epsilon : R) (i : nat) (s : Corpus)
  (r : flow Corpus) (c theta phi : matrix) (z0 : tensor) :
  let D := number_of_documents s in
  let V := vocabulary_size s in
  fitted s K c theta phi z0 ->
  iteration_body (Z.of_nat K) epsilon i s = Ok r ->
  exists phi' theta',
    let z1 := tabulate3 D K V (posterior theta phi) in
    let s1 := set_topic_prob s z1 in
    let s2 := set_document_topic_prob (set_topic_word_prob s1 phi') theta' in
    let s3 := set_likelihoods s2
                (likelihoods s ++ [log_likelihood c theta' phi' D V]) in
    (forall d w, (d < D)%nat -> (w < V)%nat -> topic_mass theta phi d w <> 0) /\
    expectation_step s = Ok s1 /\
    m_step c z1 D K V = Ok (phi', theta') /\
    maximization_step s1 (Z.of_nat K) = Ok s2 /\
    fitted s2 K c theta' phi' z1 /\
    (forall d w, (d < D)%nat -> (w < V)%nat -> 0 < topic_mass theta' phi' d w) /\
    calculate_likelihood s2 (Z.of_nat K) = Ok s3 /\
    state_of r = s3.
Proof.
  intros D V F H.
  destruct (fitted_tables s K c theta phi z0 F) as (T & Lp).
  unfold iteration_body in H.
  destruct (expectation_step_spec s theta phi T) as [[Hmass E] | [_ E]];
    rewrite E in H; [|discriminate].
  cbn [bind] in H. rewrite Lp in H, E. fold D in H, E. fold V in H, E.
  set (z1 := tabulate3 D K V (posterior theta phi)) in *.
  set (s1 := set_topic_prob s z1) in *.
  assert (F1 : fitted s1 K c theta phi z1).
  { destruct F as (Ec & Et & Ep & _ & Sc & St & Sp & _).
    repeat split; try assumption; try apply Sc; try apply St; try apply Sp;
      try apply shape3_tabulate3; apply length_tabulate. }
  pose proof (maximization_step_spec s1 K c theta phi z1 F1) as EM.
  change (number_of_documents s1) with D in EM. change (vocabulary_size s1) with V in EM.
  destruct (m_step c z1 D K V) as [[phi' theta']| |] eqn:Em;
    cbn [bind fst snd] in EM; rewrite EM in H; try discriminate.
  cbn [bind] in H.
  pose proof (fitted_m_step s1 K c theta phi phi' theta' z1 F1 Em) as F2.
  set (s2 := set_document_topic_prob (set_topic_word_prob s1 phi') theta') in *.
  destruct (fitted_tables s2 K c theta' phi' z1 F2) as (T2 & Lp').
  assert (Ec2 : term_doc_matrix s2 = Some c) by apply F2.
  assert (Sc2 : shape2 (number_of_documents s2) (vocabulary_size s2) c) by apply F2.
  destruct (calculate_likelihood_spec s2 c theta' phi' T2 Ec2 Sc2) as [[Hm2 E3] | [_ E3]];
    rewrite Lp' in E3; rewrite E3 in H; [|discriminate].
  cbn [bind] in H. bind_inv H.
  exists phi', theta'. cbv zeta. fold z1. fold s1. fold s2.
  split; [exact Hmass|]. split; [exact E|]. split; [exact Em|].
  split; [exact EM|]. split; [exact F2|]. split; [exact Hm2|].
  split; [exact E3|]. subst r. destruct a; reflexivity.
Qed.

(** * Main results *)

(** ** The E-step *)


Lemma midfit_tables :
  tables midfit [[1 / 2; 1 / 2]] [[1 / 2; 1 / 2]; [1 / 4; 3 / 4]].
Proof.
  repeat split; repeat constructor.
Defined.

Lemma midfit_mass (d w : nat) :
  (d < 1)%nat -> (w < 2)%nat ->
  0 < topic_mass [[1 / 2; 1 / 2]] [[1 / 2; 1 / 2]; [1 / 4; 3 / 4]] d w.
Proof.
  intros Hd Hw. destruct d as [|d]; [|lia].
  destruct w as [|[|w]]; [| |lia]; unfold topic_mass, big_sum, entry; simpl; lra.
Defined.


(** ** The M-step *)

(** C4.  On a state that holds the counts, both tables and the posterior
    in their shapes, the M-step is the composition its description gives
    ([m_step]): Step A, for every topic k and term w the sum over the documents
    of C[d][w] * Z[d][k][w], then row normalisation of that K x V table; after
    it Step B, for every document d and topic k the sum over the terms of
    C[d][w] * Z[d][k][w], then row normalisation of that D x K table.  Both
    steps are functions of the counts and of the posterior alone, so neither
    reads what the other wrote; when the description gives tables the M-step
    stores them and leaves the posterior and the counts as they were, and when
    the description fails (a row that sums to zero) the M-step raises the same
    exception.  In the loop the posterior the M-step reads is the one the
    E-step of the same iteration has just stored, computed from the tables the
    iteration found. *)
Theorem maximization_step_refines (self : Corpus) (K : nat) (c theta phi : matrix)
  (z : tensor) :
  fitted self K c theta phi z ->
  let D := number_of_documents self in
  let V := vocabulary_size self in
  (forall phi' theta', m_step c z D K V = Ok (phi', theta') ->
     exists s', maximization_step self (Z.of_nat K) = Ok s' /\
       topic_word_prob s' = Some phi' /\ document_topic_prob s' = Some theta' /\
       topic_prob s' = Some z /\ term_doc_matrix s' = Some c) /\
  (forall e, m_step c z D K V = Raise e ->
     maximization_step self (Z.of_nat K) = Raise e) /\
  (forall code, m_step c z D K V <> SystemExit code) /\
  (forall epsilon i r, iteration_body (Z.of_nat K) epsilon i self = Ok r ->
     exists s1 z1 phi' theta',
       expectation_step self = Ok s1 /\ topic_prob s1 = Some z1 /\
       (forall d k w, (d < D)%nat -> (k < K)%nat -> (w < V)%nat ->
          entry3 z1 d k w = entry theta d k * entry phi k w / topic_mass theta phi d w) /\
       m_step c z1 D K V = Ok (phi', theta') /\
       topic_word_prob (state_of r) = Some phi' /\
       document_topic_prob (state_of r) = Some theta' /\
       topic_prob (state_of r) = Some z1).
Proof.
  intros F D V.
  pose proof (maximization_step_spec self K c theta phi z F) as E.
  fold D in E. fold V in E. split; [|split; [|split]].
  - intros phi' theta' Hm. rewrite Hm in E. cbn [bind fst snd] in E.
    eexists. split; [exact E|].
    destruct F as (Ec & _ & _ & Ez & _). repeat split; assumption.
  - intros e Hm. rewrite Hm in E. exact E.
  - intros code. apply m_step_never_exits.
  - intros epsilon i r H.
    destruct (iteration_body_steps K epsilon i self r c theta phi z F H)
      as (phi' & theta' & _ & E1 & Em & _ & _ & _ & _ & Er).
    fold D in E1, Em, Er. fold V in E1, Em, Er.
    exists (set_topic_prob self (tabulate3 D K V (posterior theta phi))),
           (tabulate3 D K V (posterior theta phi)), phi', theta'.
    split; [exact E1|]. split; [reflexivity|]. split.
    + intros d k w Hd Hk Hw. rewrite entry3_tabulate3 by assumption. reflexivity.
    + split; [exact Em|]. rewrite Er. repeat split.
Qed.

Lemma midfit_fitted :
  fitted midfit 2 [[2; 1]] [[1 / 2; 1 / 2]] [[1 / 2; 1 / 2]; [1 / 4; 3 / 4]]
    [[[1; 1]; [1; 1]]].
Proof.
  repeat split; repeat constructor.
Defined.

Lemma maximization_step_refines_witness :
  exists s',
    maximization_step midfit 2 = Ok s' /\
    topic_word_prob s' = Some (normalized [[0 + 2 * 1; 0 + 1 * 1]; [0 + 2 * 1; 0 + 1 * 1]]) /\
    document_topic_prob s' = Some (normalized [[0 + 2 * 1 + 1 * 1; 0 + 2 * 1 + 1 * 1]]).
Proof.
  destruct (proj1 (maximization_step_refines midfit 2 _ _ _ _ midfit_fitted)
              (normalized [[0 + 2 * 1; 0 + 1 * 1]; [0 + 2 * 1; 0 + 1 * 1]])
              (normalized [[0 + 2 * 1 + 1 * 1; 0 + 2 * 1 + 1 * 1]]))
    as (s' & E & Hp & Ht & _).
  - unfold m_step. rewrite !row_normalization_normalize.
    rewrite normalize_ok
      by (repeat constructor; unfold big_sum, expected_topic_word, big_sum, entry,
            entry3, entry, row_sum; simpl; lra).
    cbn [bind]. rewrite normalize_ok
      by (repeat constructor; unfold big_sum, expected_document_topic, big_sum, entry,
            entry3, entry, row_sum; simpl; lra).
    reflexivity.
  - exists s'. repeat split; assumption.
Defined.

(** ** The likelihood trace *)

(** C8.  On a state with well-shaped tables and counts in which every
    mixture probability is positive, [calculate_likelihood] appends to the
    trace the one number it gets by adding up, from 0, over the documents in
    order and the terms of each document in order, C[d][w] times the logarithm
    to base 2 (ln x / ln 2, as [math.log(x, 2)] computes it) of the mixture
    probability sum over k of theta[d][k] * phi[k][w]; it changes nothing else.
    In an iteration of the loop that number is computed after the M-step, from
    the tables that the M-step of this iteration has stored, which are the
    tables the iteration leaves.  Every completed iteration appends exactly one
    number, and the loop never removes or rewrites what the trace already
    holds. *)
Theorem likelihood_trace (self : Corpus) (c theta phi : matrix) :
  let D := number_of_documents self in
  let V := vocabulary_size self in
  (tables self theta phi ->
   term_doc_matrix self = Some c ->
   shape2 D V c ->
   (forall d w, (d < D)%nat -> (w < V)%nat -> 0 < topic_mass theta phi d w) ->
   exists s',
     calculate_likelihood self (Z.of_nat (length phi)) = Ok s' /\
     likelihoods s' =
       likelihoods self ++
       [running_total D V (fun d w =>
          entry c d w *
          (ln (big_sum (length phi) (fun k => entry theta d k * entry phi k w)) / ln 2))] /\
     document_topic_prob s' = Some theta /\ topic_word_prob s' = Some phi /\
     term_doc_matrix s' = Some c /\ topic_prob s' = topic_prob self) /\
  (forall K z epsilon i r,
     fitted self K c theta phi z ->
     iteration_body (Z.of_nat K) epsilon i self = Ok r ->
     exists s1 s2 theta' phi',
       expectation_step self = Ok s1 /\
       maximization_step s1 (Z.of_nat K) = Ok s2 /\
       document_topic_prob s2 = Some theta' /\ topic_word_prob s2 = Some phi' /\
       document_topic_prob (state_of r) = Some theta' /\
       topic_word_prob (state_of r) = Some phi' /\
       likelihoods (state_of r) =
         likelihoods self ++
         [running_total D V (fun d w =>
            entry c d w *
            (ln (big_sum K (fun k => entry theta' d k * entry phi' k w)) / ln 2))]) /\
  (forall K epsilon i s r, iteration_body K epsilon i s = Ok r ->
     exists x, likelihoods (state_of r) = likelihoods s ++ [x]) /\
  (forall K max_iter epsilon s s', em_loop K max_iter epsilon s = Ok s' ->
     exists xs, likelihoods s' = likelihoods s ++ xs /\
                (length xs <= Z.to_nat max_iter)%nat).
Proof.
  intros D V. split; [|split; [|split]].
  - intros T Ec Sc H.
    destruct (calculate_likelihood_spec self c theta phi T Ec Sc)
      as [[_ E] | [(d & w & Hd & Hw & Hn) _]].
    + eexists. split; [exact E|]. split.
      * cbn [likelihoods set_likelihoods]. f_equal. f_equal.
        fold D. fold V. unfold log_likelihood. symmetry. apply running_total_big_sum.
      * destruct T as (Et & Ep & _). repeat split; assumption.
    + exfalso. exact (Hn (H d w Hd Hw)).
  - intros K z epsilon i r F H.
    destruct (iteration_body_steps K epsilon i self r c theta phi z F H)
      as (phi' & theta' & _ & E1 & _ & E2 & F2 & _ & _ & Er).
    fold D in E1, E2, F2, Er. fold V in E1, E2, F2, Er.
    destruct (fitted_tables _ K c theta' phi' _ F2) as (_ & Lp').
    eexists. eexists. exists theta', phi'.
    split; [exact E1|]. split; [exact E2|]. rewrite Er.
    split; [reflexivity|]. split; [reflexivity|].
    split; [reflexivity|]. split; [reflexivity|].
    cbn [likelihoods set_likelihoods]. f_equal. f_equal.
    unfold log_likelihood. rewrite running_total_big_sum.
    unfold log2, topic_mass. rewrite Lp'. reflexivity.
  - intros K epsilon i s r H. apply (iteration_body_frame K epsilon i s r H).
  - intros K max_iter epsilon s s' H. apply (em_loop_trace K max_iter epsilon s s' H).
Qed.

Lemma likelihood_trace_witness :
  exists s',
    calculate_likelihood midfit 2 = Ok s' /\
    likelihoods s' =
      [0 + 2 * (ln (0 + 1 / 2 * (1 / 2) + 1 / 2 * (1 / 4)) / ln 2)
         + 1 * (ln (0 + 1 / 2 * (1 / 2) + 1 / 2 * (3 / 4)) / ln 2)].
Proof.
  destruct (proj1 (likelihood_trace midfit [[2; 1]] [[1 / 2; 1 / 2]]
                     [[1 / 2; 1 / 2]; [1 / 4; 3 / 4]]) midfit_tables eq_refl)
    as (s' & E & Hl & _).
  - repeat split; repeat constructor.
  - exact midfit_mass.
  - exists s'. split; [exact E | exact Hl].
Defined.

(** ** The term-document matrix *)

(** C9.  For a corpus whose stored sizes are those of its document and
    vocabulary lists, [build_term_doc_matrix] returns and stores, in the
    attribute the later steps read, a D x V matrix whose entry (d, w) is the
    number of occurrences of vocabulary term [w] in document [d]; it changes
    nothing else.  The E-step, the M-step, the likelihood computation and the
    whole loop return states that hold the matrix they were given. *)
Theorem term_doc_matrix_counts (self : Corpus) :
  loaded self ->
  (exists s' c,
     build_term_doc_matrix self = Ok s' /\
     term_doc_matrix s' = Some c /\
     shape2 (number_of_documents self) (vocabulary_size self) c /\
     (forall d w, (d < number_of_documents self)%nat -> (w < vocabulary_size self)%nat ->
        get2 c d w =
        Ok (INR (count_occ string_dec (nth d (documents self) [])
                   (nth w (vocabulary self) EmptyString)))) /\
     documents s' = documents self /\ vocabulary s' = vocabulary self /\
     number_of_documents s' = number_of_documents self /\
     vocabulary_size s' = vocabulary_size self /\
     likelihoods s' = likelihoods self /\
     document_topic_prob s' = document_topic_prob self /\
     topic_word_prob s' = topic_word_prob self /\
     topic_prob s' = topic_prob self) /\
  (forall s s', expectation_step s = Ok s' -> term_doc_matrix s' = term_doc_matrix s) /\
  (forall s K s', maximization_step s K = Ok s' -> term_doc_matrix s' = term_doc_matrix s) /\
  (forall s K s', calculate_likelihood s K = Ok s' -> term_doc_matrix s' = term_doc_matrix s) /\
  (forall s K epsilon i r, iteration_body K epsilon i s = Ok r ->
     term_doc_matrix (state_of r) = term_doc_matrix s) /\
  (forall s K max_iter epsilon s', em_loop K max_iter epsilon s = Ok s' ->
     term_doc_matrix s' = term_doc_matrix s).
Proof.
  intros L. split; [|split; [|split; [|split; [|split]]]].
  - exists (set_term_doc_matrix self (counts self)), (counts self).
    split; [apply build_term_doc_matrix_ok, L|]. split; [reflexivity|].
    split; [apply shape2_tabulate2|]. split; [|repeat split].
    intros d w Hd Hw. unfold counts.
    rewrite (get2_ok _ _ _ d w (shape2_tabulate2 _ _ _) Hd Hw).
    rewrite entry_tabulate2 by assumption. reflexivity.
  - intros s s' H. apply expectation_step_frame in H. apply H.
  - intros s K s' H. apply maximization_step_frame in H. apply H.
  - intros s K s' H. apply calculate_likelihood_frame in H. apply H.
  - intros s K epsilon i r H. apply iteration_body_frame in H. apply H.
  - intros s K max_iter epsilon s' H. apply em_loop_trace in H. apply H.
Qed.

Lemma term_doc_matrix_counts_witness :
  exists s' c,
    build_term_doc_matrix cats = Ok s' /\ term_doc_matrix s' = Some c /\
    get2 c 0 1 = Ok 1 /\ get2 c 1 1 = Ok 0 /\ get2 c 1 3 = Ok 1.
Proof.
  destruct (proj1 (term_doc_matrix_counts cats (conj eq_refl eq_refl)))
    as (s' & c & E & Ec & _ & H & _).
  exists s', c. split; [exact E|]. split; [exact Ec|]. repeat split.
  - apply (H 0%nat 1%nat); simpl; lia.
  - apply (H 1%nat 1%nat); simpl; lia.
  - apply (H 1%nat 3%nat); simpl; lia.
Defined.

(** ** Uniform tables *)

Lemma iterations_run_positive (max_iter : Z) (epsilon : R) :
  (2 <= max_iter)%Z -> 0 < epsilon -> iterations_run max_iter epsilon = 2%nat.
Proof.
  intros Hm He. unfold iterations_run.
  destruct (Z.to_nat max_iter) as [|[|n]] eqn:E; try lia.
  destruct (Rlt_dec 0 epsilon); [f_equal; lia | contradiction].
Qed.


Lemma iterations_run_one (epsilon : R) : iterations_run 1 epsilon = 1%nat.
Proof.
  unfold iterations_run. change (Z.to_nat 1) with 1%nat. cbv iota.
  destruct (Rlt_dec 0 epsilon); reflexivity.
Qed.

Lemma skewed_uniform_proper : proper_counts skewed_uniform [[2; 1]].
Proof.
  split; [reflexivity|]. split; [repeat split; repeat constructor|].
  split; [|split].
  - intros d w Hd Hw. destruct d as [|d]; [|simpl in Hd; lia].
    destruct w as [|[|w]]; [| |simpl in Hw; lia]; unfold entry; simpl; lra.
  - intros d Hd. destruct d as [|d]; [|simpl in Hd; lia].
    unfold row_total, big_sum, entry; simpl; lra.
  - intros w Hw.
    destruct w as [|[|w]]; [| |simpl in Hw; lia]; unfold col_total, big_sum, entry; simpl; lra.
Defined.

(** The state [skewed_uniform] is what building the matrix of [skewed] and
    initialising uniformly with one topic give. *)
Lemma skewed_uniform_reached :
  exists s1, build_term_doc_matrix skewed = Ok s1 /\
             initialize_uniformly s1 1 = Ok skewed_uniform.
Proof.
  eexists. split; [apply build_term_doc_matrix_ok; split; reflexivity|].
  change 1%Z with (Z.of_nat 1).
  rewrite initialize_uniformly_ok; [reflexivity | reflexivity | lia | simpl; lia].
Qed.




(** ** The convergence test *)

Lemma single_proper (K : nat) (theta phi : matrix) :
  proper_counts (started single K theta phi) (counts single).
Proof.
  apply started_proper.
  - intros d Hd. destruct d as [|d]; [|simpl in Hd; lia].
    unfold row_total, big_sum, entry; simpl; lra.
  - intros w Hw. destruct w as [|w]; [|simpl in Hw; lia].
    unfold col_total, big_sum, entry; simpl; lra.
Qed.

(** C6, as the code has it.  The test is not made in the first iteration
    (index 0).  From index 1 on it reads the trace at the current index and at
    the one before, and nothing else, and succeeds exactly when the absolute
    difference of the two is strictly below epsilon; the loop breaks exactly
    when it succeeds.  So a run from an empty trace that returns, with a budget
    of at least 2 and an epsilon above every difference between trace entries,
    has made exactly 2 iterations; with a budget of 1 it has made exactly
    1. *)
Theorem convergence_test (K : Z) (epsilon : R) :
  (forall s, converged s 0 epsilon = Ok false) /\
  (forall s i a b, (1 <= i)%nat ->
     nth_error (likelihoods s) i = Some a ->
     nth_error (likelihoods s) (i - 1) = Some b ->
     converged s i epsilon = Ok (if Rlt_dec (Rabs (a - b)) epsilon then true else false)) /\
  (forall i s r, iteration_body K epsilon i s = Ok r ->
     exists b, converged (state_of r) i epsilon = Ok b /\
               r = if b then Break (state_of r) else Continue (state_of r)) /\
  (forall max_iter s s',
     (2 <= max_iter)%Z -> likelihoods s = [] ->
     em_loop K max_iter epsilon s = Ok s' ->
     (forall a b, In a (likelihoods s') -> In b (likelihoods s') -> Rabs (a - b) < epsilon) ->
     length (likelihoods s') = 2%nat) /\
  (forall s s', likelihoods s = [] -> em_loop K 1 epsilon s = Ok s' ->
     length (likelihoods s') = 1%nat).
Proof.
  split; [intros s; apply converged_first|].
  split; [intros s i a b; apply converged_at|].
  split; [intros i s r; apply iteration_body_inv|].
  split.
  - intros max_iter s s' Hm L H Hgap. unfold em_loop, range in H.
    destruct (Z.to_nat max_iter) as [|[|n]] eqn:En; try lia.
    cbn [seq for_break] in H.
    destruct (iteration_body K epsilon 0 s) as [r0| |] eqn:E0; try discriminate.
    destruct (iteration_body_frame _ _ _ _ _ E0) as (_ & x0 & L0).
    destruct (iteration_body_inv _ _ _ _ _ E0) as (b0 & C0 & R0).
    rewrite converged_first in C0. injection C0 as <-.
    rewrite R0 in H. rewrite L in L0. simpl in L0.
    destruct (iteration_body K epsilon 1 (state_of r0)) as [r1| |] eqn:E1; try discriminate.
    destruct (iteration_body_frame _ _ _ _ _ E1) as (_ & x1 & L1).
    destruct (iteration_body_inv _ _ _ _ _ E1) as (b1 & C1 & R1).
    rewrite L0 in L1. simpl in L1.
    rewrite (converged_at (state_of r1) 1 epsilon x1 x0) in C1
      by (try lia; rewrite L1; reflexivity).
    injection C1 as <-. rewrite R1 in H.
    destruct (Rlt_dec (Rabs (x1 - x0)) epsilon) as [Hlt|Hge].
    + injection H as <-. rewrite L1. reflexivity.
    + exfalso. apply Hge.
      apply for_break_trace in H. destruct H as (_ & xs & Hxs & _).
      rewrite L1 in Hxs.
      apply Hgap; rewrite Hxs; simpl; auto.
  - intros s s' L H. unfold em_loop, range in H.
    change (Z.to_nat 1) with 1%nat in H. cbn [seq for_break] in H.
    destruct (iteration_body K epsilon 0 s) as [r0| |] eqn:E0; try discriminate.
    destruct (iteration_body_frame _ _ _ _ _ E0) as (_ & x0 & L0).
    rewrite L in L0.
    destruct r0 as [s0|s0]; injection H as <-; simpl in L0; rewrite L0; reflexivity.
Qed.

Lemma convergence_test_witness :
  exists s', em_loop 1 50 1000 skewed_uniform = Ok s' /\
             length (likelihoods s') = 2%nat.
Proof.
  pose proof (em_loop_topic_uniform skewed_uniform [[2; 1]] 1 (fun _ => 1 / INR 2) 50 1000
                (le_n 1) (le_S 1 1 (le_n 1)) skewed_uniform_proper
                (uniform_topic_uniform skewed_uniform 1 (le_S 1 1 (le_n 1)) eq_refl eq_refl)
                eq_refl) as E.
  rewrite (iterations_run_positive 50 1000) in E by (try lia; lra).
  eexists. split; [exact E|].
  apply (proj1 (proj2 (proj2 (proj2 (convergence_test 1 1000)))) 50%Z skewed_uniform _
           ltac:(lia) eq_refl E).
  intros a b Ha Hb. apply repeat_spec in Ha, Hb. subst a b.
  replace (_ - _) with 0 by lra. rewrite Rabs_R0. lra.
Defined.

(** With a budget of one iteration the fit stops after one iteration,
    however large epsilon is. *)
Lemma one_iteration_budget :
  exists s', plsa half single 1 1 1000 = Ok s' /\ length (likelihoods s') = 1%nat.
Proof.
  pose proof (plsa_half single 1 1 1000 (conj eq_refl eq_refl) (le_n 1) (le_n 1)) as E.
  pose proof (em_loop_topic_uniform (started single 1 (uniform 1 1) (uniform 1 1))
                (counts single) 1 (fun _ => 1 / INR 1) 1 1000
                (le_n 1) (le_n 1) (single_proper 1 _ _)
                (uniform_topic_uniform (started single 1 (uniform 1 1) (uniform 1 1)) 1
                   (le_n 1) eq_refl eq_refl) eq_refl) as E'.
  rewrite iterations_run_one in E'.
  eexists. split; [exact (eq_trans E E')|]. reflexivity.
Qed.

(** ** A cell without topic mass *)

(** C1, as the code has it.  On well-shaped tables, the body of the
    E-step's loops, run for a document and a term whose topic mass is 0, does
    not divide and does not raise: it calls [exit(0)].  So when some cell has
    topic mass 0 the E-step, the loop and with them the fit end with the
    interpreter's exit status 0; no exception reaches the caller. *)
Theorem expectation_step_degenerate (self : Corpus) (theta phi : matrix) :
  tables self theta phi ->
  (forall z d w,
     topic_prob self = Some z ->
     shape3 (number_of_documents self) (length phi) (vocabulary_size self) z ->
     (d < number_of_documents self)%nat -> (w < vocabulary_size self)%nat ->
     topic_mass theta phi d w = 0 ->
     expectation_cell d w self = SystemExit 0) /\
  ((exists d w, (d < number_of_documents self)%nat /\ (w < vocabulary_size self)%nat /\
      topic_mass theta phi d w = 0) ->
   expectation_step self = SystemExit 0 /\
   forall K max_iter epsilon, (1 <= max_iter)%Z ->
     em_loop K max_iter epsilon self = SystemExit 0).
Proof.
  intros T. split.
  - intros z d w Ez Sz Hd Hw E0.
    destruct (expectation_cell_spec self theta phi z d w T Ez Sz Hd Hw)
      as [(Hne & _) | (_ & E)]; [contradiction | exact E].
  - intros H. pose proof (expectation_step_exit self theta phi T H) as E.
    split; [exact E|]. intros K max_iter epsilon Hm. apply em_loop_exit; assumption.
Qed.

Lemma expectation_step_degenerate_witness :
  expectation_step degenerate = SystemExit 0 /\
  em_loop 1 50 (1 / 1000) degenerate = SystemExit 0.
Proof.
  destruct (proj2 (expectation_step_degenerate degenerate [[1]] [[1; 0]]
                     ltac:(repeat split; repeat constructor))) as (E & H).
  - exists 0%nat, 1%nat. split; [simpl; lia|]. split; [simpl; lia|].
    unfold topic_mass, big_sum, entry; simpl; lra.
  - split; [exact E|]. apply H. lia.
Defined.

(** A fit in which the third draw of the generator is 0 ends with exit
    status 0, and with no exception. *)
Lemma plsa_exits_on_zero_mass :
  plsa third_zero pair 1 5 (1 / 1000) = SystemExit 0 /\
  forall e, plsa third_zero pair 1 5 (1 / 1000) <> Raise e.
Proof.
  assert (E : plsa third_zero pair 1 5 (1 / 1000) = SystemExit 0).
  { change 1%Z with (Z.of_nat 1) at 1.
    rewrite (plsa_spec third_zero pair 1 5 _ (conj eq_refl eq_refl)).
    change (number_of_documents pair) with 1%nat.
    change (vocabulary_size pair) with 2%nat.
    unfold sample_theta, sample_phi.
    rewrite normalize_tabulate2_ok.
    2:{ intros i Hi. destruct i as [|i]; [|lia].
        unfold big_sum, third_zero; simpl; lra. }
    cbn [bind]. rewrite normalize_tabulate2_ok.
    2:{ intros i Hi. destruct i as [|i]; [|lia].
        unfold big_sum, third_zero; simpl; lra. }
    cbn [bind]. apply em_loop_exit; [lia|].
    match goal with
    | |- expectation_step (started pair 1 ?t ?p) = _ =>
        apply (expectation_step_exit _ t p)
    end.
    - eapply fitted_tables. apply fitted_started; apply shape2_tabulate2.
    - exists 0%nat, 1%nat. split; [simpl; lia|]. split; [simpl; lia|].
      unfold topic_mass, big_sum, entry, third_zero; simpl.
      unfold Rdiv. ring. }
  split; [exact E|]. intros e H. rewrite E in H. discriminate.
Qed.

(** ** Arguments outside their ranges *)

Lemma plsa_zero_topics (rnd : nat -> R) (self : Corpus) (max_iter : Z) (epsilon : R) :
  loaded self -> (1 <= number_of_documents self)%nat ->
  plsa rnd self 0 max_iter epsilon = Raise RowsSumToZero.
Proof.
  intros L HD. change 0%Z with (Z.of_nat 0).
  rewrite (plsa_spec rnd self 0 max_iter epsilon L).
  unfold sample_theta.
  rewrite (normalize_tabulate2_raise _ 0 _ 0%nat); [reflexivity | lia | apply big_sum_0].
Qed.

Lemma iteration_continues (K : Z) (epsilon : R) (i : nat) (s : Corpus) (r : flow Corpus) :
  epsilon <= 0 -> iteration_body K epsilon i s = Ok r -> r = Continue (state_of r).
Proof.
  intros He H. destruct (iteration_body_inv K epsilon i s r H) as (b & C & R).
  apply (converged_never _ _ _ _ He) in C. subst b. exact R.
Qed.

(** C3, as the code has it.  [plsa] checks none of its arguments.  Its
    first statement builds the term-document matrix, before any argument is
    looked at: on an instance whose matrix cannot be built the call fails with
    the builder's exception whatever the topic count, the budget and epsilon
    are.  On a loaded corpus a negative topic count raises ValueError (from
    [np.zeros]); a topic count of 0 with at least one document raises the
    row-sums-to-zero exception of [normalize]; an iteration budget of 0 or
    less is accepted: once the drawn tables are normalised the call returns
    normally, with the matrix and both tables in place and no iteration run;
    an epsilon of 0 or less is accepted too, and no iteration then breaks the
    loop. *)
Theorem no_argument_validation (rnd : nat -> R) (self : Corpus) (epsilon : R) :
  (forall K max_iter e, build_term_doc_matrix self = Raise e ->
     plsa rnd self K max_iter epsilon = Raise e) /\
  (loaded self ->
   (forall K max_iter, (K < 0)%Z ->
      plsa rnd self K max_iter epsilon = Raise ValueError) /\
   (forall max_iter, (1 <= number_of_documents self)%nat ->
      plsa rnd self 0 max_iter epsilon = Raise RowsSumToZero) /\
   (forall (K : nat) max_iter theta phi, (max_iter <= 0)%Z ->
      normalize (sample_theta rnd (number_of_documents self) K) = Ok theta ->
      normalize (sample_phi rnd (number_of_documents self) K (vocabulary_size self)) = Ok phi ->
      exists s', plsa rnd self (Z.of_nat K) max_iter epsilon = Ok s' /\
        term_doc_matrix s' = Some (counts self) /\
        document_topic_prob s' = Some theta /\
        topic_word_prob s' = Some phi /\
        likelihoods s' = likelihoods self) /\
   (epsilon <= 0 -> forall K i s r,
      iteration_body K epsilon i s = Ok r -> r = Continue (state_of r))).
Proof.
  split.
  - intros K max_iter e H. unfold plsa. rewrite H. reflexivity.
  - intros L.
    split; [intros K max_iter HK; apply plsa_negative_topics; assumption|].
    split; [intros max_iter HD; apply plsa_zero_topics; assumption|].
    split.
    + intros K max_iter theta phi Hm Et Ep.
      exists (started self K theta phi). split; [|repeat split].
      rewrite (plsa_spec rnd self K max_iter epsilon L), Et. cbn [bind].
      rewrite Ep. cbn [bind]. apply em_loop_no_budget, Hm.
    + intros He K i s r. apply iteration_continues, He.
Qed.

Lemma no_argument_validation_witness :
  plsa half unbuildable (-1) 0 (1 / 1000) = Raise IndexError /\
  (exists s', plsa half single 1 0 (1 / 1000) = Ok s' /\
     term_doc_matrix s' = Some [[1]]) /\
  plsa half single (-1) 50 (1 / 1000) = Raise ValueError /\
  plsa half single 0 50 (1 / 1000) = Raise RowsSumToZero.
Proof.
  split.
  - apply (proj1 (no_argument_validation half unbuildable (1 / 1000))). reflexivity.
  - destruct (proj2 (no_argument_validation half single (1 / 1000)) (conj eq_refl eq_refl))
      as (Hneg & Hzero & Hbudget & _).
    split; [|split].
    + destruct (Hbudget 1%nat 0%Z (uniform 1 1) (uniform 1 1)) as (s' & E & Hc & _).
      * lia.
      * apply (normalize_constant (1 / 2) 1 1); [lia | lra].
      * apply (normalize_constant (1 / 2) 1 1); [lia | lra].
      * exists s'. split; [exact E | exact Hc].
    + apply Hneg. lia.
    + apply Hzero. simpl. lia.
Defined.

(** A call with an iteration budget of 0 builds the matrix, initialises
    both tables and returns normally; a call with a negative epsilon runs its
    iteration and returns normally. *)
Lemma plsa_accepts_bad_arguments :
  (exists s', plsa half single 1 0 (1 / 1000) = Ok s' /\
     term_doc_matrix s' = Some [[1]] /\
     document_topic_prob s' = Some (uniform 1 1) /\
     topic_word_prob s' = Some (uniform 1 1)) /\
  (exists s', plsa half single 1 1 (-1) = Ok s' /\ length (likelihoods s') = 1%nat).
Proof.
  split.
  - exists (started single 1 (uniform 1 1) (uniform 1 1)). split; [|repeat split].
    rewrite (plsa_half single 1 0 _ (conj eq_refl eq_refl) (le_n 1) (le_n 1)).
    apply em_loop_no_budget. lia.
  - pose proof (plsa_half single 1 1 (-1) (conj eq_refl eq_refl) (le_n 1) (le_n 1)) as E.
    pose proof (em_loop_topic_uniform (started single 1 (uniform 1 1) (uniform 1 1))
                  (counts single) 1 (fun _ => 1 / INR 1) 1 (-1)
                  (le_n 1) (le_n 1) (single_proper 1 _ _)
                  (uniform_topic_uniform (started single 1 (uniform 1 1) (uniform 1 1)) 1
                     (le_n 1) eq_refl eq_refl) eq_refl) as E'.
    rewrite iterations_run_one in E'.
    eexists. split; [exact (eq_trans E E')|]. reflexivity.
Qed.

(** ** An empty document *)

Lemma counts_empty_row (self : Corpus) (d w : nat) :
  nth d (documents self) [] = [] ->
  (d < number_of_documents self)%nat -> (w < vocabulary_size self)%nat ->
  entry (counts self) d w = 0.
Proof.
  intros He Hd Hw. unfold counts. rewrite entry_tabulate2 by assumption.
  unfold occurrences. rewrite He. reflexivity.
Qed.

Lemma counts_occurring (self : Corpus) (d w : nat) :
  In (nth w (vocabulary self) EmptyString) (nth d (documents self) []) ->
  (d < number_of_documents self)%nat -> (w < vocabulary_size self)%nat ->
  0 < entry (counts self) d w.
Proof.
  intros Hin Hd Hw. unfold counts. rewrite entry_tabulate2 by assumption.
  unfold occurrences. apply lt_0_INR.
  apply (count_occ_In string_dec) in Hin. lia.
Qed.

Lemma expected_document_topic_empty (c : matrix) (z : tensor) (V d k : nat) :
  (forall w, (w < V)%nat -> entry c d w = 0) ->
  expected_document_topic c z V d k = 0.
Proof.
  intros H. unfold expected_document_topic. apply big_sum_zero.
  intros w Hw. rewrite (H w Hw). lra.
Qed.

Lemma theta_normalisation_empty (c : matrix) (z : tensor) (D K V d : nat) :
  (d < D)%nat -> (forall w, (w < V)%nat -> entry c d w = 0) ->
  normalize (tabulate2 D K (expected_document_topic c z V)) = Raise RowsSumToZero.
Proof.
  intros Hd H. apply (normalize_tabulate2_raise _ _ _ d Hd).
  apply big_sum_zero. intros k _. apply expected_document_topic_empty, H.
Qed.

(** On counts with an all-zero row the M-step cannot return. *)
Lemma maximization_step_empty (self : Corpus) (K : nat) (c theta phi : matrix)
  (z : tensor) (d : nat) :
  fitted self K c theta phi z ->
  (d < number_of_documents self)%nat ->
  (forall w, (w < vocabulary_size self)%nat -> entry c d w = 0) ->
  maximization_step self (Z.of_nat K) = Raise RowsSumToZero.
Proof.
  intros F Hd H. rewrite (maximization_step_spec self K c theta phi z F).
  unfold m_step. rewrite !row_normalization_normalize.
  destruct (normalize_cases (tabulate2 K (vocabulary_size self)
              (expected_topic_word c z (number_of_documents self)))) as [[_ E] | [_ E]];
    rewrite E; cbn [bind]; [|reflexivity].
  rewrite (theta_normalisation_empty c z _ K _ d Hd H). reflexivity.
Qed.

Lemma normalize_shape (r c : nat) (m m' : matrix) :
  shape2 r c m -> normalize m = Ok m' -> shape2 r c m'.
Proof.
  intros S H. destruct (normalize_cases m) as [[_ E] | [_ E]]; rewrite E in H.
  - injection H as <-. apply shape2_normalized, S.
  - discriminate.
Qed.

(** With an empty document in the corpus no call of [plsa] with a
    positive budget returns normally, whatever is drawn. *)
Lemma plsa_empty_document_never_returns (rnd : nat -> R) (self : Corpus)
  (K max_iter : Z) (epsilon : R) (d : nat) :
  loaded self -> (1 <= max_iter)%Z ->
  (d < number_of_documents self)%nat -> nth d (documents self) [] = [] ->
  forall s', plsa rnd self K max_iter epsilon <> Ok s'.
Proof.
  intros L Hm Hd He s' H.
  destruct (Z.ltb_spec K 0) as [HK|HK].
  { rewrite (plsa_negative_topics rnd self K max_iter epsilon L HK) in H. discriminate. }
  rewrite <- (Z2Nat.id K HK) in H.
  rewrite (plsa_spec rnd self (Z.to_nat K) max_iter epsilon L) in H.
  set (k := Z.to_nat K) in *.
  destruct (normalize (sample_theta rnd (number_of_documents self) k)) as [theta| |] eqn:Et;
    try discriminate.
  cbn [bind] in H.
  destruct (normalize (sample_phi rnd (number_of_documents self) k (vocabulary_size self)))
    as [phi| |] eqn:Ep; try discriminate.
  cbn [bind] in H.
  assert (St : shape2 (number_of_documents self) k theta)
    by (apply (normalize_shape _ _ _ _ (shape2_tabulate2 _ _ _) Et)).
  assert (Sp : shape2 k (vocabulary_size self) phi)
    by (apply (normalize_shape _ _ _ _ (shape2_tabulate2 _ _ _) Ep)).
  pose proof (fitted_started self k theta phi St Sp) as F.
  destruct (fitted_tables _ _ _ _ _ _ F) as (T & Lp).
  unfold em_loop, range in H.
  destruct (Z.to_nat max_iter) as [|n] eqn:En; [lia|].
  cbn [seq for_break] in H. unfold iteration_body in H.
  destruct (expectation_step_spec _ theta phi T) as [[_ E] | [_ E]]; rewrite E in H;
    cbn [bind] in H; [|discriminate].
  rewrite Lp in H.
  rewrite (maximization_step_empty _ k (counts self) theta phi
             (tabulate3 (number_of_documents self) k (vocabulary_size self)
                (posterior theta phi)) d) in H.
  - discriminate.
  - destruct F as (Ec & Et' & Ep' & Ez & Sc & St' & Sp' & Sz).
    repeat split; try assumption; try apply Sc; try apply St'; try apply Sp';
      try apply shape3_tabulate3; apply length_tabulate.
  - exact Hd.
  - intros w Hw. apply counts_empty_row; assumption.
Qed.

Lemma big_sum_pos_all (n : nat) (f : nat -> R) :
  (1 <= n)%nat -> (forall i, (i < n)%nat -> 0 < f i) -> 0 < big_sum n f.
Proof.
  intros Hn H. apply (big_sum_pos n f 0%nat).
  - intros i Hi. apply Rlt_le, H, Hi.
  - lia.
  - apply H. lia.
Qed.

(** Normalising a table of positive entries gives a table of positive
    entries. *)
Lemma normalize_positive (r c : nat) (f : nat -> nat -> R) :
  (1 <= c)%nat -> (forall i j, 0 < f i j) ->
  exists m, normalize (tabulate2 r c f) = Ok m /\ shape2 r c m /\
    forall i j, (i < r)%nat -> (j < c)%nat -> 0 < entry m i j.
Proof.
  intros Hc Hf.
  assert (Hs : forall i, 0 < big_sum c (f i)).
  { intros i. apply big_sum_pos_all; [exact Hc | intros j _; apply Hf]. }
  eexists. split; [|split].
  - apply normalize_tabulate2_ok. intros i _. apply Rgt_not_eq, Rlt_gt, Hs.
  - apply shape2_tabulate2.
  - intros i j Hi Hj. rewrite entry_tabulate2 by assumption.
    apply Rdiv_lt_0_compat; [apply Hf | apply Hs].
Qed.

Lemma topic_mass_positive (D K V : nat) (theta phi : matrix) (d w : nat) :
  (1 <= K)%nat -> length phi = K ->
  (forall i j, (i < D)%nat -> (j < K)%nat -> 0 < entry theta i j) ->
  (forall i j, (i < K)%nat -> (j < V)%nat -> 0 < entry phi i j) ->
  (d < D)%nat -> (w < V)%nat ->
  0 < topic_mass theta phi d w.
Proof.
  intros HK Lp Ht Hp Hd Hw. unfold topic_mass. rewrite Lp.
  apply big_sum_pos_all; [exact HK|].
  intros k Hk. apply Rmult_lt_0_compat; [apply Ht | apply Hp]; assumption.
Qed.

(** C10.  Take a loaded corpus with an empty document [d0].  In every
    M-step on its counts, whatever the posterior, Step B computes 0 for every
    topic of the empty document, and the normalisation of theta raises the
    row-sums-to-zero exception; so the M-step raises on every state that holds
    these counts, and no fit with a positive budget returns normally, whatever
    is drawn and whatever the topic count.  When moreover some vocabulary term
    [w1] occurs in a document [d1], there is at least one topic and the draws
    are all positive, the drawn tables normalise, the first E-step returns and
    Step A of the first M-step passes: the fit raises the exception from the
    normalisation of theta in its first iteration. *)
Theorem empty_document_fails (self : Corpus) (d0 : nat) :
  let D := number_of_documents self in
  let V := vocabulary_size self in
  loaded self ->
  (d0 < D)%nat -> nth d0 (documents self) [] = [] ->
  (forall z k, expected_document_topic (counts self) z V d0 k = 0) /\
  (forall z K,
     normalize (tabulate2 D K (expected_document_topic (counts self) z V))
     = Raise RowsSumToZero) /\
  (forall s K theta phi z,
     fitted s K (counts self) theta phi z ->
     number_of_documents s = D -> vocabulary_size s = V ->
     maximization_step s (Z.of_nat K) = Raise RowsSumToZero) /\
  (forall rnd K max_iter epsilon s', (1 <= max_iter)%Z ->
     plsa rnd self K max_iter epsilon <> Ok s') /\
  (forall rnd (K : nat) max_iter epsilon d1 w1,
     (1 <= K)%nat -> (1 <= max_iter)%Z ->
     (forall n, 0 < rnd n) ->
     (d1 < D)%nat -> (w1 < V)%nat ->
     In (nth w1 (vocabulary self) EmptyString) (nth d1 (documents self) []) ->
     exists theta phi s1 z phi',
       normalize (sample_theta rnd D K) = Ok theta /\
       normalize (sample_phi rnd D K V) = Ok phi /\
       expectation_step (started self K theta phi) = Ok s1 /\
       topic_prob s1 = Some z /\
       normalize (tabulate2 K V (expected_topic_word (counts self) z D)) = Ok phi' /\
       maximization_step s1 (Z.of_nat K) = Raise RowsSumToZero /\
       plsa rnd self (Z.of_nat K) max_iter epsilon = Raise RowsSumToZero).
Proof.
  intros D V L Hd0 He.
  assert (Hrow : forall w, (w < V)%nat -> entry (counts self) d0 w = 0)
    by (intros w Hw; apply counts_empty_row; assumption).
  split; [intros z k; apply expected_document_topic_empty, Hrow|].
  split; [intros z K; apply (theta_normalisation_empty _ _ _ _ _ d0); assumption|].
  split.
  { intros s K theta phi z F ED EV.
    apply (maximization_step_empty s K (counts self) theta phi z d0 F).
    - rewrite ED. exact Hd0.
    - rewrite EV. exact Hrow. }
  split.
  { intros rnd K max_iter epsilon s' Hm.
    apply (plsa_empty_document_never_returns rnd self K max_iter epsilon d0); assumption. }
  intros rnd K max_iter epsilon d1 w1 HK Hm Hrnd Hd1 Hw1 Hin.
  assert (HV : (1 <= V)%nat) by lia.
  destruct (normalize_positive D K (fun i j => rnd (i * K + j)%nat) HK)
    as (theta & Et & St & Ht); [intros i j; apply Hrnd|].
  destruct (normalize_positive K V (fun i j => rnd (D * K + (i * V + j))%nat) HV)
    as (phi & Ep & Sp & Hp); [intros i j; apply Hrnd|].
  pose proof (fitted_started self K theta phi St Sp) as F.
  destruct (fitted_tables _ _ _ _ _ _ F) as (T & Lp).
  assert (Hmass : forall d w, (d < D)%nat -> (w < V)%nat -> 0 < topic_mass theta phi d w).
  { intros d w Hd Hw. apply (topic_mass_positive D K V); assumption. }
  set (z := tabulate3 D K V (posterior theta phi)).
  assert (E1 : expectation_step (started self K theta phi)
               = Ok (set_topic_prob (started self K theta phi) z)).
  { rewrite (expectation_step_ok _ theta phi T).
    - rewrite Lp. reflexivity.
    - intros d w Hd Hw. apply Rgt_not_eq, Rlt_gt, Hmass; assumption. }
  assert (Hz : forall d k w, (d < D)%nat -> (k < K)%nat -> (w < V)%nat ->
                 0 < entry3 z d k w).
  { intros d k w Hd Hk Hw. unfold z. rewrite entry3_tabulate3 by assumption.
    unfold posterior. apply Rdiv_lt_0_compat; [|apply Hmass; assumption].
    apply Rmult_lt_0_compat; [apply Ht | apply Hp]; assumption. }
  assert (HA : forall k, (k < K)%nat ->
                 big_sum V (expected_topic_word (counts self) z D k) <> 0).
  { intros k Hk. apply Rgt_not_eq, Rlt_gt. apply (big_sum_pos V _ w1).
    - intros w Hw. apply big_sum_nonneg. intros d Hd.
      apply Rmult_le_pos; [apply counts_nonneg; assumption|].
      apply Rlt_le, Hz; assumption.
    - exact Hw1.
    - apply (big_sum_pos D _ d1).
      + intros d Hd. apply Rmult_le_pos; [apply counts_nonneg; assumption|].
        apply Rlt_le, Hz; assumption.
      + exact Hd1.
      + apply Rmult_lt_0_compat; [apply counts_occurring; assumption|].
        apply Hz; assumption. }
  assert (EM : maximization_step (set_topic_prob (started self K theta phi) z) (Z.of_nat K)
               = Raise RowsSumToZero).
  { apply (maximization_step_empty _ K (counts self) theta phi z d0); try assumption.
    destruct F as (Ec & Et' & Ep' & Ez & Sc & St' & Sp' & Sz).
    repeat split; try assumption; try apply Sc; try apply St'; try apply Sp';
      try apply shape3_tabulate3; apply length_tabulate. }
  exists theta, phi, (set_topic_prob (started self K theta phi) z), z.
  eexists.
  split; [exact Et|]. split; [exact Ep|]. split; [exact E1|]. split; [reflexivity|].
  split; [apply normalize_tabulate2_ok, HA|].
  split; [exact EM|].
  rewrite (plsa_spec rnd self K max_iter epsilon L).
  fold D. fold V. unfold sample_theta, sample_phi in Et, Ep |- *. rewrite Et. cbn [bind].
  rewrite Ep. cbn [bind].
  apply (em_loop_raise _ _ _ _ _ _ Hm E1 EM).
Qed.

Lemma empty_document_fails_witness :
  plsa half with_blank 1 3 (1 / 1000) = Raise RowsSumToZero /\
  forall rnd K epsilon s', plsa rnd with_blank K 3 epsilon <> Ok s'.
Proof.
  destruct (empty_document_fails with_blank 1 (conj eq_refl eq_refl)
              ltac:(simpl; lia) eq_refl) as (_ & _ & _ & Hnever & Hpos).
  split.
  - destruct (Hpos half 1%nat 3%Z (1 / 1000) 0%nat 0%nat (le_n 1) ltac:(lia)
                ltac:(intros n; unfold half; lra)
                ltac:(simpl; lia) ltac:(simpl; lia)
                ltac:(simpl; left; reflexivity))
      as (theta & phi & s1 & z & phi' & _ & _ & _ & _ & _ & _ & E).
    exact E.
  - intros rnd K epsilon s'. apply Hnever. lia.
Defined.

(** A blank line of the file is an empty document. *)
Lemma blank_line_is_empty_document :
  documents (build_corpus [String "a" (String "010" EmptyString); String "010" EmptyString]
               (init "data/test.txt"))
  = documents with_blank.
Proof. reflexivity. Qed.

(** * Further results *)

(** ** Reading the corpus *)

Lemma flush_cons (cur : string) (rest : list string) :
  cur <> EmptyString -> flush cur rest = cur :: rest.
Proof. destruct cur; [congruence | reflexivity]. Qed.

Lemma string_app_assoc (a b c : string) : ((a ++ b) ++ c = a ++ (b ++ c))%string.
Proof. induction a as [|x a IH]; simpl; [reflexivity | rewrite IH; reflexivity]. Qed.

Lemma string_app_nil_r (a : string) : (a ++ EmptyString = a)%string.
Proof. induction a as [|x a IH]; simpl; [reflexivity | rewrite IH; reflexivity]. Qed.

Lemma list_ascii_app (a b : string) :
  list_ascii_of_string (a ++ b) = list_ascii_of_string a ++ list_ascii_of_string b.
Proof. induction a as [|x a IH]; simpl; [reflexivity | rewrite IH; reflexivity]. Qed.

Lemma app_not_empty_r (a : string) (c : ascii) :
  (a ++ String c EmptyString)%string <> EmptyString.
Proof. destruct a; discriminate. Qed.

(** The tokens [split_from] returns are clean when the token under
    construction has no whitespace in it. *)
Lemma split_from_clean (doc cur : string) :
  (forall c, In c (list_ascii_of_string cur) -> is_space c = false) ->
  Forall clean (split_from cur doc).
Proof.
  revert cur. induction doc as [|c doc IH]; intros cur Hcur; simpl.
  - destruct cur as [|x cur]; [constructor|].
    constructor; [|constructor]. split; [discriminate | exact Hcur].
  - destruct (is_space c) eqn:Ec.
    + assert (Hrest : Forall clean (split_from EmptyString doc)).
      { apply IH. intros x []. }
      destruct cur as [|x cur]; [exact Hrest|].
      constructor; [|exact Hrest]. split; [discriminate | exact Hcur].
    + apply IH. intros x Hx. rewrite list_ascii_app in Hx.
      apply in_app_or in Hx. destruct Hx as [Hx | [<- | []]]; [apply Hcur, Hx | exact Ec].
Qed.

(** Reading a clean token only extends the token under construction. *)
Lemma split_from_token (t cur rest : string) :
  (forall c, In c (list_ascii_of_string t) -> is_space c = false) ->
  split_from cur (t ++ rest) = split_from (cur ++ t) rest.
Proof.
  revert cur. induction t as [|c t IH]; intros cur Ht; simpl.
  - rewrite string_app_nil_r. reflexivity.
  - rewrite (Ht c) by (left; reflexivity).
    rewrite IH by (intros x Hx; apply Ht; right; exact Hx).
    rewrite string_app_assoc. reflexivity.
Qed.

(** A string of whitespace only. *)
Lemma split_from_blank (tail cur : string) :
  (forall c, In c (list_ascii_of_string tail) -> is_space c = true) ->
  split_from cur tail = flush cur [].
Proof.
  revert cur. induction tail as [|c tail IH]; intros cur Hb; simpl; [reflexivity|].
  rewrite (Hb c) by (left; reflexivity).
  rewrite IH by (intros x Hx; apply Hb; right; exact Hx). reflexivity.
Qed.

Lemma split_join (tokens : list string) (tail : string) :
  Forall clean tokens ->
  (forall c, In c (list_ascii_of_string tail) -> is_space c = true) ->
  split (join tokens ++ tail) = tokens.
Proof.
  intros Hc Hb. unfold split. induction Hc as [|t rest [Hne Ht] Hrest IH].
  - simpl. apply (split_from_blank tail EmptyString Hb).
  - destruct rest as [|t2 rest].
    + change (join [t]) with t. rewrite (split_from_token t _ _ Ht). simpl.
      rewrite (split_from_blank tail t Hb). apply flush_cons, Hne.
    + change (join (t :: t2 :: rest)) with (t ++ String " " (join (t2 :: rest)))%string.
      rewrite string_app_assoc, (split_from_token t _ _ Ht).
      change (EmptyString ++ t)%string with t.
      change (String " " (join (t2 :: rest)) ++ tail)%string
        with (String " " (join (t2 :: rest) ++ tail)).
      cbn [split_from]. change (is_space " ") with true. cbv iota.
      rewrite IH. apply flush_cons, Hne.
Qed.

(** X1.  [build_corpus] makes one document of every line, in order, and
    stores their number; every token of every document is non-empty and has no
    whitespace in it; a line of whitespace only becomes an empty document.  The
    vocabulary, its size, the tables and the trace are left as they were. *)
Theorem build_corpus_documents (lines : list string) (self : Corpus) :
  let self' := build_corpus lines self in
  length (documents self') = length lines /\
  number_of_documents self' = length lines /\
  Forall (Forall clean) (documents self') /\
  (forall i line, nth_error lines i = Some line ->
     nth_error (documents self') i = Some (split line)) /\
  (forall i line, nth_error lines i = Some line ->
     (forall c, In c (list_ascii_of_string line) -> is_space c = true) ->
     nth_error (documents self') i = Some []) /\
  vocabulary self' = vocabulary self /\
  vocabulary_size self' = vocabulary_size self /\
  likelihoods self' = likelihoods self /\
  term_doc_matrix self' = term_doc_matrix self.
Proof.
  cbn zeta. unfold build_corpus. cbn [documents number_of_documents set_documents
    set_number_of_documents vocabulary vocabulary_size likelihoods term_doc_matrix].
  rewrite length_map.
  split; [reflexivity|]. split; [reflexivity|]. split.
  - apply Forall_map. apply Forall_forall. intros line _.
    apply split_from_clean. intros c [].
  - split; [|split; [|repeat split]].
    + intros i line E. rewrite nth_error_map, E. reflexivity.
    + intros i line E Hb. rewrite nth_error_map, E. simpl. f_equal.
      apply (split_from_blank line EmptyString Hb).
Qed.

Lemma build_corpus_documents_witness :
  nth_error (documents (build_corpus ["a b"%string; newline] (init "data/test.txt"))) 1
  = Some [].
Proof.
  apply (proj1 (proj2 (proj2 (proj2 (proj2
           (build_corpus_documents ["a b"%string; newline] (init "data/test.txt"))))))
           1%nat newline eq_refl).
  intros c [<- | []]. reflexivity.
Defined.

(** X2.  Writing every document as its tokens separated by single spaces
    and ended by a newline, and reading the file back with [build_corpus],
    gives the documents back, provided every token is non-empty and free of
    whitespace. *)
Theorem build_corpus_round_trip (docs : list (list string)) (self : Corpus) :
  Forall (Forall clean) docs ->
  documents (build_corpus (map (fun d => join d ++ newline)%string docs) self) = docs /\
  number_of_documents (build_corpus (map (fun d => join d ++ newline)%string docs) self)
  = length docs.
Proof.
  intros Hc. unfold build_corpus. cbn [documents number_of_documents set_documents
    set_number_of_documents]. rewrite map_map. split.
  - induction Hc as [|d docs Hd _ IH]; simpl; [reflexivity|].
    rewrite IH. f_equal. apply split_join; [exact Hd|].
    intros c [<- | []]. reflexivity.
  - rewrite length_map. reflexivity.
Qed.

Lemma build_corpus_round_trip_witness :
  documents (build_corpus (map (fun d => join d ++ newline)%string
                             [["the"; "cat"; "sat"]; []; ["the"; "dog"]]%string)
               (init "data/test.txt"))
  = [["the"; "cat"; "sat"]; []; ["the"; "dog"]]%string.
Proof.
  apply (build_corpus_round_trip [["the"; "cat"; "sat"]; []; ["the"; "dog"]]%string).
  repeat constructor; try discriminate;
    intros c Hc; simpl in Hc;
    repeat (destruct Hc as [<- | Hc]; [reflexivity|]); destruct Hc.
Defined.

(** ** The counts of a loaded corpus *)

Lemma tabulate_nth {A B : Type} (h : A -> B) (l : list A) (d : A) :
  tabulate (length l) (fun i => h (nth i l d)) = map h l.
Proof.
  induction l as [|x l IH]; [reflexivity|].
  cbn [length]. rewrite tabulate_S. cbn [nth map]. rewrite IH. reflexivity.
Qed.

Lemma big_sum_INR (n : nat) (g : nat -> nat) :
  big_sum n (fun i => INR (g i)) = INR (list_sum (tabulate n g)).
Proof.
  induction n as [|n IH]; [reflexivity|].
  rewrite big_sum_S, IH. unfold tabulate. rewrite seq_S, map_app, list_sum_app.
  rewrite plus_INR. f_equal. simpl. rewrite Nat.add_0_r. reflexivity.
Qed.

Lemma big_sum_ge_term (n : nat) (f : nat -> R) (i0 : nat) :
  (forall i, (i < n)%nat -> 0 <= f i) -> (i0 < n)%nat -> f i0 <= big_sum n f.
Proof.
  induction n as [|n IH]; intros H Hi; [lia|].
  rewrite big_sum_S. pose proof (H n (Nat.lt_succ_diag_r n)) as Hn.
  assert (Hs : 0 <= big_sum n f) by (apply big_sum_nonneg; intros i Hi'; apply H; lia).
  destruct (Nat.eq_dec i0 n) as [->|Hne]; [lra|].
  assert (f i0 <= big_sum n f) by (apply IH; [intros i Hi'; apply H; lia | lia]).
  lra.
Qed.

Lemma list_sum_cons (x : nat) (l : list nat) : list_sum (x :: l) = (x + list_sum l)%nat.
Proof. reflexivity. Qed.

Lemma list_sum_indicator (a : string) (f : string -> nat) (voc : list string) :
  list_sum (map (fun x => ((if string_dec a x then 1 else 0) + f x)%nat) voc)
  = (count_occ string_dec voc a + list_sum (map f voc))%nat.
Proof.
  induction voc as [|x voc IH]; [reflexivity|].
  cbn [map count_occ]. rewrite !list_sum_cons, IH.
  destruct (string_dec a x) as [E|N], (string_dec x a) as [E'|N']; try congruence; lia.
Qed.

(** Over a duplicate-free vocabulary that holds every token of a document,
    the counts of the document add up to its length. *)
Lemma count_occ_total (doc voc : list string) :
  NoDup voc -> incl doc voc ->
  list_sum (map (count_occ string_dec doc) voc) = length doc.
Proof.
  intros Hnd. induction doc as [|a doc IH]; intros Hin.
  - cbn [count_occ length]. clear. induction voc as [|x voc IHv]; [reflexivity|].
    cbn [map]. rewrite list_sum_cons, IHv. reflexivity.
  - assert (E : map (count_occ string_dec (a :: doc)) voc
                = map (fun x => ((if string_dec a x then 1 else 0)
                                 + count_occ string_dec doc x)%nat) voc).
    { apply map_ext. intros x. cbn [count_occ]. destruct (string_dec a x); reflexivity. }
    rewrite E, list_sum_indicator, IH by (intros x Hx; apply Hin; right; exact Hx).
    assert (Ha : In a voc) by (apply Hin; left; reflexivity).
    pose proof (proj1 (NoDup_count_occ' string_dec voc) Hnd a Ha) as Hone.
    rewrite Hone. reflexivity.
Qed.

Lemma loaded_after_building (lines : list string) (self0 self : Corpus) :
  build_vocabulary (build_corpus lines self0) self ->
  loaded self /\ NoDup (vocabulary self) /\
  documents self = map split lines /\
  forall w, In w (vocabulary self) <-> In w (concat (documents self)).
Proof.
  intros (voc & Hnd & Hvoc & ->). split; [|split; [exact Hnd | split; [reflexivity | exact Hvoc]]].
  split; [|reflexivity]. unfold build_corpus. simpl. reflexivity.
Qed.

(** X3.  After [build_corpus] and [build_vocabulary] the matrix can be
    built, and the matrix that [build_term_doc_matrix] stores has one row per
    document and one column per term; every row of it adds up to the number of
    tokens of its document, and every column adds up to at least 1: no
    vocabulary term is without an occurrence, and no token is left
    uncounted. *)
Theorem counts_after_loading (lines : list string) (self0 self : Corpus) :
  build_vocabulary (build_corpus lines self0) self ->
  exists s' c,
    build_term_doc_matrix self = Ok s' /\
    term_doc_matrix s' = Some c /\
    shape2 (number_of_documents self) (vocabulary_size self) c /\
    (forall d, (d < number_of_documents self)%nat ->
       row_total c (vocabulary_size self) d
       = INR (length (nth d (documents self) []))) /\
    (forall w, (w < vocabulary_size self)%nat ->
       1 <= col_total c (number_of_documents self) w).
Proof.
  intros Hb. destruct (loaded_after_building lines self0 self Hb) as (L & Hnd & _ & Hvoc).
  exists (set_term_doc_matrix self (counts self)), (counts self).
  split; [apply build_term_doc_matrix_ok, L|]. split; [reflexivity|].
  split; [apply shape2_tabulate2|].
  destruct L as [Ld Lv]. split.
  - intros d Hd. unfold row_total.
    rewrite (big_sum_ext _ _ (fun w => INR (occurrences self d w))).
    2:{ intros w Hw. unfold counts. apply entry_tabulate2; assumption. }
    rewrite big_sum_INR. f_equal. unfold occurrences. rewrite Lv.
    rewrite (tabulate_nth (count_occ string_dec (nth d (documents self) []))).
    apply count_occ_total; [exact Hnd|].
    intros x Hx. apply Hvoc, in_concat. exists (nth d (documents self) []).
    split; [apply nth_In; lia | exact Hx].
  - intros w Hw. unfold col_total.
    assert (Hin : In (nth w (vocabulary self) EmptyString) (concat (documents self))).
    { apply Hvoc, nth_In. lia. }
    apply in_concat in Hin. destruct Hin as (doc & Hdoc & Hx).
    destruct (In_nth _ _ [] Hdoc) as (d & Hd & Ed).
    apply Rle_trans with (entry (counts self) d w).
    + unfold counts. rewrite entry_tabulate2 by lia. unfold occurrences. rewrite Ed.
      change 1 with (INR 1). apply le_INR.
      apply (count_occ_In string_dec) in Hx. lia.
    + apply (big_sum_ge_term _ (fun d => entry (counts self) d w)); [|lia].
      intros i Hi. apply counts_nonneg; assumption.
Qed.

Lemma counts_after_loading_witness :
  exists s' c,
    build_term_doc_matrix
      (mkCorpus [["a"; "b"]; ["b"]]%string ["a"; "b"]%string []
         "data/test.txt"%string None None None None 2 2) = Ok s' /\
    term_doc_matrix s' = Some c /\
    row_total c 2 0 = INR 2 /\ 1 <= col_total c 2 0.
Proof.
  assert (Hb : build_vocabulary
                 (build_corpus ["a b"; "b"]%string (init "data/test.txt"))
                 (mkCorpus [["a"; "b"]; ["b"]]%string ["a"; "b"]%string []
                    "data/test.txt"%string None None None None 2 2)).
  { exists ["a"; "b"]%string. split; [|split; [|reflexivity]].
    - repeat constructor; simpl; intuition discriminate.
    - intros w. simpl. intuition. }
  destruct (counts_after_loading _ _ _ Hb) as (s' & c & E & Ec & _ & Hr & Hc).
  exists s', c. split; [exact E|]. split; [exact Ec|]. split.
  - apply (Hr 0%nat). simpl. lia.
  - apply (Hc 0%nat). simpl. lia.
Defined.
(** ** More on [normalize] *)

Lemma element_le_row_sum (row : list R) (x : R) :
  Forall (fun y => 0 <= y) row -> In x row -> x <= row_sum row.
Proof.
  intros H. induction H as [|y row Hy Hrow IH]; intros Hin; [destruct Hin|].
  rewrite row_sum_cons. pose proof (row_sum_nonneg row Hrow) as Hs.
  destruct Hin as [<- | Hin]; [lra | specialize (IH Hin); lra].
Qed.

Lemma probabilities_nonnegative (m : matrix) : probabilities m -> nonnegative m.
Proof.
  unfold probabilities, nonnegative. apply Forall_impl. intros row.
  apply Forall_impl. intros x [H _]. exact H.
Qed.

(** Quotients of non-negative numbers by a sum they are part of lie between
    0 and 1. *)
Lemma normalized_probabilities (m m' : matrix) :
  nonnegative m -> normalize m = Ok m' -> probabilities m'.
Proof.
  intros Hnn H. destruct (normalize_inv m m' H) as (Hall & ->).
  unfold probabilities, normalized. apply Forall_map. apply Forall_forall.
  intros row Hrow. unfold nonnegative in Hnn. rewrite Forall_forall in Hnn, Hall.
  pose proof (Hnn row Hrow) as Hr. pose proof (Hall row Hrow) as Hne.
  pose proof (row_sum_nonneg row Hr) as Hs.
  assert (Hpos : 0 < row_sum row) by lra.
  apply Forall_map. apply Forall_forall. intros x Hx.
  pose proof (element_le_row_sum row x Hr Hx) as Hle.
  rewrite Forall_forall in Hr. pose proof (Hr x Hx) as H0. split.
  - apply Rmult_le_pos; [exact H0 | apply Rlt_le, Rinv_0_lt_compat, Hpos].
  - apply Rmult_le_reg_r with (row_sum row); [exact Hpos|].
    unfold Rdiv. rewrite Rmult_assoc, Rinv_l by exact Hne. lra.
Qed.

(** X6.  On a matrix without negative elements whatever [normalize]
    returns is a matrix of probabilities: every element lies between 0 and
    1. *)
Theorem normalize_probabilities (m m' : matrix) :
  nonnegative m -> normalize m = Ok m' ->
  Forall (Forall (fun x => 0 <= x <= 1)) m'.
Proof.
  intros Hnn H. destruct (normalize_inv m m' H) as (Hall & ->).
  unfold normalized. apply Forall_map. apply Forall_forall. intros row Hrow.
  unfold nonnegative in Hnn. rewrite Forall_forall in Hnn, Hall.
  pose proof (Hnn row Hrow) as Hr. pose proof (Hall row Hrow) as Hne.
  pose proof (row_sum_nonneg row Hr) as Hs.
  assert (Hpos : 0 < row_sum row) by lra.
  apply Forall_map. apply Forall_forall. intros x Hx.
  pose proof (element_le_row_sum row x Hr Hx) as Hle.
  rewrite Forall_forall in Hr. pose proof (Hr x Hx) as H0. split.
  - apply Rmult_le_pos; [exact H0 | apply Rlt_le, Rinv_0_lt_compat, Hpos].
  - apply Rmult_le_reg_r with (row_sum row); [exact Hpos|].
    unfold Rdiv. rewrite Rmult_assoc, Rinv_l by exact Hne. lra.
Qed.

Lemma normalize_probabilities_witness :
  exists m', normalize [[1; 3]; [0; 2]] = Ok m' /\
             Forall (Forall (fun x => 0 <= x <= 1)) m'.
Proof.
  assert (E : normalize [[1; 3]; [0; 2]] = Ok (normalized [[1; 3]; [0; 2]])).
  { apply normalize_ok. repeat constructor; unfold row_sum; simpl; lra. }
  eexists. split; [exact E|].
  apply (normalize_probabilities [[1; 3]; [0; 2]] _); [|exact E].
  repeat constructor; lra.
Defined.

(** ** More on the initialisation *)

Lemma initialize_randomly_unfold (rnd : nat -> R) (self : Corpus) (K : nat) :
  initialize_randomly rnd self (Z.of_nat K) =
  (theta <- normalize (sample_theta rnd (number_of_documents self) K) ;;
   phi <- normalize (sample_phi rnd (number_of_documents self) K
                       (length (vocabulary self))) ;;
   Ok (set_topic_word_prob (set_document_topic_prob self theta) phi)).
Proof.
  unfold initialize_randomly. rewrite random_sample_ok. cbn [bind].
  rewrite document_topic_prob_set. cbn [array of_option bind].
  fold (sample_theta rnd (number_of_documents self) K).
  destruct (normalize (sample_theta rnd (number_of_documents self) K)) as [theta| |];
    cbn [bind]; try reflexivity.
  change (vocabulary (set_document_topic_prob (set_document_topic_prob self
            (sample_theta rnd (number_of_documents self) K)) theta))
    with (vocabulary self).
  rewrite random_sample_ok. cbn [bind].
  rewrite topic_word_prob_set. cbn [array of_option bind].
  rewrite !Nat2Z.id. unfold advance.
  fold (sample_phi rnd (number_of_documents self) K (length (vocabulary self))).
  destruct (normalize (sample_phi rnd (number_of_documents self) K
                         (length (vocabulary self)))); reflexivity.
Qed.

Lemma initialize_uniformly_unfold (self : Corpus) (K : nat) :
  initialize_uniformly self (Z.of_nat K) =
  (theta <- normalize (repeat (repeat 1 K) (number_of_documents self)) ;;
   phi <- normalize (repeat (repeat 1 (length (vocabulary self))) K) ;;
   Ok (set_topic_word_prob (set_document_topic_prob self theta) phi)).
Proof.
  unfold initialize_uniformly. rewrite full2_ok. cbn [bind].
  rewrite document_topic_prob_set. cbn [array of_option bind].
  destruct (normalize (repeat (repeat 1 K) (number_of_documents self))) as [theta| |];
    cbn [bind]; try reflexivity.
  change (vocabulary (set_document_topic_prob (set_document_topic_prob self
            (repeat (repeat 1 K) (number_of_documents self))) theta))
    with (vocabulary self).
  rewrite full2_ok. cbn [bind].
  rewrite topic_word_prob_set. cbn [array of_option bind].
  destruct (normalize (repeat (repeat 1 (length (vocabulary self))) K)); reflexivity.
Qed.

Lemma normalize_no_columns (r : nat) (f : nat -> nat -> R) :
  (1 <= r)%nat -> normalize (tabulate2 r 0 f) = Raise RowsSumToZero.
Proof.
  intros Hr. apply (normalize_tabulate2_raise r 0 f 0%nat); [lia | apply big_sum_0].
Qed.

(** X7.  [initialize_randomly], on any instance.  A negative topic count
    raises ValueError.  Otherwise the call either raises the row-sums-to-zero
    exception or stores a D x K table theta and a K x len(vocabulary) table
    phi and changes nothing else; the draws are used in order, the first D * K
    of them row by row for theta and the next ones for phi, and every entry is
    its draw divided by the sum of the draws of its row.  The call raises when
    there are documents but no topic, and when there are topics but no
    vocabulary; it returns when there is a topic, a vocabulary term and every
    draw is positive. *)
Theorem initialize_randomly_outcome (rnd : nat -> R) (self : Corpus) :
  let D := number_of_documents self in
  let V := length (vocabulary self) in
  (forall K, (K < 0)%Z -> initialize_randomly rnd self K = Raise ValueError) /\
  (forall K : nat,
     initialize_randomly rnd self (Z.of_nat K) = Raise RowsSumToZero \/
     exists s' theta phi,
       initialize_randomly rnd self (Z.of_nat K) = Ok s' /\
       document_topic_prob s' = Some theta /\ topic_word_prob s' = Some phi /\
       shape2 D K theta /\ shape2 K V phi /\
       (forall d k, (d < D)%nat -> (k < K)%nat ->
          entry theta d k
          = rnd (d * K + k)%nat / big_sum K (fun j => rnd (d * K + j)%nat)) /\
       (forall k w, (k < K)%nat -> (w < V)%nat ->
          entry phi k w
          = rnd (D * K + (k * V + w))%nat
            / big_sum V (fun j => rnd (D * K + (k * V + j))%nat)) /\
       term_doc_matrix s' = term_doc_matrix self /\
       topic_prob s' = topic_prob self /\
       likelihoods s' = likelihoods self) /\
  ((1 <= D)%nat -> initialize_randomly rnd self 0 = Raise RowsSumToZero) /\
  (forall K : nat, (1 <= K)%nat -> V = 0%nat ->
     initialize_randomly rnd self (Z.of_nat K) = Raise RowsSumToZero) /\
  (forall K : nat, (1 <= K)%nat -> (1 <= V)%nat -> (forall n, 0 < rnd n) ->
     exists s', initialize_randomly rnd self (Z.of_nat K) = Ok s').
Proof.
  intros D V. split; [|split; [|split; [|split]]].
  - intros K HK. unfold initialize_randomly, random_sample.
    apply Z.ltb_lt in HK. rewrite HK, orb_true_r. reflexivity.
  - intros K. rewrite initialize_randomly_unfold. fold D. fold V.
    destruct (normalize (sample_theta rnd D K)) as [theta| |] eqn:Et.
    + cbn [bind].
      destruct (normalize (sample_phi rnd D K V)) as [phi| |] eqn:Ep.
      * right. exists (set_topic_word_prob (set_document_topic_prob self theta) phi),
                 theta, phi.
        split; [reflexivity|]. split; [reflexivity|]. split; [reflexivity|].
        destruct (normalize_inv _ _ Et) as (_ & ->).
        destruct (normalize_inv _ _ Ep) as (_ & ->).
        unfold sample_theta, sample_phi. rewrite !normalized_tabulate2.
        split; [apply shape2_tabulate2|]. split; [apply shape2_tabulate2|].
        split; [|split; [|repeat split]].
        -- intros d k Hd Hk. rewrite entry_tabulate2 by assumption. reflexivity.
        -- intros k w Hk Hw. rewrite entry_tabulate2 by assumption. reflexivity.
      * left. destruct (normalize_cases (sample_phi rnd D K V)) as [[_ E] | [_ E]];
          rewrite E in Ep; [discriminate | injection Ep as <-; reflexivity].
      * destruct (normalize_cases (sample_phi rnd D K V)) as [[_ E] | [_ E]];
          rewrite E in Ep; discriminate.
    + left. destruct (normalize_cases (sample_theta rnd D K)) as [[_ E] | [_ E]];
        rewrite E in Et; [discriminate | injection Et as <-; reflexivity].
    + destruct (normalize_cases (sample_theta rnd D K)) as [[_ E] | [_ E]];
        rewrite E in Et; discriminate.
  - intros HD. change 0%Z with (Z.of_nat 0). rewrite initialize_randomly_unfold.
    unfold sample_theta. fold D. rewrite (normalize_no_columns D _ HD). reflexivity.
  - intros K HK HV. rewrite initialize_randomly_unfold. fold D. fold V.
    destruct (normalize_cases (sample_theta rnd D K)) as [[_ E] | [_ E]]; rewrite E;
      [|reflexivity].
    cbn [bind]. unfold sample_phi. rewrite HV, (normalize_no_columns K _ HK). reflexivity.
  - intros K HK HV Hrnd. rewrite initialize_randomly_unfold. fold D. fold V.
    destruct (normalize_positive D K (fun i j => rnd (i * K + j)%nat) HK)
      as (theta & Et & _); [intros i j; apply Hrnd|].
    destruct (normalize_positive K V (fun i j => rnd (D * K + (i * V + j))%nat) HV)
      as (phi & Ep & _); [intros i j; apply Hrnd|].
    unfold sample_theta, sample_phi. rewrite Et. cbn [bind]. rewrite Ep.
    eexists. reflexivity.
Qed.

Lemma initialize_randomly_outcome_witness :
  initialize_randomly half cats (-1) = Raise ValueError /\
  initialize_randomly half cats 0 = Raise RowsSumToZero /\
  exists s', initialize_randomly half cats 2 = Ok s'.
Proof.
  destruct (initialize_randomly_outcome half cats) as (Hneg & _ & Hzero & _ & Hpos).
  split; [apply Hneg; lia|]. split; [apply Hzero; simpl; lia|].
  apply (Hpos 2%nat); [lia | simpl; lia|]. intros n. unfold half. lra.
Defined.

(** X8.  [initialize_uniformly], on any instance.  A negative topic count
    raises ValueError; no topic with at least one document, or topics with an
    empty vocabulary, raise the row-sums-to-zero exception; with K >= 1 topics
    and V >= 1 vocabulary terms the call stores theta with every entry 1/K and
    phi with every entry 1/V, and changes nothing else.  [initialize] with
    [random] false is this call, with [random] true the random one. *)
Theorem initialize_uniformly_outcome (self : Corpus) :
  let D := number_of_documents self in
  let V := length (vocabulary self) in
  (forall K, (K < 0)%Z -> initialize_uniformly self K = Raise ValueError) /\
  ((1 <= D)%nat -> initialize_uniformly self 0 = Raise RowsSumToZero) /\
  (forall K : nat, (1 <= K)%nat -> V = 0%nat ->
     initialize_uniformly self (Z.of_nat K) = Raise RowsSumToZero) /\
  (forall K : nat, (1 <= K)%nat -> (1 <= V)%nat ->
     initialize_uniformly self (Z.of_nat K)
     = Ok (set_topic_word_prob
             (set_document_topic_prob self (tabulate2 D K (fun _ _ => 1 / INR K)))
             (tabulate2 K V (fun _ _ => 1 / INR V)))) /\
  (forall rnd K,
     initialize rnd self K false = initialize_uniformly self K /\
     initialize rnd self K true = initialize_randomly rnd self K).
Proof.
  intros D V. split; [|split; [|split; [|split]]].
  - intros K HK. unfold initialize_uniformly, full2.
    apply Z.ltb_lt in HK. rewrite HK, orb_true_r. reflexivity.
  - intros HD. change 0%Z with (Z.of_nat 0). rewrite initialize_uniformly_unfold.
    fold D. rewrite repeat_as_tabulate2, (normalize_no_columns D _ HD). reflexivity.
  - intros K HK HV. rewrite initialize_uniformly_unfold. fold D. fold V.
    destruct (normalize_cases (repeat (repeat 1 K) D)) as [[_ E] | [_ E]]; rewrite E;
      [|reflexivity].
    cbn [bind]. rewrite HV, repeat_as_tabulate2, (normalize_no_columns K _ HK).
    reflexivity.
  - intros K HK HV. rewrite initialize_uniformly_unfold. fold D. fold V.
    rewrite (normalize_ones D K HK). cbn [bind]. rewrite (normalize_ones K V HV).
    reflexivity.
  - intros rnd K. split; reflexivity.
Qed.

Lemma initialize_uniformly_outcome_witness :
  initialize_uniformly cats (-1) = Raise ValueError /\
  initialize_uniformly cats 0 = Raise RowsSumToZero /\
  initialize_uniformly (init "data/test.txt") 2 = Raise RowsSumToZero /\
  exists s', initialize_uniformly cats 2 = Ok s' /\
             document_topic_prob s' = Some [[1 / INR 2; 1 / INR 2]; [1 / INR 2; 1 / INR 2]].
Proof.
  destruct (initialize_uniformly_outcome cats) as (Hneg & Hzero & _ & Hok & _).
  destruct (initialize_uniformly_outcome (init "data/test.txt")) as (_ & _ & Hvoc & _).
  split; [apply Hneg; lia|]. split; [apply Hzero; simpl; lia|].
  split; [apply (Hvoc 2%nat); [lia | reflexivity]|].
  eexists. split; [apply (Hok 2%nat); simpl; lia | reflexivity].
Defined.

(** ** More on the E-step *)

Lemma nonnegative_entry (m : matrix) (i j : nat) : nonnegative m -> 0 <= entry m i j.
Proof.
  intros H. unfold entry.
  assert (Hrow : Forall (fun x => 0 <= x) (nth i m [])).
  { destruct (Nat.lt_ge_cases i (length m)) as [Hi|Hi].
    - unfold nonnegative in H. rewrite Forall_forall in H. apply H, nth_In, Hi.
    - rewrite nth_overflow by exact Hi. constructor. }
  destruct (Nat.lt_ge_cases j (length (nth i m []))) as [Hj|Hj].
  - rewrite Forall_forall in Hrow. apply Hrow, nth_In, Hj.
  - rewrite nth_overflow by exact Hj. lra.
Qed.

Lemma topic_mass_nonneg (theta phi : matrix) (d w : nat) :
  nonnegative theta -> nonnegative phi -> 0 <= topic_mass theta phi d w.
Proof.
  intros Ht Hp. unfold topic_mass. apply big_sum_nonneg. intros k _.
  apply Rmult_le_pos; apply nonnegative_entry; assumption.
Qed.

Lemma posterior_bounds (theta phi : matrix) (d k w : nat) :
  nonnegative theta -> nonnegative phi -> (k < length phi)%nat ->
  topic_mass theta phi d w <> 0 ->
  0 <= posterior theta phi d k w <= 1.
Proof.
  intros Ht Hp Hk Hne.
  pose proof (topic_mass_nonneg theta phi d w Ht Hp) as Hs.
  assert (Hpos : 0 < topic_mass theta phi d w) by lra.
  assert (Hu : 0 <= entry theta d k * entry phi k w)
    by (apply Rmult_le_pos; apply nonnegative_entry; assumption).
  assert (Hle : entry theta d k * entry phi k w <= topic_mass theta phi d w).
  { unfold topic_mass.
    apply (big_sum_ge_term (length phi) (fun k => entry theta d k * entry phi k w) k);
      [|exact Hk].
    intros i _. apply Rmult_le_pos; apply nonnegative_entry; assumption. }
  unfold posterior. split.
  - apply Rmult_le_pos; [exact Hu | apply Rlt_le, Rinv_0_lt_compat, Hpos].
  - apply Rmult_le_reg_r with (topic_mass theta phi d w); [exact Hpos|].
    unfold Rdiv. rewrite Rmult_assoc, Rinv_l by exact Hne. lra.
Qed.

(** X9.  The E-step recomputes the posterior from the tables alone: on
    well-shaped tables its outcome is the same whatever posterior the instance
    held before, and the tables, the counts and the trace are returned as they
    were. *)
Theorem expectation_step_overwrites (self : Corpus) (theta phi : matrix) :
  tables self theta phi ->
  (forall z, expectation_step (set_topic_prob self z) = expectation_step self) /\
  (forall s', expectation_step self = Ok s' ->
     document_topic_prob s' = Some theta /\ topic_word_prob s' = Some phi /\
     term_doc_matrix s' = term_doc_matrix self /\ likelihoods s' = likelihoods self).
Proof.
  intros T. split.
  - intros z.
    destruct (expectation_step_spec self theta phi T) as [[H E] | [H E]]; rewrite E.
    + rewrite (expectation_step_ok (set_topic_prob self z) theta phi
                 (tables_set_topic_prob self theta phi z T) H). reflexivity.
    + apply (expectation_step_exit (set_topic_prob self z) theta phi
               (tables_set_topic_prob self theta phi z T) H).
  - intros s' H. apply expectation_step_frame in H.
    destruct H as ((_ & _ & _ & Hc & _) & Hl & Ht & Hp).
    destruct T as (Et & Ep & _). repeat split; congruence.
Qed.

Lemma expectation_step_overwrites_witness :
  expectation_step (set_topic_prob midfit [[[7; 7]; [7; 7]]]) = expectation_step midfit.
Proof.
  apply (proj1 (expectation_step_overwrites midfit _ _ midfit_tables)).
Defined.

(** X10.  On well-shaped tables without negative entries every posterior
    the E-step returns is a probability: each entry lies between 0 and 1. *)
Theorem expectation_step_probabilities (self s' : Corpus) (theta phi : matrix) :
  tables self theta phi -> nonnegative theta -> nonnegative phi ->
  expectation_step self = Ok s' ->
  exists z, topic_prob s' = Some z /\
    shape3 (number_of_documents self) (length phi) (vocabulary_size self) z /\
    forall d k w, (d < number_of_documents self)%nat -> (k < length phi)%nat ->
      (w < vocabulary_size self)%nat -> 0 <= entry3 z d k w <= 1.
Proof.
  intros T Ht Hp H.
  destruct (expectation_step_spec self theta phi T) as [[Hne E] | [_ E]];
    rewrite E in H; [|discriminate].
  injection H as <-. eexists. split; [reflexivity|]. split; [apply shape3_tabulate3|].
  intros d k w Hd Hk Hw. rewrite entry3_tabulate3 by assumption.
  apply posterior_bounds; try assumption. apply Hne; assumption.
Qed.

Lemma midfit_nonnegative :
  nonnegative [[1 / 2; 1 / 2]] /\ nonnegative [[1 / 2; 1 / 2]; [1 / 4; 3 / 4]].
Proof. split; repeat constructor; lra. Defined.

Lemma expectation_step_posterior_exists_for_midfit :
  exists s', expectation_step midfit = Ok s'.
Proof.
  eexists. apply (expectation_step_ok midfit _ _ midfit_tables).
  intros d w Hd Hw. apply Rgt_not_eq, Rlt_gt, midfit_mass; assumption.
Defined.

Lemma expectation_step_probabilities_witness :
  exists z, 0 <= entry3 z 0 1 1 <= 1.
Proof.
  destruct (expectation_step_posterior_exists_for_midfit) as (s' & E).
  destruct (expectation_step_probabilities midfit s' _ _ midfit_tables
              (proj1 midfit_nonnegative) (proj2 midfit_nonnegative) E)
    as (z & _ & _ & H).
  exists z. apply H; simpl; lia.
Defined.

(** ** More on the M-step *)

Lemma for_range_fails_first {S : Type} (n : nat) (body : nat -> S -> outcome S)
  (s : S) (r : outcome S) :
  (1 <= n)%nat -> body 0%nat s = r -> (forall s', r <> Ok s') ->
  for_range n body s = r.
Proof.
  intros Hn E Hr. unfold for_range. destruct n as [|n]; [lia|].
  cbn [seq for_each]. rewrite E. destruct r; try reflexivity.
  exfalso. exact (Hr a eq_refl).
Qed.

Lemma nonnegative_tabulate2 (r c : nat) (f : nat -> nat -> R) :
  (forall i j, (i < r)%nat -> (j < c)%nat -> 0 <= f i j) ->
  nonnegative (tabulate2 r c f).
Proof.
  intros H. unfold nonnegative, tabulate2. apply Forall_tabulate. intros i Hi.
  apply Forall_tabulate. intros j Hj. apply H; assumption.
Qed.

(** What the M-step returns on a well-shaped state. *)
Lemma maximization_step_result (self s' : Corpus) (K : nat)
  (c theta phi : matrix) (z : tensor) :
  fitted self K c theta phi z ->
  maximization_step self (Z.of_nat K) = Ok s' ->
  exists theta' phi',
    s' = set_document_topic_prob (set_topic_word_prob self phi') theta' /\
    m_step c z (number_of_documents self) K (vocabulary_size self) = Ok (phi', theta') /\
    shape2 (number_of_documents self) K theta' /\
    shape2 K (vocabulary_size self) phi' /\
    ((forall d w, (d < number_of_documents self)%nat -> (w < vocabulary_size self)%nat ->
        0 <= entry c d w) ->
     (forall d k w, (d < number_of_documents self)%nat -> (k < K)%nat ->
        (w < vocabulary_size self)%nat -> 0 <= entry3 z d k w) ->
     probabilities theta' /\ probabilities phi').
Proof.
  intros F H. rewrite (maximization_step_spec self K c theta phi z F) in H.
  set (D := number_of_documents self) in *. set (V := vocabulary_size self) in *.
  destruct (m_step c z D K V) as [[phi' theta']| |] eqn:Em; try discriminate.
  cbn [bind fst snd] in H. injection H as <-.
  destruct (m_step_inv _ _ _ _ _ _ _ Em) as (_ & _ & Sp & St).
  exists theta', phi'. split; [reflexivity|]. split; [reflexivity|].
  split; [exact St|]. split; [exact Sp|].
  intros Hc Hz. unfold m_step in Em. rewrite !row_normalization_normalize in Em.
  destruct (normalize (tabulate2 K V (expected_topic_word c z D))) as [p| |] eqn:Ep;
    try discriminate.
  cbn [bind] in Em.
  destruct (normalize (tabulate2 D K (expected_document_topic c z V))) as [t| |] eqn:Et;
    try discriminate.
  cbn [bind] in Em. injection Em as <- <-. split.
  - apply (normalized_probabilities _ _ (nonnegative_tabulate2 _ _ _
             (fun d k Hd Hk => big_sum_nonneg V _ (fun w Hw =>
                Rmult_le_pos _ _ (Hc d w Hd Hw) (Hz d k w Hd Hk Hw)))) Et).
  - apply (normalized_probabilities _ _ (nonnegative_tabulate2 _ _ _
             (fun k w Hk Hw => big_sum_nonneg D _ (fun d Hd =>
                Rmult_le_pos _ _ (Hc d w Hd Hw) (Hz d k w Hd Hk Hw)))) Ep).
Qed.

(** X11.  Whenever the M-step returns on a well-shaped state, the tables
    it stores have the shapes of the old ones and the returned state is
    well-shaped again; if neither the counts nor the posterior have a negative
    entry, every entry of the new tables lies between 0 and 1. *)
Theorem maximization_step_probabilities (self s' : Corpus) (K : nat)
  (c theta phi : matrix) (z : tensor) :
  fitted self K c theta phi z ->
  maximization_step self (Z.of_nat K) = Ok s' ->
  exists theta' phi',
    document_topic_prob s' = Some theta' /\ topic_word_prob s' = Some phi' /\
    shape2 (number_of_documents self) K theta' /\
    shape2 K (vocabulary_size self) phi' /\
    fitted s' K c theta' phi' z /\
    (nonnegative c -> (forall d k w, 0 <= entry3 z d k w) ->
     probabilities theta' /\ probabilities phi').
Proof.
  intros F H.
  destruct (maximization_step_result self s' K c theta phi z F H)
    as (theta' & phi' & -> & Em & St & Sp & Hnn).
  exists theta', phi'. split; [reflexivity|]. split; [reflexivity|].
  split; [exact St|]. split; [exact Sp|].
  split; [apply (fitted_m_step self K c theta phi); assumption|].
  intros Hc Hz. apply Hnn.
  - intros d w _ _. apply nonnegative_entry, Hc.
  - intros d k w _ _ _. apply Hz.
Qed.

Lemma maximization_step_probabilities_witness :
  exists s' theta' phi',
    maximization_step midfit 2 = Ok s' /\
    document_topic_prob s' = Some theta' /\ topic_word_prob s' = Some phi' /\
    probabilities theta' /\ probabilities phi'.
Proof.
  assert (E : exists s', maximization_step midfit 2 = Ok s').
  { change 2%Z with (Z.of_nat 2).
    rewrite (maximization_step_spec midfit 2 _ _ _ _ midfit_fitted). unfold m_step.
    rewrite !row_normalization_normalize.
    rewrite normalize_tabulate2_ok.
    2:{ intros k Hk. destruct k as [|[|k]]; [| |lia];
        unfold big_sum, expected_topic_word, big_sum, entry, entry3, entry; simpl; lra. }
    cbn [bind]. rewrite normalize_tabulate2_ok.
    2:{ intros d Hd. destruct d as [|d]; [|simpl in Hd; lia].
        unfold big_sum, expected_document_topic, big_sum, entry, entry3, entry; simpl; lra. }
    eexists. reflexivity. }
  destruct E as (s' & E).
  destruct (maximization_step_probabilities midfit s' 2 _ _ _ _ midfit_fitted E)
    as (theta' & phi' & Et & Ep & _ & _ & _ & Hp).
  exists s', theta', phi'. split; [exact E|]. split; [exact Et|]. split; [exact Ep|].
  apply Hp.
  - repeat constructor; lra.
  - intros d k w. unfold entry3, entry.
    destruct d as [|d]; [|destruct d, k, w; simpl; lra].
    destruct k as [|[|k]]; [| |destruct k, w; simpl; lra];
      (destruct w as [|[|w]]; [| |destruct w; simpl; lra]); simpl; lra.
Defined.

Lemma set2_out (m : matrix) (i j : nat) (x : R) :
  (length m <= i)%nat -> set2 m i j x = Raise IndexError.
Proof. intros H. unfold set2. rewrite (item_out m i H). reflexivity. Qed.

Lemma get3_topic_out (d k v : nat) (t : tensor) (a b c : nat) :
  shape3 d k v t -> (a < d)%nat -> (k <= b)%nat -> get3 t a b c = Raise IndexError.
Proof.
  intros S Ha Hb. pose proof (shape3_slice d k v t a S Ha) as [Lm _].
  unfold get3. rewrite (item_ok t a []) by (destruct S; lia). cbn [bind].
  unfold get2. rewrite (item_out (nth a t []) b) by lia. reflexivity.
Qed.

(** The statement of Step A for a topic index the tables do not have. *)
Lemma step_a_topic_out (self : Corpus) (K : nat) (c theta phi : matrix) (z : tensor)
  (m : matrix) (t w : nat) :
  fitted self K c theta phi z ->
  shape2 K (vocabulary_size self) m ->
  (K <= t)%nat -> (w < vocabulary_size self)%nat ->
  (counter <- for_range (number_of_documents self) (fun d counter =>
                c0 <- array (term_doc_matrix self) ;;
                term_doc_V <- get2 c0 d w ;;
                z0 <- array (topic_prob self) ;;
                topic_prob_V <- get3 z0 d t w ;;
                Ok (counter + term_doc_V * topic_prob_V)) 0 ;;
   p <- array (Some m) ;;
   p' <- set2 p t w counter ;;
   Ok (set_topic_word_prob self p')) = Raise IndexError.
Proof.
  intros (Ec & _ & _ & Ez & Sc & _ & _ & Sz) Sm Ht Hw.
  destruct (number_of_documents self) as [|n] eqn:ED.
  - cbn [for_range seq for_each bind array of_option].
    rewrite set2_out by (destruct Sm; lia). reflexivity.
  - rewrite (for_range_fails_first (S n) _ 0 (Raise IndexError)); try reflexivity; try lia.
    + rewrite Ec, Ez. cbn [array of_option bind].
      rewrite (get2_ok _ _ c 0 w Sc) by lia. cbn [bind].
      rewrite (get3_topic_out _ _ _ z 0 t w Sz) by lia. reflexivity.
    + intros s' H. discriminate.
Qed.

(** X12.  The M-step trusts its argument: on a well-shaped state with K
    topics and at least one vocabulary term, a call with a larger topic count
    raises IndexError. *)
Theorem maximization_step_too_many_topics (self : Corpus) (K K' : nat)
  (c theta phi : matrix) (z : tensor) :
  fitted self K c theta phi z ->
  (K < K')%nat -> (1 <= vocabulary_size self)%nat ->
  maximization_step self (Z.of_nat K') = Raise IndexError.
Proof.
  intros F HK HV. pose proof F as (Ec & Et & Ep & Ez & Sc & St & Sp & Sz).
  unfold maximization_step, range. rewrite Nat2Z.id.
  rewrite (for_range_fails_first (vocabulary_size self) _ self (Raise IndexError));
    try reflexivity; try exact HV; [|intros s' H; discriminate].
  fold (@for_range Corpus K').
  destruct (for_range_cases
    (fun t s => exists m, s = set_topic_word_prob self m /\
                          shape2 K (vocabulary_size self) m)
    (fun t => (t < K)%nat) (Raise IndexError) K'
    (fun t s =>
       counter <- for_range (number_of_documents s) (fun d counter =>
                    c0 <- array (term_doc_matrix s) ;;
                    term_doc_V <- get2 c0 d 0 ;;
                    z0 <- array (topic_prob s) ;;
                    topic_prob_V <- get3 z0 d t 0 ;;
                    Ok (counter + term_doc_V * topic_prob_V)) 0 ;;
       p <- array (topic_word_prob s) ;;
       p' <- set2 p t 0 counter ;;
       Ok (set_topic_word_prob s p')) self)
    as [(Hg & _) | (_ & E)].
  - exists phi. split; [symmetry; apply set_topic_word_prob_same, Ep | exact Sp].
  - intros t s Ht (m & -> & Sm).
    change (number_of_documents (set_topic_word_prob self m)) with (number_of_documents self).
    change (term_doc_matrix (set_topic_word_prob self m)) with (term_doc_matrix self).
    change (topic_prob (set_topic_word_prob self m)) with (topic_prob self).
    rewrite topic_word_prob_set.
    destruct (Nat.lt_ge_cases t K) as [Hlt|Hge].
    + left. split; [exact Hlt|].
      pose proof (accumulate_ok self c z K (number_of_documents self)
                    (fun d => (d, t, 0%nat)) (fun d => entry c d 0 * entry3 z d t 0)
                    Ec Ez Sc Sz
                    (fun d Hd => conj Hd (conj Hlt (conj HV eq_refl)))) as HA.
      unfold accumulate in HA. cbn [fst snd] in HA. rewrite HA. cbn [bind array of_option].
      destruct (set2_ok K (vocabulary_size self) m t 0
                  (big_sum (number_of_documents self)
                     (fun d => entry c d 0 * entry3 z d t 0)) Sm Hlt HV)
        as (m' & E' & Sm' & _).
      rewrite E'. cbn [bind]. eexists. split; [reflexivity|].
      exists m'. split; [reflexivity | exact Sm'].
    + right. split; [lia|].
      apply (step_a_topic_out self K c theta phi z m t 0 F Sm Hge HV).
  - intros s' H. discriminate.
  - exfalso. specialize (Hg K HK). lia.
  - exact E.
Qed.

Lemma maximization_step_too_many_topics_witness :
  maximization_step midfit 3 = Raise IndexError.
Proof.
  apply (maximization_step_too_many_topics midfit 2 3 _ _ _ _ midfit_fitted); simpl; lia.
Defined.
(** ** More on the log-likelihood *)

(** X14.  On well-shaped tables and counts, [calculate_likelihood] returns
    exactly when every mixture probability is positive.  One mixture
    probability that is 0 or less makes it raise ValueError, whatever the count
    of that cell, also when the count is 0. *)
Theorem calculate_likelihood_domain (self : Corpus) (c theta phi : matrix) :
  tables self theta phi ->
  term_doc_matrix self = Some c ->
  shape2 (number_of_documents self) (vocabulary_size self) c ->
  ((forall d w, (d < number_of_documents self)%nat -> (w < vocabulary_size self)%nat ->
      0 < topic_mass theta phi d w) <->
   exists s', calculate_likelihood self (Z.of_nat (length phi)) = Ok s') /\
  ((exists d w, (d < number_of_documents self)%nat /\ (w < vocabulary_size self)%nat /\
      topic_mass theta phi d w <= 0) ->
   calculate_likelihood self (Z.of_nat (length phi)) = Raise ValueError).
Proof.
  intros T Ec Sc.
  destruct (calculate_likelihood_spec self c theta phi T Ec Sc)
    as [[Hm E] | [(d & w & Hd & Hw & Hn) E]]; rewrite E.
  - split.
    + split; [intros _; eexists; reflexivity | intros _; exact Hm].
    + intros (d & w & Hd & Hw & Hle). pose proof (Hm d w Hd Hw). lra.
  - split; [|reflexivity]. split.
    + intros H. exfalso. exact (Hn (H d w Hd Hw)).
    + intros (s' & H). discriminate.
Qed.

Lemma calculate_likelihood_domain_witness :
  entry [[1; 0]] 0 1 = 0 /\ calculate_likelihood unseen_term 1 = Raise ValueError.
Proof.
  split; [reflexivity|].
  apply (proj2 (calculate_likelihood_domain unseen_term [[1; 0]] [[1]] [[1; 0]]
                  ltac:(repeat split; repeat constructor) eq_refl
                  ltac:(repeat split; repeat constructor))).
  exists 0%nat, 1%nat. split; [simpl; lia|]. split; [simpl; lia|].
  unfold topic_mass, big_sum, entry; simpl; lra.
Defined.
(** ** Invariants of the fit *)

Lemma counts_nonnegative (self : Corpus) : nonnegative (counts self).
Proof.
  unfold counts. apply nonnegative_tabulate2. intros d w _ _. apply pos_INR.
Qed.

(** One iteration keeps the state of a fit and appends one value. *)
Lemma iteration_body_in_fit (P : Prop) (c : matrix) (K : nat) (epsilon : R)
  (i : nat) (s : Corpus) (r : flow Corpus) :
  nonnegative c -> in_fit P c K s ->
  iteration_body (Z.of_nat K) epsilon i s = Ok r ->
  in_fit P c K (state_of r) /\
  exists x, likelihoods (state_of r) = likelihoods s ++ [x].
Proof.
  intros Hc (theta & phi & z & F & Hnn) H.
  destruct (fitted_tables s K c theta phi z F) as (T & Lp).
  destruct (iteration_body_steps K epsilon i s r c theta phi z F H)
    as (phi' & theta' & Hmass & _ & _ & E2 & F2 & _ & _ & Er).
  set (D := number_of_documents s) in *. set (V := vocabulary_size s) in *.
  set (z1 := tabulate3 D K V (posterior theta phi)) in *.
  set (s1 := set_topic_prob s z1) in *.
  assert (F1 : fitted s1 K c theta phi z1).
  { destruct F as (Ec & Et & Ep & _ & Sc & St & Sp & _).
    repeat split; try assumption; try apply Sc; try apply St; try apply Sp;
      try apply shape3_tabulate3; apply length_tabulate. }
  destruct (maximization_step_result s1 _ K c theta phi z1 F1 E2)
    as (theta'' & phi'' & Es & _ & _ & _ & Hp).
  assert (Et' : theta'' = theta').
  { apply (f_equal document_topic_prob) in Es. cbn in Es. congruence. }
  assert (Ep' : phi'' = phi').
  { apply (f_equal topic_word_prob) in Es. cbn in Es. congruence. }
  subst theta'' phi''. rewrite Er. split.
  - exists theta', phi', z1. split.
    + destruct F2 as (Ec & Et & Ep & Ez & Sc & St & Sp & Sz).
      repeat split; try assumption; try apply Sc; try apply St; try apply Sp; apply Sz.
    + intros HP. destruct (Hnn HP) as [Hnt Hnp]. apply Hp.
      * intros d w _ _. apply nonnegative_entry, Hc.
      * intros d k w Hd Hk Hw. unfold z1. rewrite entry3_tabulate3 by assumption.
        apply posterior_bounds;
          [apply probabilities_nonnegative, Hnt | apply probabilities_nonnegative, Hnp
          | rewrite Lp; exact Hk | apply Hmass; assumption].
  - eexists. reflexivity.
Qed.

Lemma for_break_in_fit (P : Prop) (c : matrix) (K : nat) (epsilon : R)
  (l : list nat) (s s' : Corpus) :
  nonnegative c -> in_fit P c K s ->
  for_break l (iteration_body (Z.of_nat K) epsilon) s = Ok s' ->
  in_fit P c K s'.
Proof.
  intros Hc. revert s. induction l as [|i l IH]; intros s Hin H; simpl in H.
  - injection H as <-. exact Hin.
  - destruct (iteration_body (Z.of_nat K) epsilon i s) as [r| |] eqn:E; try discriminate.
    destruct (iteration_body_in_fit P c K epsilon i s r Hc Hin E) as (Hin1 & _).
    destruct r as [s1|s1]; cbn [state_of] in Hin1.
    + apply (IH s1 Hin1 H).
    + injection H as <-. exact Hin1.
Qed.

Lemma sample_nonnegative (r c : nat) (f : nat -> nat -> R) :
  (forall i j, 0 <= f i j) -> nonnegative (tabulate2 r c f).
Proof. intros H. apply nonnegative_tabulate2. intros i j _ _. apply H. Qed.

(** What a fit that returns leaves behind. *)
Lemma plsa_returns (rnd : nat -> R) (self s' : Corpus) (K : nat) (max_iter : Z)
  (epsilon : R) :
  loaded self ->
  plsa rnd self (Z.of_nat K) max_iter epsilon = Ok s' ->
  in_fit (forall n, 0 <= rnd n) (counts self) K s' /\
  (documents s' = documents self /\ vocabulary s' = vocabulary self /\
   number_of_documents s' = number_of_documents self /\
   vocabulary_size s' = vocabulary_size self) /\
  exists xs, likelihoods s' = likelihoods self ++ xs /\
             (length xs <= Z.to_nat max_iter)%nat.
Proof.
  intros L H. rewrite (plsa_spec rnd self K max_iter epsilon L) in H.
  destruct (normalize (sample_theta rnd (number_of_documents self) K)) as [theta| |] eqn:Et;
    try discriminate.
  cbn [bind] in H.
  destruct (normalize (sample_phi rnd (number_of_documents self) K (vocabulary_size self)))
    as [phi| |] eqn:Ep; try discriminate.
  cbn [bind] in H.
  pose proof (normalize_shape _ _ _ _ (shape2_tabulate2 _ _ _) Et) as St.
  pose proof (normalize_shape _ _ _ _ (shape2_tabulate2 _ _ _) Ep) as Sp.
  assert (Hin : in_fit (forall n, 0 <= rnd n) (counts self) K (started self K theta phi)).
  { eexists theta, phi, _. split; [apply fitted_started; assumption|].
    intros Hr. split.
    - apply (normalized_probabilities _ _ (sample_nonnegative _ _ _ (fun i j => Hr _)) Et).
    - apply (normalized_probabilities _ _ (sample_nonnegative _ _ _ (fun i j => Hr _)) Ep). }
  pose proof (em_loop_trace _ _ _ _ _ H) as (Hsame & xs & Hxs & Hl).
  unfold em_loop in H.
  pose proof (for_break_in_fit _ _ K epsilon _ _ s' (counts_nonnegative self) Hin H)
    as Hin'.
  split; [exact Hin'|]. split.
  - destruct Hsame as (A1 & A2 & A3 & A4 & A5 & A6).
    split; [exact A1|]. split; [exact A2|]. split; [exact A5 | exact A6].
  - exists xs. split; [exact Hxs | exact Hl].
Qed.

Lemma single_fit : exists s', plsa half single 1 3 (1 / 1000) = Ok s'.
Proof.
  pose proof (plsa_half single 1 3 (1 / 1000) (conj eq_refl eq_refl) (le_n 1) (le_n 1)) as E.
  pose proof (em_loop_topic_uniform (started single 1 (uniform 1 1) (uniform 1 1))
                (counts single) 1 (fun _ => 1 / INR 1) 3 (1 / 1000)
                (le_n 1) (le_n 1) (single_proper 1 _ _)
                (uniform_topic_uniform (started single 1 (uniform 1 1) (uniform 1 1)) 1
                   (le_n 1) eq_refl eq_refl) eq_refl) as E'.
  eexists. exact (eq_trans E E').
Defined.

Lemma half_nonnegative (n : nat) : 0 <= half n.
Proof. unfold half. lra. Defined.

(** X15.  Whenever [plsa] returns on a loaded corpus, the instance holds
    the count matrix of the corpus, a D x K table theta and a K x V table phi,
    and the documents, the vocabulary and their sizes as they were; it has
    kept the trace it found and appended at most [max_iter] values to it; if no
    draw of the generator was negative, every entry of either table lies
    between 0 and 1. *)
Theorem plsa_returns_probabilities (rnd : nat -> R) (self s' : Corpus) (K : nat)
  (max_iter : Z) (epsilon : R) :
  loaded self ->
  plsa rnd self (Z.of_nat K) max_iter epsilon = Ok s' ->
  exists theta phi,
    document_topic_prob s' = Some theta /\ topic_word_prob s' = Some phi /\
    shape2 (number_of_documents self) K theta /\
    shape2 K (vocabulary_size self) phi /\
    term_doc_matrix s' = Some (counts self) /\
    documents s' = documents self /\ vocabulary s' = vocabulary self /\
    number_of_documents s' = number_of_documents self /\
    vocabulary_size s' = vocabulary_size self /\
    (exists xs, likelihoods s' = likelihoods self ++ xs /\
                (length xs <= Z.to_nat max_iter)%nat) /\
    ((forall n, 0 <= rnd n) -> probabilities theta /\ probabilities phi).
Proof.
  intros L H.
  destruct (plsa_returns rnd self s' K max_iter epsilon L H)
    as ((theta & phi & z & F & Hnn) & (A1 & A2 & A3 & A4) & Hxs).
  destruct F as (Ec & Et & Ep & _ & _ & St & Sp & _). rewrite A3 in St. rewrite A4 in Sp.
  exists theta, phi.
  split; [exact Et|]. split; [exact Ep|]. split; [exact St|]. split; [exact Sp|].
  split; [exact Ec|]. split; [exact A1|]. split; [exact A2|]. split; [exact A3|].
  split; [exact A4|]. split; [exact Hxs | exact Hnn].
Qed.

Lemma plsa_returns_probabilities_witness :
  exists s' theta phi,
    plsa half single 1 3 (1 / 1000) = Ok s' /\
    document_topic_prob s' = Some theta /\ topic_word_prob s' = Some phi /\
    probabilities theta /\ probabilities phi.
Proof.
  destruct single_fit as (s' & E).
  destruct (plsa_returns_probabilities half single s' 1 3 (1 / 1000)
              (conj eq_refl eq_refl) E)
    as (theta & phi & Et & Ep & _ & _ & _ & _ & _ & _ & _ & _ & Hp).
  exists s', theta, phi. split; [exact E|]. split; [exact Et|]. split; [exact Ep|].
  apply Hp, half_nonnegative.
Defined.

(** ** A second fit on the same instance *)

(** X17.  The convergence test of iteration 1 reads the trace at the
    positions 1 and 0 counted from its start.  When [plsa]'s loop starts on a
    trace that already holds two values [a] and [b] in front, these are the two
    values compared, not the ones just appended: a run that returns with a
    budget of at least 2 has made exactly 2 iterations if |b - a| is below
    epsilon, and at least 3 if it is not and the budget allows 3. *)
Theorem convergence_reads_old_trace (K : Z) (epsilon : R) (max_iter : Z)
  (s s' : Corpus) (a b : R) (rest : list R) :
  likelihoods s = a :: b :: rest ->
  (2 <= max_iter)%Z ->
  em_loop K max_iter epsilon s = Ok s' ->
  (Rabs (b - a) < epsilon ->
   length (likelihoods s') = (length (likelihoods s) + 2)%nat) /\
  (~ Rabs (b - a) < epsilon -> (3 <= max_iter)%Z ->
   (length (likelihoods s) + 3 <= length (likelihoods s'))%nat).
Proof.
  intros L Hm H. unfold em_loop, range in H.
  destruct (Z.to_nat max_iter) as [|[|n]] eqn:En; try lia.
  cbn [seq for_break] in H.
  destruct (iteration_body K epsilon 0 s) as [r0| |] eqn:E0; try discriminate.
  destruct (iteration_body_frame _ _ _ _ _ E0) as (_ & x0 & L0).
  destruct (iteration_body_inv _ _ _ _ _ E0) as (b0 & C0 & R0).
  rewrite converged_first in C0. injection C0 as <-.
  rewrite R0 in H.
  destruct (iteration_body K epsilon 1 (state_of r0)) as [r1| |] eqn:E1; try discriminate.
  destruct (iteration_body_frame _ _ _ _ _ E1) as (_ & x1 & L1).
  destruct (iteration_body_inv _ _ _ _ _ E1) as (b1 & C1 & R1).
  rewrite L0, L in L1.
  rewrite (converged_at (state_of r1) 1 epsilon b a) in C1
    by (try lia; rewrite L1; reflexivity).
  injection C1 as <-. rewrite R1 in H.
  assert (Hlen : length (likelihoods (state_of r1)) = (length (likelihoods s) + 2)%nat).
  { rewrite L1, L. rewrite !length_app. simpl. lia. }
  destruct (Rlt_dec (Rabs (b - a)) epsilon) as [Hlt|Hge].
  - injection H as <-. split; [intros _; exact Hlen | intros Hn; contradiction].
  - split; [intros Hlt; contradiction|]. intros _ H3.
    destruct n as [|n]; [lia|]. cbn [seq for_break] in H.
    destruct (iteration_body K epsilon 2 (state_of r1)) as [r2| |] eqn:E2; try discriminate.
    destruct (iteration_body_frame _ _ _ _ _ E2) as (_ & x2 & L2).
    assert (Hlen2 : length (likelihoods (state_of r2)) = (length (likelihoods s) + 3)%nat).
    { rewrite L2, length_app, Hlen. simpl. lia. }
    destruct r2 as [s2|s2]; cbn [state_of] in *.
    + apply for_break_trace in H. destruct H as (_ & xs & Hxs & _).
      rewrite Hxs, length_app, Hlen2. lia.
    + injection H as <-. lia.
Qed.

Lemma iteration_body_settles (self : Corpus) (c : matrix) (K : nat) (r : nat -> R)
  (epsilon : R) (i : nat) :
  (1 <= K)%nat -> (1 <= vocabulary_size self)%nat ->
  proper_counts self c -> topic_uniform self K r ->
  iteration_body (Z.of_nat K) epsilon i self =
  (let s := settled self c K
              (likelihoods self ++
               [settled_likelihood c (number_of_documents self) K (vocabulary_size self)]) in
   stop <- converged s i epsilon ;;
   Ok (if stop then Break s else Continue s)).
Proof.
  intros HK HV PC TU.
  destruct (iteration_topic_uniform self c K r HK HV PC TU)
    as (s1 & E1 & _ & s2 & E2 & _ & _ & E3).
  unfold iteration_body. rewrite E1. cbn [bind]. rewrite E2. cbn [bind].
  rewrite E3. reflexivity.
Qed.

Lemma skewed_refit_run :
  exists s', em_loop 1 50 (1 / 1000) skewed_refit = Ok s'.
Proof.
  unfold em_loop, range. change (Z.to_nat 50) with 50%nat.
  cbn [seq for_break].
  pose proof (iteration_body_settles skewed_refit [[2; 1]] 1 (fun _ => 1 / INR 2)
                (1 / 1000) 0 (le_n 1) (le_S 1 1 (le_n 1)) skewed_uniform_proper
                (uniform_topic_uniform skewed_refit 1 (le_S 1 1 (le_n 1)) eq_refl eq_refl))
    as E0.
  change (Z.of_nat 1) with 1%Z in E0. rewrite E0. clear E0.
  cbv zeta. rewrite converged_first. cbn [bind].
  set (s0 := settled skewed_refit [[2; 1]] 1 _).
  pose proof (iteration_body_settles s0 [[2; 1]] 1 _ (1 / 1000) 1 (le_n 1)
                (le_S 1 1 (le_n 1)) (settled_proper skewed_refit _ 1 _ skewed_uniform_proper)
                (settled_topic_uniform skewed_refit [[2; 1]] 1 _ (le_S 1 1 (le_n 1))
                   skewed_uniform_proper)) as E1.
  change (Z.of_nat 1) with 1%Z in E1. rewrite E1. clear E1.
  cbv zeta.
  rewrite (converged_at _ 1 (1 / 1000) 7 7) by (try lia; reflexivity).
  replace (7 - 7) with 0 by lra. rewrite Rabs_R0.
  destruct (Rlt_dec 0 (1 / 1000)) as [_|Hn]; [|exfalso; apply Hn; lra].
  cbn [bind]. eexists. reflexivity.
Defined.

Lemma convergence_reads_old_trace_witness :
  exists s', em_loop 1 50 (1 / 1000) skewed_refit = Ok s' /\
             length (likelihoods s') = 4%nat.
Proof.
  destruct skewed_refit_run as (s' & E). exists s'. split; [exact E|].
  apply (proj1 (convergence_reads_old_trace 1 (1 / 1000) 50 skewed_refit s' 7 7 []
                  eq_refl ltac:(lia) E)).
  replace (7 - 7) with 0 by lra. rewrite Rabs_R0. lra.
Defined.

(** ** Empty input, and [main] *)

Lemma plsa_no_vocabulary (rnd : nat -> R) (self : Corpus) (K : nat) (max_iter : Z)
  (epsilon : R) :
  loaded self -> vocabulary_size self = 0%nat -> (1 <= K)%nat ->
  plsa rnd self (Z.of_nat K) max_iter epsilon = Raise RowsSumToZero.
Proof.
  intros L HV HK. rewrite (plsa_spec rnd self K max_iter epsilon L).
  destruct (normalize_cases (sample_theta rnd (number_of_documents self) K))
    as [[_ E] | [_ E]]; rewrite E; [|reflexivity].
  cbn [bind]. unfold sample_phi. rewrite HV, (normalize_no_columns K _ HK). reflexivity.
Qed.

(** X18.  A fit needs a vocabulary: on a loaded corpus without a single
    vocabulary term (no documents, or only empty ones, or an instance on which
    nothing was built yet) [plsa] with at least one topic raises the
    row-sums-to-zero exception, whatever is drawn and whatever the budget. *)
Theorem plsa_empty_vocabulary (rnd : nat -> R) (self : Corpus) (K : nat)
  (max_iter : Z) (epsilon : R) :
  loaded self -> vocabulary_size self = 0%nat -> (1 <= K)%nat ->
  plsa rnd self (Z.of_nat K) max_iter epsilon = Raise RowsSumToZero.
Proof. apply plsa_no_vocabulary. Qed.

Lemma plsa_empty_vocabulary_witness :
  plsa half (init "data/test.txt") 2 50 (1 / 1000) = Raise RowsSumToZero.
Proof.
  apply (plsa_empty_vocabulary half (init "data/test.txt") 2 50 (1 / 1000));
    [split; reflexivity | reflexivity | lia].
Defined.

(** X19.  [plsa] starts afresh from the corpus: on a loaded corpus its
    outcome does not depend on the count matrix, the tables or the posterior
    the instance held before the call. *)
Theorem plsa_restarts (rnd : nat -> R) (self : Corpus) (K max_iter : Z) (epsilon : R)
  (c t p : matrix) (z : tensor) :
  loaded self ->
  plsa rnd
    (set_topic_prob (set_topic_word_prob (set_document_topic_prob
       (set_term_doc_matrix self c) t) p) z) K max_iter epsilon
  = plsa rnd self K max_iter epsilon.
Proof.
  intros L.
  set (self' := set_topic_prob (set_topic_word_prob (set_document_topic_prob
                  (set_term_doc_matrix self c) t) p) z).
  assert (L' : loaded self') by exact L.
  destruct (Z.ltb_spec K 0) as [HK|HK].
  - rewrite !plsa_negative_topics by assumption. reflexivity.
  - rewrite <- (Z2Nat.id K HK).
    rewrite (plsa_spec rnd self' (Z.to_nat K) max_iter epsilon L').
    rewrite (plsa_spec rnd self (Z.to_nat K) max_iter epsilon L). reflexivity.
Qed.

Lemma plsa_restarts_witness :
  plsa half
    (set_topic_prob (set_topic_word_prob (set_document_topic_prob
       (set_term_doc_matrix single [[9]]) [[9]]) [[9]]) [[[9]]]) 1 3 (1 / 1000)
  = plsa half single 1 3 (1 / 1000).
Proof.
  apply (plsa_restarts half single 1 3 (1 / 1000)). split; reflexivity.
Defined.

Lemma em_loop_at_least_two (K max_iter : Z) (epsilon : R) (s s' : Corpus) :
  (2 <= max_iter)%Z -> em_loop K max_iter epsilon s = Ok s' ->
  (length (likelihoods s) + 2 <= length (likelihoods s'))%nat.
Proof.
  intros Hm H. unfold em_loop, range in H.
  destruct (Z.to_nat max_iter) as [|[|n]] eqn:En; try lia.
  cbn [seq for_break] in H.
  destruct (iteration_body K epsilon 0 s) as [r0| |] eqn:E0; try discriminate.
  destruct (iteration_body_frame _ _ _ _ _ E0) as (_ & x0 & L0).
  destruct (iteration_body_inv _ _ _ _ _ E0) as (b0 & C0 & R0).
  rewrite converged_first in C0. injection C0 as <-. rewrite R0 in H.
  destruct (iteration_body K epsilon 1 (state_of r0)) as [r1| |] eqn:E1; try discriminate.
  destruct (iteration_body_frame _ _ _ _ _ E1) as (_ & x1 & L1).
  assert (Hlen : length (likelihoods (state_of r1)) = (length (likelihoods s) + 2)%nat).
  { rewrite L1, L0, !length_app. simpl. lia. }
  destruct r1 as [s1|s1]; cbn [state_of] in *.
  - apply for_break_trace in H. destruct H as (_ & xs & Hxs & _).
    rewrite Hxs, length_app, Hlen. lia.
  - injection H as <-. lia.
Qed.

Lemma blank_documents (lines : list string) :
  (forall line, In line lines ->
     forall c, In c (list_ascii_of_string line) -> is_space c = true) ->
  concat (map split lines) = [].
Proof.
  intros H. induction lines as [|line lines IH]; [reflexivity|].
  cbn [map concat]. unfold split at 1.
  rewrite (split_from_blank line EmptyString) by (apply H; left; reflexivity).
  rewrite IH by (intros l Hl; apply H; right; exact Hl). reflexivity.
Qed.

(** X20.  [main], for any content of data/test.txt and any draws.  If the
    file has no token at all (no line, or only blank lines) the run ends with
    the row-sums-to-zero exception.  If some line of the file is blank the run
    does not end normally.  When the run ends normally the instance holds one
    document per line, the tokens of that line in order, a duplicate-free
    vocabulary of the tokens of the file, and a trace of at least 2 and at most
    50 log-likelihoods. *)
Theorem main_outcomes (lines : list string) (rnd : nat -> R) (result : outcome Corpus) :
  main lines rnd result ->
  ((forall line, In line lines ->
      forall c, In c (list_ascii_of_string line) -> is_space c = true) ->
   result = Raise RowsSumToZero) /\
  ((exists line, In line lines /\
      forall c, In c (list_ascii_of_string line) -> is_space c = true) ->
   forall s', result <> Ok s') /\
  (forall s', result = Ok s' ->
     documents s' = map split lines /\
     number_of_documents s' = length lines /\
     NoDup (vocabulary s') /\
     (forall w, In w (vocabulary s') <-> In w (concat (map split lines))) /\
     vocabulary_size s' = length (vocabulary s') /\
     (2 <= length (likelihoods s') <= 50)%nat).
Proof.
  intros (self & Hb & ->).
  destruct (loaded_after_building lines _ self Hb) as (L & Hnd & Hdocs & Hvoc).
  assert (HD : number_of_documents self = length lines).
  { destruct L as [Ld _]. rewrite Ld, Hdocs. apply length_map. }
  split; [|split].
  - intros Hblank.
    assert (Hv : vocabulary self = []).
    { destruct (vocabulary self) as [|w voc] eqn:Ev; [reflexivity|]. exfalso.
      assert (Hin : In w (concat (documents self))) by (apply Hvoc; left; reflexivity).
      rewrite Hdocs, (blank_documents lines Hblank) in Hin. exact Hin. }
    apply (plsa_no_vocabulary rnd self 2 50 (1 / 1000) L); [|lia].
    destruct L as [_ Lv]. rewrite Lv, Hv. reflexivity.
  - intros (line & Hin & Hblank) s'.
    destruct (In_nth lines line EmptyString Hin) as (d & Hd & Ed).
    apply (plsa_empty_document_never_returns rnd self 2 50 (1 / 1000) d L);
      [lia | lia|].
    rewrite Hdocs.
    change (@nil string) with (split EmptyString) at 1.
    rewrite (map_nth split lines EmptyString d), Ed.
    apply (split_from_blank line EmptyString Hblank).
  - intros s' H.
    destruct (plsa_returns rnd self s' 2 50 (1 / 1000) L H)
      as (_ & (A1 & A2 & A3 & A4) & xs & Hxs & Hl).
    assert (E0 : likelihoods self = []).
    { destruct Hb as (voc & _ & _ & ->). reflexivity. }
    split; [rewrite A1; exact Hdocs|]. split; [rewrite A3; exact HD|].
    split; [rewrite A2; exact Hnd|]. split; [|split].
    + intros w. rewrite A2, <- Hdocs. apply Hvoc.
    + rewrite A4, A2. apply L.
    + split.
      * change 2%Z with (Z.of_nat 2) in H.
        rewrite (plsa_spec rnd self 2 50 (1 / 1000) L) in H.
        destruct (normalize (sample_theta rnd (number_of_documents self) 2));
          try discriminate. cbn [bind] in H.
        destruct (normalize (sample_phi rnd (number_of_documents self) 2
                               (vocabulary_size self))); try discriminate.
        cbn [bind] in H.
        apply em_loop_at_least_two in H; [|lia].
        simpl in H. rewrite E0 in H. simpl in H. exact H.
      * rewrite Hxs, E0. simpl. change (Z.to_nat 50) with 50%nat in Hl. exact Hl.
Qed.

Lemma main_outcomes_witness :
  let corpus := mkCorpus [["a"; "b"]; []]%string ["a"; "b"]%string [] "data/test.txt"%string
                  None None None None 2 2 in
  main ["a b" ++ newline; newline]%string half (plsa half corpus 2 50 (1 / 1000)) /\
  forall s', plsa half corpus 2 50 (1 / 1000) <> Ok s'.
Proof.
  cbv zeta.
  assert (M : main ["a b" ++ newline; newline]%string half
                (plsa half
                   (mkCorpus [["a"; "b"]; []]%string ["a"; "b"]%string []
                      "data/test.txt"%string None None None None 2 2)
                   2 50 (1 / 1000))).
  { eexists. split; [|reflexivity].
    exists ["a"; "b"]%string. split; [|split; [|reflexivity]].
    - repeat constructor; simpl; intuition discriminate.
    - intros w. simpl. intuition. }
  split; [exact M|].
  apply (proj1 (proj2 (main_outcomes _ _ _ M))).
  exists newline. split; [right; left; reflexivity|].
  intros c [<- | []]. reflexivity.
Defined.

(** ** Where binary64 parts from exact arithmetic

    The tables of a uniform start for one document, six topics and one term,
    computed as the program computes them.  Normalising a row of six ones
    gives six times the binary64 number nearest to 1/6, which add up to
    0.9999999999999999; the posterior of the only cell is six times the
    next number above it, which add up to 1.0000000000000002. *)

Module Rounding.
Import PrimFloat.




End Rounding.
